(** * TRIAGEAGENT: the rule-based classifier and the engineer assignment engine

    A shallow embedding of [ai_triage.py] (class [AITriageAgent]) and of
    [engineer_assignment.py] (class [EngineerAssignmentEngine]), with the
    part of [data_storage.py] the engine writes to ([log_assignment]).
    Around them: what [DataStorage] saves and logs and [get_latest_tickets],
    the base address and endpoints of the adapters of [api_integrations.py],
    and [fetch_tickets_from_apis] and [process_tickets] of [triage_ai.py].

    Conventions of the embedding.
    - A Python [str] is a [string]; [lower], [strip] and [in] act on its
      characters as the Python methods do on the ASCII range.
    - A ticket is a [dict] from field names to text: [gmap string string].
      Tickets are mutable objects that the pipeline passes by reference, so
      they live in a [store] and the functions take and return references.
    - An engineer is a record of the four keys the engine reads; the three
      optional keys are [option]s, read with the default of the [get] call.
    - The scores are read twice. In [Engine] a score is the exact rational
      ([Q]) that its expression denotes; the theorems on [Engine] concern
      which engineers are skipped, the fallback, the counters, the audit log
      and the order of a batch. In [FloatEngine] a score is the double the
      interpreter computes (IEEE 754 binary64, [spec_float], every operation
      rounded); which engineer the scoring loop keeps is stated there.
    - [self.workload] is a [gmap string Z]; the audit log written by
      [DataStorage.log_assignment] is the list of its rows, oldest first
      (the [timestamp] column is left out).
    - A function that can raise returns an [option]; [None] is the
      exception ([KeyError] of [self.workload[name] += 1], and in
      [FloatEngine] the errors of [current_workload / max_workload]). *)

From Stdlib Require Import Ascii ZArith QArith Lia Lqa Sorted SpecFloat.
From Stdlib Require String.
From stdpp Require Import base strings list gmap.
Close Scope Q_scope.

(** ** Python string primitives *)
Module PyStr.

Definition is_upper (c : ascii) : bool :=
  let n := nat_of_ascii c in (65 <=? n) && (n <=? 90).

Definition lower_char (c : ascii) : ascii :=
  if is_upper c then ascii_of_nat (nat_of_ascii c + 32) else c.

(** [s.lower()] *)
Fixpoint lower (s : string) : string :=
  match s with
  | EmptyString => EmptyString
  | String c t => String (lower_char c) (lower t)
  end.

(** [text.startswith(kw)] *)
Fixpoint is_prefix (kw text : string) : bool :=
  match kw, text with
  | EmptyString, _ => true
  | String a kw', String b text' => Ascii.eqb a b && is_prefix kw' text'
  | String _ _, EmptyString => false
  end.

(** [kw in text] *)
Fixpoint contains (kw text : string) : bool :=
  is_prefix kw text ||
  match text with
  | EmptyString => false
  | String _ t => contains kw t
  end.

(** [s[:n]] *)
Fixpoint take (n : nat) (s : string) : string :=
  match n, s with
  | S n', String c t => String c (take n' t)
  | _, _ => EmptyString
  end.

(** [sep.join(l)] *)
Fixpoint join (sep : string) (l : list string) : string :=
  match l with
  | [] => ""
  | [x] => x
  | x :: r => x +:+ sep +:+ join sep r
  end.

(** The characters [str.strip()] removes. *)
Definition is_space (c : ascii) : bool :=
  let n := nat_of_ascii c in
  ((9 <=? n) && (n <=? 13)) || ((28 <=? n) && (n <=? 32)).

(** The characters the quote-stripping [strip] call removes: the single
    quote (39) and the double quote (34). *)
Definition is_quote (c : ascii) : bool :=
  let n := nat_of_ascii c in (n =? 39) || (n =? 34).

Definition is_empty (s : string) : bool :=
  match s with EmptyString => true | _ => false end.

Fixpoint lstrip (p : ascii -> bool) (s : string) : string :=
  match s with
  | EmptyString => EmptyString
  | String c t => if p c then lstrip p t else s
  end.

Fixpoint rstrip (p : ascii -> bool) (s : string) : string :=
  match s with
  | EmptyString => EmptyString
  | String c t =>
      let t' := rstrip p t in
      if is_empty t' && p c then EmptyString else String c t'
  end.

(** [s.strip()] and [s.strip(chars)] *)
Definition strip_with (p : ascii -> bool) (s : string) : string :=
  rstrip p (lstrip p s).
Definition strip : string -> string := strip_with is_space.
Definition strip_quotes : string -> string := strip_with is_quote.

(** [s.split(",")] : never the empty list. *)
Fixpoint split_comma (s : string) : list string :=
  match s with
  | EmptyString => [EmptyString]
  | String c t =>
      if Ascii.eqb c ","
      then EmptyString :: split_comma t
      else match split_comma t with
           | h :: r => String c h :: r
           | [] => [String c EmptyString]
           end
  end.

(** [s.startswith("[")] *)
Definition starts_with_char (a : ascii) (s : string) : bool :=
  match s with
  | String c _ => Ascii.eqb c a
  | EmptyString => false
  end.

(** [s.endswith("]")] *)
Fixpoint ends_with_char (a : ascii) (s : string) : bool :=
  match s with
  | EmptyString => false
  | String c EmptyString => Ascii.eqb c a
  | String _ t => ends_with_char a t
  end.

Fixpoint drop_last (s : string) : string :=
  match s with
  | EmptyString => EmptyString
  | String _ EmptyString => EmptyString
  | String c t => String c (drop_last t)
  end.

(** [s[1:-1]] *)
Definition slice_1_m1 (s : string) : string :=
  match s with
  | EmptyString => EmptyString
  | String _ t => drop_last t
  end.

(** Truth value of a string: [bool(s)]. *)
Definition truthy (s : string) : bool := negb (is_empty s).

End PyStr.

(** ** Mutable dict objects *)

(** A ticket record and the store of the live ticket objects. Reading a
    reference that names no object gives the empty dict. *)
Abbreviation ticket := (gmap string string).
Abbreviation ref := nat (only parsing).
Abbreviation store := (gmap nat (gmap string string)).

Definition deref (h : store) (r : ref) : ticket := h !!! r.

(** [obj[key] = v] on the object behind [r]. *)
Definition setitem (h : store) (r : ref) (key v : string) : store :=
  <[r := <[key := v]> (deref h r)]> h.

(** [d.get(key, dflt)] *)
Definition dict_get (d : ticket) (key dflt : string) : string :=
  default dflt (d !! key).

(** ** ai_triage.py *)
Module Triage.
Import PyStr.

Definition CATEGORIES : list string :=
  ["Network"; "Database"; "DevOps"; "Security";
   "Frontend"; "Backend"; "Access"; "Other"].

Definition CATEGORY_SKILLS : list (string * list string) :=
  [("Network", ["Network"; "Security"]);
   ("Database", ["Database"; "Backend"]);
   ("DevOps", ["DevOps"; "Backend"]);
   ("Security", ["Security"; "Network"]);
   ("Frontend", ["Frontend"]);
   ("Backend", ["Backend"; "Database"]);
   ("Access", ["Access"; "Security"]);
   ("Other", ["DevOps"; "Backend"])].

Definition CATEGORY_KEYWORDS : list (string * list string) :=
  [("Network", ["vpn"; "network"; "firewall"; "dns"; "latency"; "switch"; "router"; "connection"]);
   ("Database", ["database"; "sql"; "postgresql"; "mysql"; "mongodb"; "query"; "replication"]);
   ("DevOps", ["ci/cd"; "pipeline"; "kubernetes"; "docker"; "jenkins"; "terraform"; "deployment"]);
   ("Security", ["security"; "ssl"; "certificate"; "vulnerability"; "unauthorized"; "mfa"; "login"]);
   ("Frontend", ["frontend"; "website"; "css"; "javascript"; "mobile"; "browser"; "ui"]);
   ("Backend", ["api"; "backend"; "server"; "endpoint"; "payment"; "email"; "session"]);
   ("Access", ["access"; "permission"; "credentials"; "password"; "account"; "privileges"]);
   ("Other", ["printer"; "laptop"; "license"; "inquiry"; "policy"])].

Definition PRIORITY_KEYWORDS : list (string * list string) :=
  [("High", ["critical"; "down"; "outage"; "urgent"; "production"; "security"; "vulnerability"]);
   ("Medium", ["slow"; "intermittent"; "warning"; "issue"; "problem"]);
   ("Low", ["request"; "inquiry"; "question"; "enhancement"])].

(** [sum(1 for kw in keywords if kw in combined_text)] *)
Fixpoint count_matches (keywords : list string) (text : string) : nat :=
  match keywords with
  | [] => 0
  | kw :: rest =>
      (if contains kw text then 1 else 0) + count_matches rest text
  end.

(** One iteration of the category loop on [(category, max_matches)]. *)
Definition category_step (text : string) (acc : string * nat)
    (entry : string * list string) : string * nat :=
  let matches := count_matches entry.2 text in
  if acc.2 <? matches then (entry.1, matches) else acc.

Definition category_loop (table : list (string * list string))
    (text : string) : string * nat :=
  fold_left (category_step text) table ("Other", 0).

(** [any(kw in combined_text for kw in keywords)] *)
Definition any_match (keywords : list string) (text : string) : bool :=
  existsb (fun kw => contains kw text) keywords.

(** The priority loop, with its [break]. *)
Fixpoint priority_loop (tiers : list (string * list string))
    (text : string) : string :=
  match tiers with
  | [] => "Medium"
  | (pri, keywords) :: rest =>
      if any_match keywords text then pri else priority_loop rest text
  end.

(** [CATEGORY_SKILLS.get(category, ["Other"])] *)
Fixpoint table_get (table : list (string * list string)) (key : string)
    (dflt : list string) : list string :=
  match table with
  | [] => dflt
  | (k, v) :: rest => if String.eqb k key then v else table_get rest key dflt
  end.

Definition combined_text (summary description : string) : string :=
  lower (summary +:+ " " +:+ description).

Definition mock_category (summary description : string) : string :=
  (category_loop CATEGORY_KEYWORDS (combined_text summary description)).1.

Definition mock_priority (summary description : string) : string :=
  priority_loop PRIORITY_KEYWORDS (combined_text summary description).

Definition mock_skills (summary description : string) : string :=
  join ", " (table_get CATEGORY_SKILLS (mock_category summary description) ["Other"]).

Definition mock_summary (summary description : string) : string :=
  mock_category summary description +:+ " issue: " +:+ take 80 summary +:+ "...".

(** [AITriageAgent._triage_with_mock] *)
Definition _triage_with_mock (h : store) (t : ref)
    (summary description : string) : store * ref :=
  let h1 := setitem h t "ai_category" (mock_category summary description) in
  let h2 := setitem h1 t "ai_priority" (mock_priority summary description) in
  let h3 := setitem h2 t "ai_skills" (mock_skills summary description) in
  let h4 := setitem h3 t "ai_summary" (mock_summary summary description) in
  let h5 := setitem h4 t "triage_method" "Mock Rule-Based" in
  (h5, t).

(** The parsed reply of the language model: the JSON object's fields. *)
Record llm_reply := {
  category : option string;
  priority : option string;
  required_skills : option (list string);
  summary : option string }.

Record AITriageAgent := {
  use_openai : bool;
  openai_available : bool }.

Section WithBackend.
(** The remote call of [_triage_with_openai] on the summary and the
    description; [None] when the call or the parsing raises. *)
Variable openai_complete : string -> string -> option llm_reply.

(** [AITriageAgent._triage_with_openai]; [None] is the exception. *)
Definition _triage_with_openai (h : store) (t : ref)
    (summary_ description : string) : option (store * ref) :=
  match openai_complete summary_ description with
  | None => None
  | Some result =>
      let h1 := setitem h t "ai_category" (default "Other" (category result)) in
      let h2 := setitem h1 t "ai_priority" (default "Medium" (priority result)) in
      let h3 := setitem h2 t "ai_skills"
                  (join ", " (default ["Other"] (required_skills result))) in
      let h4 := setitem h3 t "ai_summary" (default summary_ (summary result)) in
      let h5 := setitem h4 t "triage_method" "OpenAI GPT-5" in
      Some (h5, t)
  end.

(** [AITriageAgent.triage_ticket] *)
Definition triage_ticket (agent : AITriageAgent) (h : store) (t : ref)
    : store * ref :=
  let d := deref h t in
  let ticket_text :=
    if decide (d !! "source" = Some "ServiceNow")
    then dict_get d "short_description" ""
    else dict_get d "summary" "" in
  let full_description := dict_get d "description" ticket_text in
  if openai_available agent then
    match _triage_with_openai h t ticket_text full_description with
    | Some r => r
    | None => _triage_with_mock h t ticket_text full_description
    end
  else _triage_with_mock h t ticket_text full_description.

(** [AITriageAgent.batch_triage] *)
Fixpoint batch_triage (agent : AITriageAgent) (h : store)
    (tickets : list ref) : store * list ref :=
  match tickets with
  | [] => (h, [])
  | t :: rest =>
      let '(h1, t1) := triage_ticket agent h t in
      let '(h2, out) := batch_triage agent h1 rest in
      (h2, t1 :: out)
  end.
End WithBackend.

End Triage.

(** ** data_storage.py: the rows of the assignment audit log *)
Record assignment_row := {
  row_ticket_id : string;
  row_assigned_engineer : option string;
  row_is_fallback : bool;
  row_reason : string }.

(** [sorted(l, key=key)]: Python's sort is stable; insertion sort is the
    reference stable sort. *)
Fixpoint insert_by {A} (key : A -> Z) (x : A) (l : list A) : list A :=
  match l with
  | [] => [x]
  | y :: r => if (key x <=? key y)%Z then x :: y :: r else y :: insert_by key x r
  end.

Fixpoint sorted {A} (key : A -> Z) (l : list A) : list A :=
  match l with
  | [] => []
  | x :: r => insert_by key x (sorted key r)
  end.

(** [x > y] on scores *)
Definition Qgtb (x y : Q) : bool := negb (Qle_bool x y).

(** ** engineer_assignment.py *)
Module Engine.
Import PyStr.

(** An engineer dict; the optional keys are read with [get] and a default. *)
Record Engineer := {
  name : string;
  skills : option (list string);
  availability : option string;
  max_workload : option Z }.

Record EngineerAssignmentEngine := {
  engineers : list Engineer;
  workload : gmap string Z;
  storage : list assignment_row;
  current_ticket_id : option string }.

(** [{eng["name"]: 0 for eng in engineers}] *)
Definition zero_workload (engs : list Engineer) : gmap string Z :=
  fold_left (fun w e => <[name e := 0%Z]> w) engs ∅.

(** [__init__]; [log] is what the audit log file holds already. *)
Definition __init__ (engs : list Engineer) (log : list assignment_row)
    : EngineerAssignmentEngine :=
  {| engineers := engs; workload := zero_workload engs;
     storage := log; current_ticket_id := None |}.

(** The shapes [required_skills] arrives in. *)
Inductive skills_arg :=
| SkNone
| SkStr (s : string)
| SkList (l : list string).

Definition arg_truthy (a : skills_arg) : bool :=
  match a with
  | SkNone => false
  | SkStr s => truthy s
  | SkList l => match l with [] => false | _ => true end
  end.

Definition clean (s : string) : string := lower (strip s).

(** The [else] branch of the normalisation, on [str(required_skills)]. *)
Definition required_of_string (s0 : string) : gset string :=
  let s := strip s0 in
  let s := if starts_with_char "[" s && ends_with_char "]" s
           then slice_1_m1 s else s in
  let parts := map (fun p => strip_quotes (strip p))
                   (List.filter (fun p => truthy (strip p)) (split_comma s)) in
  list_to_set (map lower (List.filter truthy parts)).

Definition required_skills_set (required_skills : skills_arg) : gset string :=
  match required_skills with
  | SkList l => list_to_set (map clean (List.filter truthy l))
  | SkStr s => required_of_string s
  | SkNone => required_of_string "None"
  end.

Definition engineer_skills (engineer : Engineer) : gset string :=
  list_to_set (map clean (default [] (skills engineer))).

Definition calculate_skill_match_score (engineer : Engineer)
    (required_skills : skills_arg) : Q :=
  if negb (arg_truthy required_skills) then 1 # 2
  else
    let required := required_skills_set required_skills in
    if decide (size required = 0) then 1 # 2
    else
      let matching_skills := engineer_skills engineer ∩ required in
      (inject_Z (Z.of_nat (size matching_skills)) /
       inject_Z (Z.of_nat (size required)))%Q.

Definition current_load (w : gmap string Z) (n : string) : Z :=
  default 0%Z (w !! n).

Definition calculate_workload_score (self : EngineerAssignmentEngine)
    (engineer : Engineer) : Q :=
  let current_workload := current_load (workload self) (name engineer) in
  let max_workload := default 5%Z (max_workload engineer) in
  if (max_workload <=? current_workload)%Z then 0%Q
  else (1 - inject_Z current_workload / inject_Z max_workload)%Q.

Definition get_availability_score (engineer : Engineer) : Q :=
  if String.eqb (lower (default "available" (availability engineer))) "available"
  then 1%Q else 0%Q.

Section Selection.
Variable self : EngineerAssignmentEngine.
Variable required_skills : skills_arg.
Variables skill_weight workload_weight : Q.
Variable allow_overflow : bool.

(** The two [continue] tests of the scoring loop. *)
Definition skipped (engineer : Engineer) : bool :=
  Qeq_bool (get_availability_score engineer) 0 ||
  (Qeq_bool (calculate_workload_score self engineer) 0 && negb allow_overflow).

(** The exact value of the score expression; [FloatEngine.combined_score]
    is the double the interpreter computes. *)
Definition combined_score (engineer : Engineer) : Q :=
  let skill_score := calculate_skill_match_score engineer required_skills in
  let workload_score := calculate_workload_score self engineer in
  if Qeq_bool skill_score 0
  then ((1 # 10) + workload_score * workload_weight)%Q
  else (skill_score * skill_weight + workload_score * workload_weight)%Q.

(** One iteration of the scoring loop on [(best_engineer, best_score)], on
    exact values; [FloatEngine.score_step] is the iteration on doubles. *)
Definition score_step (acc : option string * Q) (engineer : Engineer)
    : option string * Q :=
  if skipped engineer then acc
  else
    let combined := combined_score engineer in
    if Qgtb combined acc.2 then (Some (name engineer), combined) else acc.

Definition score_loop : option string * Q :=
  fold_left score_step (engineers self) (None, (-1)%Q).
End Selection.

(** One iteration of the fallback loop on [(min_load, chosen)]. *)
Definition least_loaded_step (w : gmap string Z)
    (acc : option Z * option string) (eng : Engineer)
    : option Z * option string :=
  let load := current_load w (name eng) in
  match acc.1 with
  | None => (Some load, Some (name eng))
  | Some min_load =>
      if (load <? min_load)%Z then (Some load, Some (name eng)) else acc
  end.

Definition fallback_candidates (engs : list Engineer) : list Engineer :=
  let available_candidates :=
    List.filter (fun eng => Qeq_bool (get_availability_score eng) 1) engs in
  match available_candidates with
  | [] => engs
  | _ => available_candidates
  end.

Definition least_loaded (self : EngineerAssignmentEngine) : option string :=
  (fold_left (least_loaded_step (workload self))
             (fallback_candidates (engineers self)) (None, None)).2.

Definition fallback_reason : string :=
  "No suitable engineer found (fallback to least loaded)".

(** [DataStorage.log_assignment] through [self.storage] *)
Definition log_assignment (self : EngineerAssignmentEngine)
    (tid : string) (engineer : option string) (fallback : bool)
    (why : string) : EngineerAssignmentEngine :=
  {| engineers := engineers self; workload := workload self;
     storage := storage self ++
       [{| row_ticket_id := tid; row_assigned_engineer := engineer;
           row_is_fallback := fallback; row_reason := why |}];
     current_ticket_id := current_ticket_id self |}.

Definition find_best_engineer (self : EngineerAssignmentEngine) (t : ticket)
    (skill_weight workload_weight : Q) (allow_overflow : bool)
    : option string * EngineerAssignmentEngine :=
  let required_skills := SkStr (dict_get t "ai_skills" "") in
  match (score_loop self required_skills skill_weight workload_weight
                    allow_overflow).1 with
  | Some best_engineer => (Some best_engineer, self)
  | None =>
      let chosen := least_loaded self in
      let tid := default "Unknown" (current_ticket_id self) in
      (chosen, log_assignment self tid chosen true fallback_reason)
  end.

(** [self.current_ticket_id = tid] and [self.workload = w] *)
Definition set_current_ticket_id (self : EngineerAssignmentEngine)
    (tid : string) : EngineerAssignmentEngine :=
  {| engineers := engineers self; workload := workload self;
     storage := storage self; current_ticket_id := Some tid |}.

Definition set_workload (self : EngineerAssignmentEngine)
    (w : gmap string Z) : EngineerAssignmentEngine :=
  {| engineers := engineers self; workload := w;
     storage := storage self; current_ticket_id := current_ticket_id self |}.

(** [a or b] where [a] is the result of a [dict.get] *)
Definition get_or (a : option string) (b : string) : string :=
  match a with
  | Some s => if truthy s then s else b
  | None => b
  end.

(** [self.workload[n] += 1]; [None] is the [KeyError]. *)
Definition bump (w : gmap string Z) (n : string) : option (gmap string Z) :=
  match w !! n with
  | Some c => Some (<[n := (c + 1)%Z]> w)
  | None => None
  end.

(** [assign_ticket]; [None] is an exception. *)
Definition assign_ticket (self : EngineerAssignmentEngine) (h : store)
    (t : ref) (skill_weight workload_weight : Q) (allow_overflow : bool)
    : option (EngineerAssignmentEngine * store * ref) :=
  let d := deref h t in
  let tid := get_or (d !! "number") (get_or (d !! "key") "Unknown") in
  let self1 := set_current_ticket_id self tid in
  let found :=
    find_best_engineer self1 d skill_weight workload_weight allow_overflow in
  let self2 := found.2 in
  match found.1 with
  | Some assigned_engineer =>
      if truthy assigned_engineer then
        let h' := setitem h t "assigned_engineer" assigned_engineer in
        match bump (workload self2) assigned_engineer with
        | Some w' => Some (set_workload self2 w', h', t)
        | None => None
        end
      else Some (self2, setitem h t "assigned_engineer" "Unassigned", t)
  | None => Some (self2, setitem h t "assigned_engineer" "Unassigned", t)
  end.

Definition reset_workload (self : EngineerAssignmentEngine)
    : EngineerAssignmentEngine :=
  set_workload self (zero_workload (engineers self)).

Definition priority_order (p : string) : option Z :=
  if String.eqb p "High" then Some 0%Z
  else if String.eqb p "Medium" then Some 1%Z
  else if String.eqb p "Low" then Some 2%Z
  else None.

(** The sort key [priority_order.get(t.get("ai_priority", "Medium"), 1)] *)
Definition priority_key (h : store) (t : ref) : Z :=
  default 1%Z (priority_order (dict_get (deref h t) "ai_priority" "Medium")).

(** The assignment loop of [assign_tickets]. *)
Fixpoint assign_each (self : EngineerAssignmentEngine) (h : store)
    (tickets : list ref) (skill_weight workload_weight : Q)
    (allow_overflow : bool)
    : option (EngineerAssignmentEngine * store * list ref) :=
  match tickets with
  | [] => Some (self, h, [])
  | t :: rest =>
      match assign_ticket self h t skill_weight workload_weight allow_overflow with
      | None => None
      | Some (self1, h1, assigned_ticket) =>
          match assign_each self1 h1 rest skill_weight workload_weight
                            allow_overflow with
          | None => None
          | Some (self2, h2, out) => Some (self2, h2, assigned_ticket :: out)
          end
      end
  end.

Definition assign_tickets (self : EngineerAssignmentEngine) (h : store)
    (tickets : list ref) (skill_weight workload_weight : Q)
    (reset : bool) (allow_overflow : bool)
    : option (EngineerAssignmentEngine * store * list ref) :=
  let sorted_tickets := sorted (priority_key h) tickets in
  let self1 := if reset then reset_workload self else self in
  assign_each self1 h sorted_tickets skill_weight workload_weight allow_overflow.

(** [get_workload_summary] *)
Definition get_workload_summary (self : EngineerAssignmentEngine)
    : gmap string Z := workload self.

End Engine.

(** ** IEEE 754 binary64: the [float] of CPython

    [spec_float] with 53 bits of precision and exponents below 1024, and the
    operations of the specification of floating-point arithmetic: each one
    rounds its exact result to the nearest double, ties to even. *)
Module Float64.

Abbreviation float := spec_float.

Definition prec : Z := 53.
Definition emax : Z := 1024.

(** [float(z)], as the literals [1.0] and [-1.0] denote it. *)
Definition of_int (z : Z) : float := binary_normalize prec emax z 0 false.

(** An [int] as an operand of [/]: the exact integer. *)
Definition int_operand (z : Z) : float :=
  match z with
  | Z0 => S754_zero false
  | Zpos p => S754_finite false p 0
  | Zneg p => S754_finite true p 0
  end.

(** The quotient of two [int]s, rounded once. A decimal literal such as
    [0.1] is the quotient it spells. *)
Definition quotient (a b : Z) : float :=
  SFdiv prec emax (int_operand a) (int_operand b).

(** [a / b] on two [int]s; [None] is an exception: [ZeroDivisionError], or
    [OverflowError] when the quotient is too large for a double. *)
Definition truediv (a b : Z) : option float :=
  if (b =? 0)%Z then None
  else match quotient a b with
       | S754_infinity _ => None
       | q => Some q
       end.

Definition add : float -> float -> float := SFadd prec emax.
Definition sub : float -> float -> float := SFsub prec emax.
Definition mul : float -> float -> float := SFmul prec emax.

(** [x == y], [x < y] and [x > y]; each is false when an operand is a NaN. *)
Definition eqb : float -> float -> bool := SFeqb.
Definition ltb : float -> float -> bool := SFltb.
Definition gtb (x y : float) : bool := SFltb y x.

Definition is_nan (x : float) : bool :=
  match x with S754_nan => true | _ => false end.

Definition zero : float := S754_zero false.
Definition one : float := of_int 1.
Definition minus_one : float := of_int (-1).
Definition half : float := quotient 1 2.
Definition tenth : float := quotient 1 10.

End Float64.

(** ** engineer_assignment.py: the scoring path on doubles

    The scoring path of [find_best_engineer] with the arithmetic of the
    interpreter: the scores and the weights are doubles, every product, sum
    and difference is rounded, and the comparisons are those of doubles.
    The text and set part of the scores, the workload counters and the
    fallback are those of [Engine]. [None] is an exception of
    [current_workload / max_workload]. *)
Module FloatEngine.
Import PyStr Engine Float64.

(** The divisor is the size of a set that is not empty and the quotient is
    at most one: this division raises nothing. *)
Definition calculate_skill_match_score (engineer : Engineer)
    (required_skills : skills_arg) : float :=
  if negb (arg_truthy required_skills) then half
  else
    let required := required_skills_set required_skills in
    if decide (size required = 0) then half
    else
      let matching_skills := engineer_skills engineer ∩ required in
      quotient (Z.of_nat (size matching_skills)) (Z.of_nat (size required)).

Definition calculate_workload_score (self : EngineerAssignmentEngine)
    (engineer : Engineer) : option float :=
  let current_workload := current_load (workload self) (name engineer) in
  let max_workload := default 5%Z (max_workload engineer) in
  if (max_workload <=? current_workload)%Z then Some zero
  else
    match truediv current_workload max_workload with
    | Some q => Some (sub one q)
    | None => None
    end.

Definition get_availability_score (engineer : Engineer) : float :=
  if String.eqb (lower (default "available" (availability engineer))) "available"
  then one else zero.

Section Selection.
Variable self : EngineerAssignmentEngine.
Variable required_skills : skills_arg.
Variables skill_weight workload_weight : float.
Variable allow_overflow : bool.

(** The two [continue] tests of the scoring loop. *)
Definition skipped (engineer : Engineer) (workload_score : float) : bool :=
  eqb (get_availability_score engineer) zero ||
  (eqb workload_score zero && negb allow_overflow).

Definition combined_score (skill_score workload_score : float) : float :=
  let combined_score :=
    add (mul skill_score skill_weight) (mul workload_score workload_weight) in
  if eqb skill_score zero
  then add tenth (mul workload_score workload_weight)
  else combined_score.

(** One iteration of the scoring loop on [(best_engineer, best_score)]. *)
Definition score_step (acc : option string * float) (engineer : Engineer)
    : option (option string * float) :=
  let skill_score := calculate_skill_match_score engineer required_skills in
  match calculate_workload_score self engineer with
  | None => None
  | Some workload_score =>
      if skipped engineer workload_score then Some acc
      else
        let combined := combined_score skill_score workload_score in
        if gtb combined acc.2 then Some (Some (name engineer), combined)
        else Some acc
  end.

Fixpoint score_loop_from (l : list Engineer) (acc : option string * float)
    : option (option string * float) :=
  match l with
  | [] => Some acc
  | engineer :: rest =>
      match score_step acc engineer with
      | None => None
      | Some acc' => score_loop_from rest acc'
      end
  end.

Definition score_loop : option (option string * float) :=
  score_loop_from (engineers self) (None, minus_one).

(** The combined score of an engineer that the loop does not skip. *)
Definition scored (engineer : Engineer) : option float :=
  match calculate_workload_score self engineer with
  | Some workload_score =>
      if skipped engineer workload_score then None
      else Some (combined_score
                   (calculate_skill_match_score engineer required_skills)
                   workload_score)
  | None => None
  end.
End Selection.

Definition fallback_candidates (engs : list Engineer) : list Engineer :=
  let available_candidates :=
    List.filter (fun eng => eqb (get_availability_score eng) one) engs in
  match available_candidates with
  | [] => engs
  | _ => available_candidates
  end.

Definition least_loaded (self : EngineerAssignmentEngine) : option string :=
  (fold_left (least_loaded_step (workload self))
             (fallback_candidates (engineers self)) (None, None)).2.

Definition find_best_engineer (self : EngineerAssignmentEngine) (t : ticket)
    (skill_weight workload_weight : float) (allow_overflow : bool)
    : option (option string * EngineerAssignmentEngine) :=
  let required_skills := SkStr (dict_get t "ai_skills" "") in
  match score_loop self required_skills skill_weight workload_weight
                   allow_overflow with
  | None => None
  | Some (Some best_engineer, _) => Some (Some best_engineer, self)
  | Some (None, _) =>
      let chosen := least_loaded self in
      let tid := default "Unknown" (current_ticket_id self) in
      Some (chosen, log_assignment self tid chosen true fallback_reason)
  end.

End FloatEngine.

(** ** data_storage.py: ticket files and the action log *)
Module Storage.

(** A line of [logs/triage_actions.log]; its [timestamp] is left out. *)
Record action_entry := {
  action : string;
  tickets_processed : nat;
  method : string }.

(** What a [DataStorage] has written: the ticket files, oldest first, each
    the rows of one batch, and the lines of the action log. *)
Record DataStorage := {
  saved : list (list ticket);
  actions : list action_entry }.

(** [save_tickets] on the rows of the batch: an empty batch writes nothing.
    The path returned, made of the wall-clock time, is left out. *)
Definition save_tickets (self : DataStorage) (tickets : list ticket)
    : DataStorage :=
  match tickets with
  | [] => self
  | _ => {| saved := saved self ++ [tickets]; actions := actions self |}
  end.

(** [append_log] *)
Definition append_log (self : DataStorage) (log_entry : action_entry)
    : DataStorage :=
  {| saved := saved self; actions := actions self ++ [log_entry] |}.

(** [l[start:]]: a negative [start] counts from the end of the list, and
    both ends are clamped. *)
Definition slice_from {A} (start : Z) (l : list A) : list A :=
  let n := Z.of_nat (length l) in
  let first := if (start <? 0)%Z then Z.max 0 (start + n) else Z.min start n in
  drop (Z.to_nat first) l.

(** [get_latest_tickets], on the list [self.load_tickets()] returned. *)
Definition get_latest_tickets {A} (tickets : list A) (limit : Z) : list A :=
  if (limit <? Z.of_nat (length tickets))%Z
  then slice_from (- limit) tickets
  else tickets.

End Storage.

(** ** api_integrations.py: the addresses the adapters call *)
Module Adapters.
Import PyStr.

Definition is_slash (c : ascii) : bool := Ascii.eqb c "/".

(** [ServiceNowAPI.__init__]: [self.instance_url = instance_url.rstrip('/')] *)
Definition servicenow_instance_url (instance_url : string) : string :=
  rstrip is_slash instance_url.

(** The [endpoint] of [ServiceNowAPI.fetch_tickets] *)
Definition servicenow_endpoint (instance_url table : string) : string :=
  servicenow_instance_url instance_url +:+ "/api/now/table/" +:+ table.

(** [JiraAPI.__init__]: [self.server_url = server_url.rstrip('/')] *)
Definition jira_server_url (server_url : string) : string :=
  rstrip is_slash server_url.

(** The [endpoint] of [JiraAPI.fetch_tickets] *)
Definition jira_endpoint (server_url : string) : string :=
  jira_server_url server_url +:+ "/rest/api/3/search".

End Adapters.

(** ** triage_ai.py: fetching and processing *)
Module Dashboard.
Import Triage Engine Storage.

(** [fetch_tickets_from_apis]. The two flags are the [enabled] entries of
    the configuration; [sn_fetch] and [jira_fetch] are the outcomes of the
    adapters' [fetch_tickets], [None] when the call raises; [mock_tickets]
    is what the mock generator returns. The messages shown are left out. *)
Definition fetch_tickets_from_apis {A} (sn_enabled jira_enabled : bool)
    (sn_fetch jira_fetch : option (list A)) (mock_tickets : list A) : list A :=
  let any_api_enabled := sn_enabled || jira_enabled in
  let after_sn : list A * list string :=
    if sn_enabled then
      match sn_fetch with
      | Some sn_tickets => ([] ++ sn_tickets, [] ++ ["ServiceNow"])
      | None => ([], [])
      end
    else ([], []) in
  let after_jira : list A * list string :=
    if jira_enabled then
      match jira_fetch with
      | Some jira_tickets => (after_sn.1 ++ jira_tickets, after_sn.2 ++ ["Jira"])
      | None => after_sn
      end
    else after_sn in
  let all_tickets := after_jira.1 in
  let api_success := after_jira.2 in
  let use_mock :=
    if negb any_api_enabled then true
    else match api_success with
         | _ :: _ => false
         | [] => true
         end in
  if use_mock then mock_tickets else all_tickets.

(** [process_tickets]: triage, assignment with the default arguments, save,
    log. [None] is an exception of the assignment. *)
Definition process_tickets (backend : string -> string -> option llm_reply)
    (triage_agent : AITriageAgent)
    (assignment_engine : EngineerAssignmentEngine) (storage : DataStorage)
    (h : store) (tickets : list ref)
    : option (EngineerAssignmentEngine * DataStorage * store * list ref) :=
  let triaged := batch_triage backend triage_agent h tickets in
  match assign_tickets assignment_engine triaged.1 triaged.2
                       (6 # 10) (4 # 10) false false with
  | None => None
  | Some (engine', h2, assigned_tickets) =>
      let storage1 := save_tickets storage (map (deref h2) assigned_tickets) in
      let triage_method :=
        match assigned_tickets with
        | t :: _ => dict_get (deref h2 t) "triage_method" "Unknown"
        | [] => "None"
        end in
      Some (engine',
            append_log storage1
              {| action := "triage_and_assign";
                 tickets_processed := length assigned_tickets;
                 method := triage_method |},
            h2, assigned_tickets)
  end.

End Dashboard.

(** ** Vocabulary of the statements *)

(** [head_char s] and [last_char s]: the first and the last character. *)
Definition head_char (s : string) : option ascii :=
  match s with
  | EmptyString => None
  | String c _ => Some c
  end.

Fixpoint last_char (s : string) : option ascii :=
  match s with
  | EmptyString => None
  | String c EmptyString => Some c
  | String _ t => last_char t
  end.

Fixpoint comma_free (s : string) : bool :=
  match s with
  | EmptyString => true
  | String c t => negb (Ascii.eqb c ",") && comma_free t
  end.

(** A skill token that each of the three input shapes can carry: it is not
    empty, holds no comma, neither starts nor ends with white space or a
    quote, and does not start with an opening bracket. *)
Definition skill_token (t : string) : bool :=
  match head_char t, last_char t with
  | Some a, Some b =>
      negb (PyStr.is_space a || PyStr.is_quote a || Ascii.eqb a "[") &&
      negb (PyStr.is_space b || PyStr.is_quote b) && comma_free t
  | _, _ => false
  end.

(** [all_chars p s]: every character of [s] satisfies [p]. *)
Fixpoint all_chars (p : ascii -> bool) (s : string) : bool :=
  match s with
  | EmptyString => true
  | String c t => p c && all_chars p t
  end.

(** An element of the list shape that carries the token [t]: the token
    between white space. *)
Definition padded (x t : string) : Prop :=
  exists w1 w2,
    all_chars PyStr.is_space w1 = true /\ all_chars PyStr.is_space w2 = true /\
    x = w1 +:+ t +:+ w2.

(** A piece of the two string shapes that carries the token [t]: the token
    between quotes, and these between white space. *)
Definition quoted (p t : string) : Prop :=
  exists w1 q1 q2 w2,
    all_chars PyStr.is_space w1 = true /\ all_chars PyStr.is_quote q1 = true /\
    all_chars PyStr.is_quote q2 = true /\ all_chars PyStr.is_space w2 = true /\
    p = w1 +:+ q1 +:+ t +:+ q2 +:+ w2.

(** [sum(workload.values())] *)
Definition workload_sum (w : gmap string Z) : Z :=
  map_fold (fun _ v acc => (v + acc)%Z) 0%Z w.

(** Every engineer of the roster has a workload counter, as after
    [__init__] and [reset_workload]. *)
Definition counters_ok (self : Engine.EngineerAssignmentEngine) : Prop :=
  Forall (fun e => is_Some (Engine.workload self !! Engine.name e))
         (Engine.engineers self).

(** The identifier [assign_ticket] keeps for the audit log:
    [ticket.get("number") or ticket.get("key") or "Unknown"]. *)
Definition ticket_id_of (d : ticket) : string :=
  Engine.get_or (d !! "number") (Engine.get_or (d !! "key") "Unknown").

(** No engineer of the roster holds more tickets than [max_workload]. *)
Definition within_capacity (self : Engine.EngineerAssignmentEngine) : Prop :=
  Forall (fun e => (Engine.current_load (Engine.workload self) (Engine.name e)
                    <= default 5 (Engine.max_workload e))%Z)
         (Engine.engineers self).

(** No workload counter is negative. *)
Definition counters_nonneg (w : gmap string Z) : Prop :=
  forall n c, w !! n = Some c -> (0 <= c)%Z.

(** The five fields the classifiers write. *)
Definition enrichment_keys : list string :=
  ["ai_category"; "ai_priority"; "ai_skills"; "ai_summary"; "triage_method"].

Definition enriched (d : ticket) : Prop :=
  Forall (fun k => is_Some (d !! k)) enrichment_keys.

(** ** Scenarios *)

Definition ticket_with_priority (p : string) : ticket :=
  {[ "ai_priority" := p; "ai_skills" := "Network" ]}.

(** Four tickets: Low, High, a priority outside the three tiers, High. *)
Definition mixed_batch : store :=
  {[ 0 := ticket_with_priority "Low"; 1 := ticket_with_priority "High";
     2 := ticket_with_priority "Urgent"; 3 := ticket_with_priority "High" ]}.

(** Two engineers with room for one ticket each, both skilled for the
    tickets of the scenario. *)
Definition engineer_A : Engine.Engineer :=
  {| Engine.name := "A"; Engine.skills := Some ["Network"; "Security"];
     Engine.availability := Some "available"; Engine.max_workload := Some 1%Z |}.

Definition engineer_B : Engine.Engineer :=
  {| Engine.name := "B"; Engine.skills := Some ["Network"; "Security"];
     Engine.availability := Some "available"; Engine.max_workload := Some 1%Z |}.

(** An engineer whose [name] is the empty string. *)
Definition engineer_unnamed : Engine.Engineer :=
  {| Engine.name := ""; Engine.skills := Some ["Network"];
     Engine.availability := Some "available"; Engine.max_workload := Some 5%Z |}.

Definition network_ticket (number : string) : ticket :=
  {[ "number" := number; "ai_priority" := "High";
     "ai_skills" := "Network, Security" ]}.

(** The engine of the capacity scenario once A and B hold one ticket each. *)
Definition engine_full : Engine.EngineerAssignmentEngine :=
  {| Engine.engineers := [engineer_A; engineer_B];
     Engine.workload := {[ "A" := 1%Z; "B" := 1%Z ]};
     Engine.storage := []; Engine.current_ticket_id := Some "INC2" |}.


(** * Properties *)

Import PyStr.

(** ** Strings *)

Lemma append_nil_l (s : string) : "" +:+ s = s.
Proof. reflexivity. Qed.

Lemma append_cons (c : ascii) (a s : string) :
  String c a +:+ s = String c (a +:+ s).
Proof. reflexivity. Qed.

Lemma append_nil_r (s : string) : s +:+ "" = s.
Proof. induction s as [|c s IH]; [done|]. by rewrite append_cons, IH. Qed.

Lemma append_assoc (a b c : string) : (a +:+ b) +:+ c = a +:+ (b +:+ c).
Proof.
  induction a as [|x a IH]; [done|]. by rewrite !append_cons, IH.
Qed.

Lemma prefix_spec (kw text : string) :
  is_prefix kw text = true <-> exists b, text = kw +:+ b.
Proof.
  revert text. induction kw as [|c kw IH]; intros text; simpl.
  - split; [intros _; exists text; reflexivity|reflexivity].
  - destruct text as [|d text].
    + split; [done|]. intros [b Hb]. rewrite append_cons in Hb. done.
    + rewrite andb_true_iff, Ascii.eqb_eq, IH. split.
      * intros [-> [b ->]]. exists b. by rewrite append_cons.
      * intros [b Hb]. rewrite append_cons in Hb. injection Hb as -> ->.
        split; [done|by exists b].
Qed.

(** [kw in text] holds exactly when [kw] occurs in [text] as a substring. *)
Lemma contains_spec (kw text : string) :
  contains kw text = true <-> exists a b, text = a +:+ kw +:+ b.
Proof.
  induction text as [|d text IH]; simpl.
  - rewrite orb_false_r, prefix_spec. split.
    + intros [b Hb]. by exists "", b.
    + intros [a [b Hab]]. destruct a as [|x a].
      * by exists b.
      * rewrite append_cons in Hab. done.
  - rewrite orb_true_iff, prefix_spec, IH. split.
    + intros [[b Hb]|[a [b Hab]]].
      * by exists "", b.
      * exists (String d a), b. rewrite append_cons. by f_equal.
    + intros [a [b Hab]]. destruct a as [|x a].
      * left. by exists b.
      * right. rewrite append_cons in Hab. injection Hab as _ Hab.
        by exists a, b.
Qed.

(** ** The rule-based classifier *)

Import Triage.

Lemma category_table_order : map fst CATEGORY_KEYWORDS = CATEGORIES.
Proof. reflexivity. Qed.

Lemma priority_table_order :
  map fst PRIORITY_KEYWORDS = ["High"; "Medium"; "Low"].
Proof. reflexivity. Qed.

(** What the category loop has computed when it leaves a table, started on
    the pair [acc]: the count kept is an upper bound of every count seen, and
    the category kept is either the initial one (no count exceeded the
    initial count) or that of the first entry reaching the final count. *)
Lemma category_loop_from (text : string) (table : list (string * list string))
    (acc : string * nat) :
  let res := fold_left (category_step text) table acc in
  (forall j e, table !! j = Some e -> count_matches e.2 text <= res.2) /\
  ((res = acc /\ forall j e, table !! j = Some e -> count_matches e.2 text <= acc.2) \/
   (exists i e, table !! i = Some e /\ res = (e.1, count_matches e.2 text) /\
      acc.2 < count_matches e.2 text /\
      forall j e', j < i -> table !! j = Some e' ->
        count_matches e'.2 text < count_matches e.2 text)).
Proof.
  revert acc. induction table as [|x table IH]; intros acc; simpl.
  - split; [intros j e Hj; done|]. left. split; [done|]. intros j e Hj. done.
  - destruct (IH (category_step text acc x)) as [Hub Hcase].
    assert (Hmono : forall tb a, a.2 <= (fold_left (category_step text) tb a).2).
    { clear. induction tb as [|y tb IHtb]; intros a; simpl; [done|].
      etrans; [|apply IHtb]. unfold category_step.
      destruct (a.2 <? count_matches y.2 text) eqn:E; simpl; [|done].
      apply Nat.ltb_lt in E. lia. }
    assert (Hstep : count_matches x.2 text <= (category_step text acc x).2).
    { unfold category_step.
      destruct (acc.2 <? count_matches x.2 text) eqn:E; simpl; [done|].
      apply Nat.ltb_ge in E. done. }
    split.
    + intros [|j] e Hj; simpl in Hj.
      * injection Hj as <-. etrans; [apply Hstep|apply Hmono].
      * by eapply Hub.
    + unfold category_step in Hcase, Hstep |- *.
      destruct (acc.2 <? count_matches x.2 text) eqn:E; simpl in *.
      * apply Nat.ltb_lt in E. right.
        destruct Hcase as [[Heq Hall]|(i & e & Hi & Hres & Hlt & Hfirst)].
        -- exists 0, x. simpl. repeat split; [done|done|].
           intros j e' Hj. lia.
        -- exists (S i), e. simpl. repeat split; [done|done|lia|].
           intros [|j] e' Hj Hl; simpl in Hl.
           ++ injection Hl as <-. done.
           ++ apply (Hfirst j); [lia|done].
      * apply Nat.ltb_ge in E.
        destruct Hcase as [[Heq Hall]|(i & e & Hi & Hres & Hlt & Hfirst)].
        -- left. split; [done|]. intros [|j] e Hj; simpl in Hj.
           ++ by injection Hj as <-.
           ++ by eapply Hall.
        -- right. exists (S i), e. simpl. repeat split; [done|done|done|].
           intros [|j] e' Hj Hl; simpl in Hl.
           ++ injection Hl as <-. lia.
           ++ apply (Hfirst j); [lia|done].
Qed.

(** The category of a text over an ordered keyword table. *)
Lemma category_loop_spec (text : string) (table : list (string * list string)) :
  let c := (category_loop table text).1 in
  (c = "Other" /\ forall j e, table !! j = Some e -> count_matches e.2 text = 0) \/
  (exists i kws, table !! i = Some (c, kws) /\ 0 < count_matches kws text /\
     (forall j e, table !! j = Some e ->
        count_matches e.2 text <= count_matches kws text) /\
     (forall j e, j < i -> table !! j = Some e ->
        count_matches e.2 text < count_matches kws text)).
Proof.
  unfold category_loop.
  destruct (category_loop_from text table ("Other", 0)) as [Hub Hcase].
  destruct Hcase as [[Heq Hall]|(i & [c kws] & Hi & Hres & Hlt & Hfirst)].
  - left. rewrite Heq. split; [done|]. intros j e Hj.
    specialize (Hall j e Hj). simpl in Hall. lia.
  - right. rewrite Hres in Hub |- *. simpl in *. exists i, kws.
    repeat split; [done|lia|done|done].
Qed.

(** [count_matches] counts the keywords that occur in the text. *)
Lemma count_matches_filter (keywords : list string) (text : string) :
  count_matches keywords text
  = length (List.filter (fun kw => contains kw text) keywords).
Proof.
  induction keywords as [|kw r IH]; simpl; [done|].
  rewrite IH. by destruct (contains kw text).
Qed.

Lemma any_match_spec (keywords : list string) (text : string) :
  any_match keywords text = true <->
  exists kw a b, kw ∈ keywords /\ text = a +:+ kw +:+ b.
Proof.
  unfold any_match. rewrite existsb_exists. split.
  - intros (kw & Hin & Hc). apply contains_spec in Hc as (a & b & Hab).
    exists kw, a, b. split; [by apply list_elem_of_In|done].
  - intros (kw & a & b & Hin & Hab). exists kw.
    split; [by apply list_elem_of_In|]. apply contains_spec. eauto.
Qed.

Lemma priority_loop_spec (text : string) (tiers : list (string * list string)) :
  let p := priority_loop tiers text in
  (p = "Medium" /\ forall j e, tiers !! j = Some e -> any_match e.2 text = false) \/
  (exists i kws, tiers !! i = Some (p, kws) /\ any_match kws text = true /\
     forall j e, j < i -> tiers !! j = Some e -> any_match e.2 text = false).
Proof.
  induction tiers as [|[pri kws] tiers IH]; simpl.
  - left. split; [done|]. intros j e Hj. done.
  - destruct (any_match kws text) eqn:E.
    + right. exists 0, kws. simpl. repeat split; [done|]. intros j e Hj. lia.
    + destruct IH as [[Hp Hall]|(i & kws' & Hi & Hm & Hfirst)].
      * left. split; [done|]. intros [|j] e Hj; simpl in Hj.
        -- by injection Hj as <-.
        -- by eapply Hall.
      * right. exists (S i), kws'. simpl. repeat split; [done|done|].
        intros [|j] e Hj Hl; simpl in Hl.
        -- by injection Hl as <-.
        -- apply (Hfirst j); [lia|done].
Qed.

(** ** The store *)

Lemma deref_setitem_eq (h : store) (r : ref) (k v : string) :
  deref (setitem h r k v) r = <[k := v]> (deref h r).
Proof. unfold setitem, deref. by rewrite lookup_total_insert_eq. Qed.

Lemma deref_setitem_ne (h : store) (r r' : ref) (k v : string) :
  r ≠ r' -> deref (setitem h r k v) r' = deref h r'.
Proof. intros Hne. unfold setitem, deref. by rewrite lookup_total_insert_ne. Qed.

Lemma lookup_setitem_ne (h : store) (r r' : ref) (k v : string) :
  r ≠ r' -> setitem h r k v !! r' = h !! r'.
Proof. intros Hne. unfold setitem. by rewrite lookup_insert_ne. Qed.

(** The record behind the ticket after [_triage_with_mock]: five item
    assignments on the record that was there. *)
Lemma triage_with_mock_record (h : store) (t : ref) (summary description : string) :
  deref (_triage_with_mock h t summary description).1 t
  = <["triage_method" := "Mock Rule-Based"]>
      (<["ai_summary" := mock_summary summary description]>
        (<["ai_skills" := mock_skills summary description]>
          (<["ai_priority" := mock_priority summary description]>
            (<["ai_category" := mock_category summary description]>
              (deref h t))))).
Proof. unfold _triage_with_mock. simpl. by rewrite !deref_setitem_eq. Qed.

Lemma any_match_false (keywords : list string) (text : string) :
  any_match keywords text = false <->
  forall kw, kw ∈ keywords -> contains kw text = false.
Proof.
  unfold any_match. split.
  - intros H kw Hin. apply not_true_is_false. intros Hc.
    assert (existsb (fun kw => contains kw text) keywords = true) as E; [|congruence].
    apply existsb_exists. exists kw. split; [by apply list_elem_of_In|done].
  - intros H. apply not_true_is_false. intros E.
    apply existsb_exists in E as (kw & Hin & Hc).
    apply list_elem_of_In in Hin. rewrite (H kw Hin) in Hc. done.
Qed.

(** C3. The rule-based classifier writes as [ai_category] the first category,
    in the fixed taxonomy order, whose number of keywords occurring in the
    lowercased title-and-description text is the largest (strictly larger
    than the count of every earlier category), and writes "Other" when no
    keyword of any category occurs. *)
Theorem C3_category_first_strict_maximum (h : store) (t : ref)
    (summary description : string) :
  let text := lower (summary +:+ " " +:+ description) in
  let count := fun kws => length (List.filter (fun kw => contains kw text) kws) in
  exists c,
    deref (_triage_with_mock h t summary description).1 t !! "ai_category" = Some c /\
    map fst CATEGORY_KEYWORDS = CATEGORIES /\
    ((c = "Other" /\
      forall j cat kws, CATEGORY_KEYWORDS !! j = Some (cat, kws) -> count kws = 0) \/
     (exists i kws, CATEGORY_KEYWORDS !! i = Some (c, kws) /\ 0 < count kws /\
        (forall j cat' kws', CATEGORY_KEYWORDS !! j = Some (cat', kws') ->
           count kws' <= count kws) /\
        (forall j cat' kws', j < i -> CATEGORY_KEYWORDS !! j = Some (cat', kws') ->
           count kws' < count kws))).
Proof.
  intros text count. exists (mock_category summary description).
  split; [|split; [reflexivity|]].
  - rewrite triage_with_mock_record.
    by rewrite !lookup_insert_ne, lookup_insert_eq by done.
  - unfold mock_category, combined_text. fold text.
    assert (Hc : forall kws, count_matches kws text = count kws)
      by (intros kws; apply count_matches_filter).
    destruct (category_loop_spec text CATEGORY_KEYWORDS)
      as [[Hother Hall]|(i & kws & Hi & Hpos & Hub & Hfirst)].
    + left. split; [done|]. intros j cat kws Hj. rewrite <- Hc.
      apply (Hall j _ Hj).
    + right. exists i, kws. rewrite <- !Hc. repeat split; [done|done| |].
      * intros j cat' kws' Hj. rewrite <- !Hc. apply (Hub j _ Hj).
      * intros j cat' kws' Hl Hj. rewrite <- !Hc. apply (Hfirst j _ Hl Hj).
Qed.

(** C9. The rule-based classifier writes as [ai_priority] the first tier, in
    the order High, Medium, Low, one of whose keywords occurs in the
    lowercased text, and "Medium" when no keyword of any tier occurs. *)
Theorem C9_priority_first_matching_tier (h : store) (t : ref)
    (summary description : string) :
  let text := lower (summary +:+ " " +:+ description) in
  exists p,
    deref (_triage_with_mock h t summary description).1 t !! "ai_priority" = Some p /\
    map fst PRIORITY_KEYWORDS = ["High"; "Medium"; "Low"] /\
    ((p = "Medium" /\
      forall j tier kws kw, PRIORITY_KEYWORDS !! j = Some (tier, kws) ->
        kw ∈ kws -> contains kw text = false) \/
     (exists i kws, PRIORITY_KEYWORDS !! i = Some (p, kws) /\
        (exists kw, kw ∈ kws /\ contains kw text = true) /\
        forall j tier' kws' kw, j < i -> PRIORITY_KEYWORDS !! j = Some (tier', kws') ->
          kw ∈ kws' -> contains kw text = false)).
Proof.
  intros text. exists (mock_priority summary description).
  split; [|split; [reflexivity|]].
  - rewrite triage_with_mock_record.
    by rewrite !lookup_insert_ne, lookup_insert_eq by done.
  - unfold mock_priority, combined_text. fold text.
    destruct (priority_loop_spec text PRIORITY_KEYWORDS)
      as [[Hmed Hall]|(i & kws & Hi & Hm & Hfirst)].
    + left. split; [done|]. intros j tier kws kw Hj Hin.
      specialize (Hall j _ Hj). simpl in Hall.
      by apply (proj1 (any_match_false kws text)).
    + right. exists i, kws. repeat split; [done| |].
      * unfold any_match in Hm. apply existsb_exists in Hm as (kw & Hin & Hc).
        exists kw. split; [by apply list_elem_of_In|done].
      * intros j tier' kws' kw Hl Hj Hin. specialize (Hfirst j _ Hl Hj).
        simpl in Hfirst. by apply (proj1 (any_match_false kws' text)).
Qed.

(** C10. Rule-based classification works on the record it is given: the
    reference returned is the reference passed in, the five enrichment keys
    are set on that record, every other key of it keeps its value, and no
    other record of the store changes. [triage_ticket] of an agent without
    the remote backend is this classification, on the title and description
    read from the record. *)
Theorem C10_mock_triage_in_place (h : store) (t : ref)
    (summary description : string)
    (backend : string -> string -> option llm_reply) (flag : bool) :
  let enrichment : gset string :=
    {["ai_category"; "ai_priority"; "ai_skills"; "ai_summary"; "triage_method"]} in
  let res := _triage_with_mock h t summary description in
  res.2 = t /\
  (forall k, k ∈ enrichment -> is_Some (deref res.1 t !! k)) /\
  (forall k, k ∉ enrichment -> deref res.1 t !! k = deref h t !! k) /\
  dom (deref res.1 t) = dom (deref h t) ∪ enrichment /\
  (forall r, r ≠ t -> res.1 !! r = h !! r) /\
  triage_ticket backend {| use_openai := flag; openai_available := false |} h t
  = let d := deref h t in
    let title := if decide (d !! "source" = Some "ServiceNow")
                 then dict_get d "short_description" ""
                 else dict_get d "summary" "" in
    _triage_with_mock h t title (dict_get d "description" title).
Proof.
  intros enrichment res. split; [reflexivity|].
  pose proof (triage_with_mock_record h t summary description) as Hrec.
  fold res in Hrec. repeat split.
  - intros k Hk. rewrite Hrec. unfold enrichment in Hk.
    apply lookup_insert_is_Some. destruct (decide ("triage_method" = k)); [by left|right].
    split; [done|]. apply lookup_insert_is_Some.
    destruct (decide ("ai_summary" = k)); [by left|right].
    split; [done|]. apply lookup_insert_is_Some.
    destruct (decide ("ai_skills" = k)); [by left|right].
    split; [done|]. apply lookup_insert_is_Some.
    destruct (decide ("ai_priority" = k)); [by left|right].
    split; [done|]. apply lookup_insert_is_Some.
    destruct (decide ("ai_category" = k)); [by left|]. exfalso.
    rewrite !elem_of_union, !elem_of_singleton in Hk. intuition congruence.
  - intros k Hk. rewrite Hrec. unfold enrichment in Hk.
    rewrite !not_elem_of_union, !not_elem_of_singleton in Hk.
    rewrite !lookup_insert_ne; [done|intuition congruence..].
  - rewrite Hrec, !dom_insert_L. unfold enrichment. apply set_eq. intros k.
    rewrite !elem_of_union, !elem_of_singleton. tauto.
  - intros r Hne. unfold res, _triage_with_mock. simpl.
    by rewrite !lookup_setitem_ne.
Qed.

(** ** Stripping, splitting and joining *)

Lemma lstrip_keep (p : ascii -> bool) (s : string) (a : ascii) :
  head_char s = Some a -> p a = false -> lstrip p s = s.
Proof. destruct s as [|c s]; simpl; [done|]. intros [= ->] ->. done. Qed.

Lemma rstrip_keep (p : ascii -> bool) (s : string) (b : ascii) :
  last_char s = Some b -> p b = false -> rstrip p s = s.
Proof.
  induction s as [|c s IH]; simpl; [done|]. intros Hl Hp.
  destruct s as [|d s].
  - injection Hl as ->. simpl. by rewrite Hp.
  - rewrite (IH Hl Hp). done.
Qed.

Lemma strip_with_keep (p : ascii -> bool) (s : string) (a b : ascii) :
  head_char s = Some a -> last_char s = Some b ->
  p a = false -> p b = false -> strip_with p s = s.
Proof.
  intros Ha Hb Hpa Hpb. unfold strip_with.
  rewrite (lstrip_keep p s a Ha Hpa). by apply (rstrip_keep p s b).
Qed.

Lemma head_char_app (s1 s2 : string) :
  s1 ≠ "" -> head_char (s1 +:+ s2) = head_char s1.
Proof. destruct s1; [done|]. by rewrite append_cons. Qed.

Lemma last_char_app (s1 s2 : string) :
  s2 ≠ "" -> last_char (s1 +:+ s2) = last_char s2.
Proof.
  intros Hne. induction s1 as [|c s1 IH]; [done|].
  rewrite append_cons. simpl. rewrite IH.
  destruct (s1 +:+ s2) eqn:E; [|done].
  destruct s1; [by rewrite append_nil_l in E|by rewrite append_cons in E].
Qed.

Lemma split_comma_nonnil (s : string) : split_comma s ≠ [].
Proof.
  induction s as [|c s IH]; simpl; [done|].
  destruct (Ascii.eqb c ","); [done|]. by destruct (split_comma s).
Qed.

Lemma comma_free_app (s1 s2 : string) :
  comma_free (s1 +:+ s2) = comma_free s1 && comma_free s2.
Proof.
  induction s1 as [|c s1 IH]; [done|]. rewrite append_cons. simpl.
  rewrite IH. by rewrite andb_assoc.
Qed.

Lemma split_comma_free (s : string) :
  comma_free s = true -> split_comma s = [s].
Proof.
  induction s as [|c s IH]; simpl; [done|].
  intros [Hc Hs]%andb_true_iff. apply negb_true_iff in Hc. rewrite Hc.
  by rewrite (IH Hs).
Qed.

Lemma split_comma_app (s1 s2 : string) :
  comma_free s1 = true ->
  split_comma (s1 +:+ String "," s2) = s1 :: split_comma s2.
Proof.
  induction s1 as [|c s1 IH]; [done|]. rewrite append_cons. simpl.
  intros [Hc Hs]%andb_true_iff. apply negb_true_iff in Hc. rewrite Hc.
  by rewrite (IH Hs).
Qed.

(** Splitting what [", ".join] built gives the tokens back, each but the
    first behind the space of the separator. *)
Lemma split_comma_join (pre t : string) (r : list string) :
  comma_free pre = true -> comma_free t = true ->
  Forall (fun x => comma_free x = true) r ->
  split_comma (pre +:+ join ", " (t :: r)) = (pre +:+ t) :: map (String " ") r.
Proof.
  revert pre t. induction r as [|t2 r IH]; intros pre t Hpre Ht Hr.
  - simpl. apply split_comma_free. by rewrite comma_free_app, Hpre, Ht.
  - apply Forall_cons in Hr as [Ht2 Hr].
    change (join ", " (t :: t2 :: r)) with (t +:+ ", " +:+ join ", " (t2 :: r)).
    rewrite <- append_assoc.
    change (", " +:+ join ", " (t2 :: r))
      with (String "," (" " +:+ join ", " (t2 :: r))).
    rewrite split_comma_app by (by rewrite comma_free_app, Hpre, Ht).
    rewrite (IH " " t2 eq_refl Ht2 Hr). done.
Qed.

Lemma ends_with_char_snoc (a : ascii) (s : string) :
  ends_with_char a (s +:+ String a "") = true.
Proof.
  induction s as [|c s IH]; [apply Ascii.eqb_refl|].
  rewrite append_cons. simpl. rewrite IH.
  destruct (s +:+ String a "") eqn:E; [|done].
  destruct s; [by rewrite append_nil_l in E|by rewrite append_cons in E].
Qed.

Lemma drop_last_snoc (a : ascii) (s : string) :
  drop_last (s +:+ String a "") = s.
Proof.
  induction s as [|c s IH]; [done|]. rewrite append_cons. simpl. rewrite IH.
  destruct (s +:+ String a "") eqn:E; [|done].
  destruct s; [by rewrite append_nil_l in E|by rewrite append_cons in E].
Qed.

(** ** Skill tokens *)

Lemma skill_token_inv (t : string) :
  skill_token t = true ->
  exists a b, head_char t = Some a /\ last_char t = Some b /\
    is_space a = false /\ is_quote a = false /\ Ascii.eqb a "[" = false /\
    is_space b = false /\ is_quote b = false /\ comma_free t = true.
Proof.
  unfold skill_token. destruct (head_char t) as [a|]; [|done].
  destruct (last_char t) as [b|]; [|done].
  rewrite !andb_true_iff, !negb_true_iff, !orb_false_iff.
  intros [[[[? ?] ?] [? ?]] ?]. exists a, b. done.
Qed.

Lemma skill_token_strip (t : string) : skill_token t = true -> strip t = t.
Proof.
  intros (a & b & Ha & Hb & ? & ? & ? & ? & ? & ?)%skill_token_inv.
  by apply (strip_with_keep is_space t a b).
Qed.

Lemma skill_token_strip_quotes (t : string) :
  skill_token t = true -> strip_quotes t = t.
Proof.
  intros (a & b & Ha & Hb & ? & ? & ? & ? & ? & ?)%skill_token_inv.
  by apply (strip_with_keep is_quote t a b).
Qed.

Lemma skill_token_truthy (t : string) : skill_token t = true -> truthy t = true.
Proof. intros (a & b & Ha & _)%skill_token_inv. by destruct t. Qed.

Lemma skill_token_strip_space (t : string) :
  skill_token t = true -> strip (String " " t) = t.
Proof. intros Ht. unfold strip, strip_with. simpl. by apply skill_token_strip. Qed.

Lemma skill_token_comma_free (t : string) :
  skill_token t = true -> comma_free t = true.
Proof. intros (a & b & ? & ? & ? & ? & ? & ? & ? & ?)%skill_token_inv. done. Qed.

Lemma starts_with_head (c a : ascii) (s : string) :
  head_char s = Some a -> starts_with_char c s = Ascii.eqb a c.
Proof. destruct s; simpl; [done|]. by intros [= ->]. Qed.

Lemma join_head (t : string) (r : list string) :
  t ≠ "" -> head_char (join ", " (t :: r)) = head_char t.
Proof.
  intros Hne. destruct r as [|t2 r]; [done|].
  change (join ", " (t :: t2 :: r)) with (t +:+ ", " +:+ join ", " (t2 :: r)).
  by apply head_char_app.
Qed.

Lemma join_last (t : string) (r : list string) :
  Forall (fun x => skill_token x = true) (t :: r) ->
  exists b, last_char (join ", " (t :: r)) = Some b /\ is_space b = false.
Proof.
  revert t. induction r as [|t2 r IH]; intros t Hts.
  - apply Forall_cons in Hts as [Ht _].
    apply skill_token_inv in Ht as (a & b & _ & Hb & _ & _ & _ & Hsb & _).
    exists b. done.
  - apply Forall_cons in Hts as [_ Hr].
    destruct (IH t2 Hr) as (b & Hb & Hsb). exists b. split; [|done].
    change (join ", " (t :: t2 :: r)) with (t +:+ ", " +:+ join ", " (t2 :: r)).
    assert (Hne : join ", " (t2 :: r) ≠ "") by (intros E; by rewrite E in Hb).
    rewrite last_char_app.
    + by rewrite last_char_app.
    + done.
Qed.

Lemma pieces_clean (r : list string) :
  Forall (fun x => skill_token x = true) r ->
  map (fun p => strip_quotes (strip p))
      (List.filter (fun p => truthy (strip p)) (map (String " ") r)) = r.
Proof.
  induction 1 as [|t r Ht Hr IH]; simpl; [done|].
  rewrite (skill_token_strip_space t Ht), (skill_token_truthy t Ht). simpl.
  rewrite (skill_token_strip_space t Ht), (skill_token_strip_quotes t Ht).
  by rewrite IH.
Qed.

(** The tokens read back from the comma-joined text. *)
Lemma parts_of_join (ts : list string) :
  Forall (fun x => skill_token x = true) ts ->
  map (fun p => strip_quotes (strip p))
      (List.filter (fun p => truthy (strip p)) (split_comma (join ", " ts))) = ts.
Proof.
  intros Hts. destruct ts as [|t r]; [done|].
  pose proof Hts as [Ht Hr]%Forall_cons.
  rewrite <- (append_nil_l (join ", " (t :: r))).
  rewrite split_comma_join; [|done|by apply skill_token_comma_free|].
  - rewrite append_nil_l. simpl.
    rewrite (skill_token_strip t Ht), (skill_token_truthy t Ht). simpl.
    rewrite (skill_token_strip t Ht), (skill_token_strip_quotes t Ht).
    by rewrite pieces_clean.
  - eapply Forall_impl; [apply Hr|]. intros x. apply skill_token_comma_free.
Qed.

Lemma tokens_truthy (ts : list string) :
  Forall (fun x => skill_token x = true) ts -> List.filter truthy ts = ts.
Proof.
  induction 1 as [|t r Ht Hr IH]; simpl; [done|].
  by rewrite (skill_token_truthy t Ht), IH.
Qed.

Lemma tokens_clean (ts : list string) :
  Forall (fun x => skill_token x = true) ts ->
  map Engine.clean ts = map lower ts.
Proof.
  induction 1 as [|t r Ht Hr IH]; simpl; [done|].
  unfold Engine.clean at 1. by rewrite (skill_token_strip t Ht), IH.
Qed.

Import Engine.

Lemma required_of_list_tokens (ts : list string) :
  Forall (fun x => skill_token x = true) ts ->
  required_skills_set (SkList ts) = list_to_set (map lower ts).
Proof.
  intros Hts. simpl. by rewrite (tokens_truthy ts Hts), (tokens_clean ts Hts).
Qed.

Lemma required_of_comma_string (t : string) (r : list string) :
  Forall (fun x => skill_token x = true) (t :: r) ->
  required_of_string (join ", " (t :: r)) = list_to_set (map lower (t :: r)).
Proof.
  intros Hts. pose proof Hts as [Ht Hr]%Forall_cons.
  destruct (skill_token_inv t Ht) as (a & b & Ha & _ & Hsa & _ & Hba & _).
  destruct (join_last t r Hts) as (z & Hz & Hsz).
  assert (Hhead : head_char (join ", " (t :: r)) = Some a).
  { rewrite join_head; [done|]. intros E. by rewrite E in Ha. }
  unfold required_of_string.
  change (strip (join ", " (t :: r))) with (strip_with is_space (join ", " (t :: r))).
  rewrite (strip_with_keep is_space _ a z Hhead Hz Hsa Hsz).
  rewrite (starts_with_head "[" a _ Hhead), Hba. simpl andb. cbv iota.
  by rewrite (parts_of_join (t :: r) Hts), (tokens_truthy (t :: r) Hts).
Qed.

(** ** Padded and quoted tokens *)

Lemma is_quote_inv (c : ascii) :
  is_quote c = true ->
  is_space c = false /\ Ascii.eqb c "[" = false /\ Ascii.eqb c "," = false.
Proof. destruct c as [[] [] [] [] [] [] [] []]; vm_compute; intuition congruence. Qed.

Lemma is_space_not_comma (c : ascii) :
  is_space c = true -> Ascii.eqb c "," = false.
Proof. destruct c as [[] [] [] [] [] [] [] []]; vm_compute; congruence. Qed.

Lemma all_chars_comma_free (p : ascii -> bool) (s : string) :
  (forall c, p c = true -> Ascii.eqb c "," = false) ->
  all_chars p s = true -> comma_free s = true.
Proof.
  intros Hp. induction s as [|c s IH]; simpl; [done|].
  intros [Hc Hs]%andb_true_iff. by rewrite (Hp c Hc), (IH Hs).
Qed.

Lemma truthy_app_l (a b : string) : truthy a = true -> truthy (a +:+ b) = true.
Proof. destruct a; [done|]. by rewrite append_cons. Qed.

Lemma truthy_app_r (a b : string) : truthy b = true -> truthy (a +:+ b) = true.
Proof. destruct a; [by rewrite append_nil_l|]. by rewrite append_cons. Qed.

Lemma truthy_nonempty (s : string) : truthy s = true <-> s ≠ "".
Proof. by destruct s. Qed.

Lemma lstrip_all (p : ascii -> bool) (w s : string) :
  all_chars p w = true -> lstrip p (w +:+ s) = lstrip p s.
Proof.
  induction w as [|c w IH]; [done|]. rewrite append_cons. simpl.
  intros [Hc Hw]%andb_true_iff. rewrite Hc. by apply IH.
Qed.

Lemma rstrip_all_nil (p : ascii -> bool) (w : string) :
  all_chars p w = true -> rstrip p w = "".
Proof.
  induction w as [|c w IH]; simpl; [done|].
  intros [Hc Hw]%andb_true_iff. rewrite (IH Hw). simpl. by rewrite Hc.
Qed.

Lemma rstrip_all (p : ascii -> bool) (s w : string) :
  all_chars p w = true -> rstrip p (s +:+ w) = rstrip p s.
Proof.
  intros Hw. induction s as [|c s IH].
  - rewrite append_nil_l. by apply rstrip_all_nil.
  - rewrite append_cons. simpl. by rewrite IH.
Qed.

Lemma last_char_some (s : string) : s ≠ "" -> exists b, last_char s = Some b.
Proof.
  induction s as [|c s IH]; [done|]. intros _. destruct s as [|d s].
  - by exists c.
  - destruct IH as [b Hb]; [done|]. by exists b.
Qed.

Lemma last_char_all (p : ascii -> bool) (s : string) (b : ascii) :
  all_chars p s = true -> last_char s = Some b -> p b = true.
Proof.
  induction s as [|c s IH]; [done|]. intros [Hc Hs]%andb_true_iff.
  destruct s as [|d s].
  - by intros [= <-].
  - intros Hl. by apply IH.
Qed.

(** Stripping removes exactly the padding. *)
Lemma strip_with_padded (p : ascii -> bool) (w1 u w2 : string) (a b : ascii) :
  all_chars p w1 = true -> all_chars p w2 = true ->
  head_char u = Some a -> last_char u = Some b -> p a = false -> p b = false ->
  strip_with p (w1 +:+ u +:+ w2) = u.
Proof.
  intros Hw1 Hw2 Ha Hb Hpa Hpb. unfold strip_with.
  assert (Hne : u ≠ "") by (intros E; by rewrite E in Ha).
  rewrite (lstrip_all p w1 _ Hw1).
  rewrite (lstrip_keep p (u +:+ w2) a); [|by rewrite head_char_app|done].
  rewrite (rstrip_all p u w2 Hw2). by apply (rstrip_keep p u b).
Qed.

Lemma rstrip_head (p : ascii -> bool) (s : string) (a : ascii) :
  head_char s = Some a -> p a = false -> head_char (rstrip p s) = Some a.
Proof.
  destruct s as [|c s]; [done|]. intros [= ->] Hp. simpl.
  by rewrite Hp, andb_false_r.
Qed.

Lemma lstrip_app_nonempty (p : ascii -> bool) (a b : string) :
  lstrip p a ≠ "" -> lstrip p (a +:+ b) = lstrip p a +:+ b.
Proof.
  induction a as [|c a IH]; [done|]. rewrite append_cons. simpl.
  destruct (p c); [exact IH|]. by rewrite append_cons.
Qed.

Lemma rstrip_app_nonempty (p : ascii -> bool) (a b : string) :
  rstrip p b ≠ "" -> rstrip p (a +:+ b) = a +:+ rstrip p b.
Proof.
  intros Hne. induction a as [|c a IH]; [by rewrite !append_nil_l|].
  rewrite !append_cons. simpl. rewrite IH.
  destruct (a +:+ rstrip p b) eqn:E; [|done].
  destruct a; [by rewrite append_nil_l in E|by rewrite append_cons in E].
Qed.

(** The token between its quotes: first and last character. *)
Lemma core_head (q1 t rest : string) :
  all_chars is_quote q1 = true -> skill_token t = true ->
  exists a, head_char (q1 +:+ t +:+ rest) = Some a /\
    is_space a = false /\ Ascii.eqb a "[" = false.
Proof.
  intros Hq (a & b & Ha & _ & Hsa & _ & Hba & _)%skill_token_inv.
  destruct q1 as [|c q1].
  - exists a. rewrite append_nil_l, head_char_app; [done|].
    intros E. by rewrite E in Ha.
  - apply andb_true_iff in Hq as [Hc _].
    destruct (is_quote_inv c Hc) as (? & ? & _). exists c. by rewrite append_cons.
Qed.

Lemma core_last (pre t q2 : string) :
  all_chars is_quote q2 = true -> skill_token t = true ->
  exists b, last_char (pre +:+ t +:+ q2) = Some b /\ is_space b = false.
Proof.
  intros Hq Ht. pose proof (skill_token_truthy t Ht) as Htr.
  destruct (skill_token_inv t Ht) as (a & b & _ & Hb & _ & _ & _ & Hsb & _).
  rewrite last_char_app by (apply truthy_nonempty; by apply truthy_app_l).
  destruct q2 as [|c q2].
  - exists b. by rewrite append_nil_r.
  - rewrite last_char_app by done.
    destruct (last_char_some (String c q2)) as [z Hz]; [done|].
    exists z. split; [done|].
    by destruct (is_quote_inv z (last_char_all is_quote _ z Hq Hz)).
Qed.

Lemma strip_quoted (w1 q1 t q2 w2 : string) :
  all_chars is_space w1 = true -> all_chars is_quote q1 = true ->
  all_chars is_quote q2 = true -> all_chars is_space w2 = true ->
  skill_token t = true ->
  strip (w1 +:+ q1 +:+ t +:+ q2 +:+ w2) = q1 +:+ t +:+ q2.
Proof.
  intros Hw1 Hq1 Hq2 Hw2 Ht.
  destruct (core_head q1 t q2 Hq1 Ht) as (a & Ha & Hsa & _).
  destruct (core_last q1 t q2 Hq2 Ht) as (b & Hb & Hsb).
  replace (q1 +:+ t +:+ q2 +:+ w2) with ((q1 +:+ t +:+ q2) +:+ w2)
    by (by rewrite !append_assoc).
  by apply (strip_with_padded is_space w1 _ w2 a b).
Qed.

Lemma strip_quotes_core (q1 t q2 : string) :
  all_chars is_quote q1 = true -> all_chars is_quote q2 = true ->
  skill_token t = true -> strip_quotes (q1 +:+ t +:+ q2) = t.
Proof.
  intros Hq1 Hq2 (a & b & Ha & Hb & _ & Hqa & _ & _ & Hqb & _)%skill_token_inv.
  by apply (strip_with_padded is_quote q1 t q2 a b).
Qed.

(** What the string branch reads from a quoted piece, and what the list
    branch reads from a padded element. *)
Lemma quoted_clean (p t : string) :
  skill_token t = true -> quoted p t ->
  truthy (strip p) = true /\ strip_quotes (strip p) = t /\ comma_free p = true.
Proof.
  intros Ht (w1 & q1 & q2 & w2 & Hw1 & Hq1 & Hq2 & Hw2 & ->).
  rewrite strip_quoted by done. split; [|split].
  - apply truthy_app_r, truthy_app_l. by apply skill_token_truthy.
  - by apply strip_quotes_core.
  - rewrite !comma_free_app.
    rewrite (all_chars_comma_free is_space w1 is_space_not_comma Hw1).
    rewrite (all_chars_comma_free is_space w2 is_space_not_comma Hw2).
    rewrite (all_chars_comma_free is_quote q1 (fun c H => proj2 (proj2 (is_quote_inv c H))) Hq1).
    rewrite (all_chars_comma_free is_quote q2 (fun c H => proj2 (proj2 (is_quote_inv c H))) Hq2).
    by rewrite (skill_token_comma_free t Ht).
Qed.

Lemma padded_clean (x t : string) :
  skill_token t = true -> padded x t -> truthy x = true /\ strip x = t.
Proof.
  intros Ht (w1 & w2 & Hw1 & Hw2 & ->). split.
  - apply truthy_app_r, truthy_app_l. by apply skill_token_truthy.
  - destruct (skill_token_inv t Ht) as (a & b & Ha & Hb & Hsa & _ & _ & Hsb & _).
    by apply (strip_with_padded is_space w1 t w2 a b).
Qed.

Lemma quoted_nonempty (p t : string) :
  skill_token t = true -> quoted p t -> p ≠ "".
Proof.
  intros Ht (w1 & q1 & q2 & w2 & _ & _ & _ & _ & ->).
  apply truthy_nonempty. do 2 apply truthy_app_r. by apply truthy_app_l, skill_token_truthy.
Qed.

Lemma quoted_lstrip (p t : string) :
  skill_token t = true -> quoted p t ->
  quoted (lstrip is_space p) t /\
  exists a, head_char (lstrip is_space p) = Some a /\
    is_space a = false /\ Ascii.eqb a "[" = false.
Proof.
  intros Ht (w1 & q1 & q2 & w2 & Hw1 & Hq1 & Hq2 & Hw2 & ->).
  destruct (core_head q1 t (q2 +:+ w2) Hq1 Ht) as (a & Ha & Hsa & Hba).
  rewrite (lstrip_all is_space w1 _ Hw1), (lstrip_keep is_space _ a Ha Hsa).
  split; [|by exists a]. by exists "", q1, q2, w2.
Qed.

Lemma quoted_rstrip (p t : string) :
  skill_token t = true -> quoted p t -> quoted (rstrip is_space p) t.
Proof.
  intros Ht (w1 & q1 & q2 & w2 & Hw1 & Hq1 & Hq2 & Hw2 & ->).
  destruct (core_last (w1 +:+ q1) t q2 Hq2 Ht) as (b & Hb & Hsb).
  rewrite append_assoc in Hb.
  replace (w1 +:+ q1 +:+ t +:+ q2 +:+ w2) with ((w1 +:+ q1 +:+ t +:+ q2) +:+ w2)
    by (by rewrite !append_assoc).
  rewrite (rstrip_all is_space _ w2 Hw2), (rstrip_keep is_space _ b Hb Hsb).
  exists w1, q1, q2, "". by rewrite append_nil_r.
Qed.

(** ** The three shapes, padded and quoted *)

Lemma required_of_padded_list (xs ts : list string) :
  Forall (fun t => skill_token t = true) ts -> Forall2 padded xs ts ->
  required_skills_set (SkList xs) = list_to_set (map lower ts).
Proof.
  intros Hts Hxs.
  assert (H : List.filter truthy xs = xs /\ map clean xs = map lower ts).
  { revert Hts. induction Hxs as [|x t xs ts Hx Hxs IH]; intros Hts; [done|].
    apply Forall_cons in Hts as [Ht Hts]. destruct (IH Hts) as [IH1 IH2].
    destruct (padded_clean x t Ht Hx) as [Htr Hst]. simpl.
    rewrite Htr, IH1, IH2. unfold clean at 1. by rewrite Hst. }
  destruct H as [H1 H2]. simpl. by rewrite H1, H2.
Qed.

Lemma join_cons2 (sep p q : string) (r : list string) :
  join sep (p :: q :: r) = p +:+ sep +:+ join sep (q :: r).
Proof. reflexivity. Qed.

Lemma join_sep_head (sep p : string) (r : list string) :
  p ≠ "" -> head_char (join sep (p :: r)) = head_char p.
Proof.
  intros Hne. destruct r as [|q r]; [done|]. rewrite join_cons2.
  by apply head_char_app.
Qed.

Lemma split_comma_joined (ps : list string) :
  ps ≠ [] -> Forall (fun p => comma_free p = true) ps ->
  split_comma (join "," ps) = ps.
Proof.
  induction ps as [|p r IH]; [done|]. intros _ [Hp Hr]%Forall_cons.
  destruct r as [|q r]; [by apply split_comma_free|].
  rewrite join_cons2.
  change ("," +:+ join "," (q :: r)) with (String "," (join "," (q :: r))).
  rewrite (split_comma_app _ _ Hp). by rewrite IH.
Qed.

Lemma parts_of_quoted (ps ts : list string) :
  Forall (fun t => skill_token t = true) ts -> Forall2 quoted ps ts ->
  map (fun p => strip_quotes (strip p))
      (List.filter (fun p => truthy (strip p)) ps) = ts /\
  Forall (fun p => comma_free p = true) ps.
Proof.
  intros Hts Hps. revert Hts.
  induction Hps as [|p t ps ts Hp Hps IH]; intros Hts; [done|].
  apply Forall_cons in Hts as [Ht Hts]. destruct (IH Hts) as [IH1 IH2].
  destruct (quoted_clean p t Ht Hp) as (Htr & Hst & Hcf). split.
  - simpl. rewrite Htr. simpl. by rewrite Hst, IH1.
  - by apply Forall_cons.
Qed.

(** The tokens read back from comma-joined quoted pieces. *)
Lemma parts_of_join_quoted (ps ts : list string) :
  Forall (fun t => skill_token t = true) ts -> Forall2 quoted ps ts ->
  map (fun p => strip_quotes (strip p))
      (List.filter (fun p => truthy (strip p)) (split_comma (join "," ps))) = ts.
Proof.
  intros Hts Hps. destruct (parts_of_quoted ps ts Hts Hps) as [Hparts Hcf].
  destruct ps as [|p r].
  - by inversion Hps.
  - by rewrite split_comma_joined.
Qed.

Lemma join_quoted_nonempty (ps ts : list string) :
  Forall (fun t => skill_token t = true) ts -> Forall2 quoted ps ts ->
  ps ≠ [] -> join "," ps ≠ "".
Proof.
  intros Hts Hps Hne. destruct Hps as [|p t ps ts Hp Hps]; [done|].
  apply Forall_cons in Hts as [Ht _].
  pose proof (quoted_nonempty p t Ht Hp) as Hp0.
  intros E. pose proof (join_sep_head "," p ps Hp0) as Hh. rewrite E in Hh.
  by destruct p.
Qed.

(** Stripping the right end of the joined text strips the last piece. *)
Lemma rstrip_join (ps ts : list string) :
  Forall (fun t => skill_token t = true) ts -> Forall2 quoted ps ts ->
  ps ≠ [] ->
  exists ps', Forall2 quoted ps' ts /\
    rstrip is_space (join "," ps) = join "," ps'.
Proof.
  intros Hts Hps. revert Hts.
  induction Hps as [|p t ps ts Hp Hps IH]; intros Hts Hne; [done|].
  apply Forall_cons in Hts as [Ht Hts].
  destruct ps as [|q r].
  - inversion Hps; subst. exists [rstrip is_space p]. split; [|done].
    constructor; [by apply quoted_rstrip|done].
  - destruct (IH Hts) as (ps' & Hps' & Hr); [done|].
    exists (p :: ps'). split; [by constructor|].
    rewrite join_cons2, <- append_assoc.
    rewrite rstrip_app_nonempty.
    + rewrite Hr, append_assoc.
      destruct ps' as [|q' r']; [inversion Hps'; subst; inversion Hps|].
      by rewrite join_cons2.
    + rewrite Hr. apply (join_quoted_nonempty ps' ts Hts Hps').
      intros ->. inversion Hps'; subst; inversion Hps.
Qed.

(** Stripping the joined text leaves comma-joined quoted pieces of the same
    tokens, and no opening bracket in front. *)
Lemma strip_join (ps ts : list string) :
  Forall (fun t => skill_token t = true) ts -> Forall2 quoted ps ts ->
  ps ≠ [] ->
  exists ps' a, Forall2 quoted ps' ts /\ strip (join "," ps) = join "," ps' /\
    head_char (strip (join "," ps)) = Some a /\ Ascii.eqb a "[" = false.
Proof.
  intros Hts Hps Hne. destruct Hps as [|p t ps ts Hp Hps]; [done|].
  pose proof Hts as [Ht Htl]%Forall_cons.
  destruct (quoted_lstrip p t Ht Hp) as (Hp' & a & Ha & Hsa & Hba).
  assert (Hp0 : lstrip is_space p ≠ "") by (intros E; by rewrite E in Ha).
  assert (Hl : lstrip is_space (join "," (p :: ps))
               = join "," (lstrip is_space p :: ps)).
  { destruct ps as [|q r]; [done|]. rewrite !join_cons2.
    by apply lstrip_app_nonempty. }
  assert (Hps' : Forall2 quoted (lstrip is_space p :: ps) (t :: ts))
    by (by constructor).
  destruct (rstrip_join _ _ Hts Hps') as (ps'' & Hq & Hr); [done|].
  exists ps'', a. unfold strip, strip_with. rewrite Hl. split; [done|].
  split; [done|]. split; [|done].
  apply rstrip_head; [|done]. by rewrite join_sep_head.
Qed.

Lemma required_of_quoted_comma_string (ps ts : list string) :
  Forall (fun t => skill_token t = true) ts -> Forall2 quoted ps ts ->
  ps ≠ [] ->
  required_of_string (join "," ps) = list_to_set (map lower ts).
Proof.
  intros Hts Hps Hne.
  destruct (strip_join ps ts Hts Hps Hne) as (ps' & a & Hps' & Hs & Ha & Hba).
  unfold required_of_string.
  rewrite (starts_with_head "[" a _ Ha), Hba. simpl andb. cbv iota.
  rewrite Hs.
  by rewrite (parts_of_join_quoted ps' ts Hts Hps'), (tokens_truthy ts Hts).
Qed.

Lemma required_of_quoted_bracketed_string (ps ts : list string) (w0 w3 : string) :
  Forall (fun t => skill_token t = true) ts -> Forall2 quoted ps ts ->
  all_chars is_space w0 = true -> all_chars is_space w3 = true ->
  required_of_string (w0 +:+ "[" +:+ join "," ps +:+ "]" +:+ w3)
    = list_to_set (map lower ts).
Proof.
  intros Hts Hps Hw0 Hw3. unfold required_of_string.
  assert (Hlast : last_char ("[" +:+ join "," ps +:+ "]") = Some "]"%char).
  { rewrite <- append_assoc. by rewrite last_char_app. }
  assert (Hhead : head_char ("[" +:+ join "," ps +:+ "]") = Some "["%char)
    by reflexivity.
  replace (w0 +:+ "[" +:+ join "," ps +:+ "]" +:+ w3)
    with (w0 +:+ ("[" +:+ join "," ps +:+ "]") +:+ w3)
    by (by rewrite !append_assoc).
  unfold strip.
  rewrite (strip_with_padded is_space w0 _ w3 "["%char "]"%char
             Hw0 Hw3 Hhead Hlast eq_refl eq_refl).
  change (starts_with_char "[" ("[" +:+ join "," ps +:+ "]")) with true.
  rewrite <- append_assoc, ends_with_char_snoc. simpl andb. cbv iota.
  change (slice_1_m1 (("[" +:+ join "," ps) +:+ "]"))
    with (drop_last (join "," ps +:+ "]")).
  rewrite drop_last_snoc.
  change (strip_with is_space) with strip.
  by rewrite (parts_of_join_quoted ps ts Hts Hps), (tokens_truthy ts Hts).
Qed.

Lemma skill_score_of_set (engineer : Engineer) (a b : skills_arg) :
  arg_truthy a = arg_truthy b ->
  required_skills_set a = required_skills_set b ->
  calculate_skill_match_score engineer a = calculate_skill_match_score engineer b.
Proof. intros Ht Hs. unfold calculate_skill_match_score. by rewrite Ht, Hs. Qed.

(** C6 as stated fails: the same token wrapped in quotes is one skill in a
    comma-separated string, whose pieces lose their quotes, and another in a
    list, whose elements keep them. An engineer skilled in Network scores 0
    for the list and 1 for the string. *)
Lemma C6_counterexample :
  calculate_skill_match_score
    {| name := "A"; skills := Some ["Network"]; availability := None;
       max_workload := None |} (SkList ["'Network'"]) = 0%Q /\
  calculate_skill_match_score
    {| name := "A"; skills := Some ["Network"]; availability := None;
       max_workload := None |} (SkStr "'Network'") = 1%Q /\
  calculate_skill_match_score
    {| name := "A"; skills := Some ["Network"]; availability := None;
       max_workload := None |} (SkList ["'Network'"])
  <> calculate_skill_match_score
    {| name := "A"; skills := Some ["Network"]; availability := None;
       max_workload := None |} (SkStr "'Network'").
Proof. vm_compute. split; [reflexivity|]. split; [reflexivity|]. discriminate. Qed.

(** C6. For skill tokens [ts] (not empty, without comma, without white space
    or a quote at either end, without a leading bracket), the required
    skills normalise to the set of the lowercased tokens, and
    [calculate_skill_match_score] returns the score of the list [ts], for
    every list whose elements are the tokens between white space, for every
    comma-separated text whose pieces are the tokens between quotes between
    white space, and for every such text between one pair of brackets, itself
    between white space; and the score is 0.5 whenever the input is empty or
    null or the normalised set of required skills is empty. *)
Theorem C6_skill_input_shapes_agree (engineer : Engineer)
    (ts xs ps : list string) (w0 w3 : string) :
  Forall (fun t => skill_token t = true) ts ->
  Forall2 padded xs ts -> Forall2 quoted ps ts ->
  all_chars is_space w0 = true -> all_chars is_space w3 = true ->
  (required_skills_set (SkList xs) = list_to_set (map lower ts) /\
   required_skills_set (SkStr (join "," ps)) = list_to_set (map lower ts) /\
   required_skills_set (SkStr (w0 +:+ "[" +:+ join "," ps +:+ "]" +:+ w3))
     = list_to_set (map lower ts)) /\
  calculate_skill_match_score engineer (SkList xs)
    = calculate_skill_match_score engineer (SkList ts) /\
  calculate_skill_match_score engineer (SkStr (join "," ps))
    = calculate_skill_match_score engineer (SkList ts) /\
  calculate_skill_match_score engineer
      (SkStr (w0 +:+ "[" +:+ join "," ps +:+ "]" +:+ w3))
    = calculate_skill_match_score engineer (SkList ts) /\
  (forall required_skills,
     arg_truthy required_skills = false \/
     required_skills_set required_skills = ∅ ->
     calculate_skill_match_score engineer required_skills = (1 # 2)%Q) /\
  calculate_skill_match_score engineer SkNone = (1 # 2)%Q /\
  calculate_skill_match_score engineer (SkStr "") = (1 # 2)%Q /\
  calculate_skill_match_score engineer (SkList []) = (1 # 2)%Q.
Proof.
  intros Hts Hxs Hps Hw0 Hw3.
  assert (Hhalf : forall required_skills,
     arg_truthy required_skills = false \/
     required_skills_set required_skills = ∅ ->
     calculate_skill_match_score engineer required_skills = (1 # 2)%Q).
  { intros required_skills [Hf|He]; unfold calculate_skill_match_score.
    - by rewrite Hf.
    - destruct (arg_truthy required_skills); [|done]. simpl.
      rewrite He, size_empty. done. }
  assert (Hlist : required_skills_set (SkList ts) = list_to_set (map lower ts))
    by (by apply required_of_list_tokens).
  assert (Hpadded : required_skills_set (SkList xs) = list_to_set (map lower ts))
    by (by apply required_of_padded_list).
  assert (Hcomma : required_skills_set (SkStr (join "," ps))
                   = list_to_set (map lower ts)).
  { destruct ps as [|p r].
    - inversion Hps; subst. reflexivity.
    - by apply required_of_quoted_comma_string. }
  assert (Hbracket :
    required_skills_set (SkStr (w0 +:+ "[" +:+ join "," ps +:+ "]" +:+ w3))
    = list_to_set (map lower ts))
    by (by apply required_of_quoted_bracketed_string).
  split; [done|].
  split; [|split; [|split; [|split; [exact Hhalf|done]]]].
  - apply skill_score_of_set; [by destruct Hxs|by rewrite Hlist].
  - apply skill_score_of_set; [|by rewrite Hlist].
    destruct ps as [|p r].
    + by inversion Hps.
    + assert (Hne : join "," (p :: r) ≠ "")
        by (by apply (join_quoted_nonempty (p :: r) ts)).
      apply truthy_nonempty in Hne. unfold arg_truthy. rewrite Hne.
      by inversion Hps.
  - destruct ts as [|t r].
    + rewrite (Hhalf (SkList [])) by (by left). apply Hhalf. by right.
    + apply skill_score_of_set; [|by rewrite Hlist].
      unfold arg_truthy. by apply truthy_app_r.
Qed.

(** A witness of C6: the skills of a network ticket as Python prints a list,
    with brackets and quotes, as a comma-separated text with quotes, and as
    a list with padded elements; the engineer has both skills and scores 1. *)
Lemma C6_witness :
  Forall (fun t => skill_token t = true) ["Network"; "Security"] /\
  Forall2 padded [" Network"; "Security "] ["Network"; "Security"] /\
  Forall2 quoted ["'Network'"; " 'Security'"] ["Network"; "Security"] /\
  calculate_skill_match_score engineer_A (SkList [" Network"; "Security "])
    = calculate_skill_match_score engineer_A (SkList ["Network"; "Security"]) /\
  calculate_skill_match_score engineer_A (SkStr "'Network', 'Security'")
    = calculate_skill_match_score engineer_A (SkList ["Network"; "Security"]) /\
  calculate_skill_match_score engineer_A (SkStr "['Network', 'Security']")
    = calculate_skill_match_score engineer_A (SkList ["Network"; "Security"]) /\
  (calculate_skill_match_score engineer_A (SkList ["Network"; "Security"]) == 1)%Q.
Proof.
  assert (Hts : Forall (fun t => skill_token t = true) ["Network"; "Security"]).
  { constructor; [reflexivity|]. constructor; [reflexivity|]. constructor. }
  assert (Hxs : Forall2 padded [" Network"; "Security "] ["Network"; "Security"]).
  { constructor.
    - exists " ", "". split; [reflexivity|]. split; reflexivity.
    - constructor; [|constructor].
      exists "", " ". split; [reflexivity|]. split; reflexivity. }
  assert (Hps : Forall2 quoted ["'Network'"; " 'Security'"] ["Network"; "Security"]).
  { constructor.
    - exists "", "'", "'", "". repeat (split; [reflexivity|]). reflexivity.
    - constructor; [|constructor].
      exists " ", "'", "'", "". repeat (split; [reflexivity|]). reflexivity. }
  destruct (C6_skill_input_shapes_agree engineer_A ["Network"; "Security"]
              [" Network"; "Security "] ["'Network'"; " 'Security'"] "" ""
              Hts Hxs Hps eq_refl eq_refl) as (_ & H1 & H2 & H3 & _).
  split; [exact Hts|]. split; [exact Hxs|]. split; [exact Hps|].
  split; [exact H1|]. split; [exact H2|]. split; [exact H3|]. reflexivity.
Defined.

(** ** The scoring loop *)

Lemma Qgtb_true (x y : Q) : Qgtb x y = true <-> (y < x)%Q.
Proof.
  unfold Qgtb. rewrite negb_true_iff. split.
  - intros E. apply Qnot_le_lt. intros H. apply Qle_bool_iff in H. congruence.
  - intros H. destruct (Qle_bool x y) eqn:E; [|done].
    apply Qle_bool_iff in E. exfalso. by apply (Qlt_not_le y x).
Qed.

Lemma Qgtb_false (x y : Q) : Qgtb x y = false <-> (x <= y)%Q.
Proof.
  unfold Qgtb. rewrite negb_false_iff. apply Qle_bool_iff.
Qed.

Section ScoreLoop.
Variable self : EngineerAssignmentEngine.
Variable required_skills : skills_arg.
Variables skill_weight workload_weight : Q.
Variable allow_overflow : bool.

Let skip := skipped self allow_overflow.
Let combined := combined_score self required_skills skill_weight workload_weight.
Let step := score_step self required_skills skill_weight workload_weight allow_overflow.

Lemma score_step_mono (acc : option string * Q) (e : Engineer) :
  (acc.2 <= (step acc e).2)%Q.
Proof.
  unfold step, score_step. destruct (skipped self allow_overflow e); [apply Qle_refl|].
  destruct (Qgtb _ acc.2) eqn:E; [|apply Qle_refl].
  apply Qgtb_true in E. simpl. by apply Qlt_le_weak.
Qed.

Lemma score_fold_mono (l : list Engineer) (acc : option string * Q) :
  (acc.2 <= (fold_left step l acc).2)%Q.
Proof.
  revert acc. induction l as [|x l IH]; intros acc; simpl; [apply Qle_refl|].
  eapply Qle_trans; [apply score_step_mono|apply IH].
Qed.

(** The state of the scoring loop after a list of engineers, started on
    [acc]: the score kept bounds the combined score of every engineer that
    was not skipped, and the name kept is the initial one (no score exceeded
    the initial score) or that of the first engineer reaching the final one. *)
Lemma score_fold_spec (l : list Engineer) (acc : option string * Q) :
  let res := fold_left step l acc in
  (forall j e, l !! j = Some e -> skip e = false -> (combined e <= res.2)%Q) /\
  ((res = acc /\
    forall j e, l !! j = Some e -> skip e = false -> (combined e <= acc.2)%Q) \/
   (exists i e, l !! i = Some e /\ skip e = false /\
      res = (Some (name e), combined e) /\ (acc.2 < combined e)%Q /\
      forall j e', j < i -> l !! j = Some e' -> skip e' = false ->
        (combined e' < combined e)%Q)).
Proof.
  revert acc. induction l as [|x l IH]; intros acc; simpl.
  - split; [intros j e Hj; done|]. left. split; [done|]. intros j e Hj. done.
  - destruct (IH (step acc x)) as [Hub Hcase].
    assert (Hx : skip x = false -> (combined x <= (step acc x).2)%Q).
    { intros Hs. unfold step, score_step. fold skip. rewrite Hs. fold combined.
      destruct (Qgtb (combined x) acc.2) eqn:E; simpl; [apply Qle_refl|].
      by apply Qgtb_false. }
    split.
    + intros [|j] e Hj Hs; simpl in Hj.
      * injection Hj as <-. eapply Qle_trans; [by apply Hx|apply score_fold_mono].
      * by eapply Hub.
    + assert (Hstep : step acc x =
        if skip x then acc
        else if Qgtb (combined x) acc.2 then (Some (name x), combined x) else acc)
        by reflexivity.
      destruct (skip x) eqn:Hs.
      { rewrite Hstep in Hcase |- *.
        destruct Hcase as [[Heq Hall]|(i & e & Hi & Hse & Hres & Hlt & Hfirst)].
        - left. split; [done|]. intros [|j] e Hj Hse; simpl in Hj.
          + injection Hj as <-. congruence.
          + by eapply Hall.
        - right. exists (S i), e. simpl. repeat split; [done|done|done|done|].
          intros [|j] e' Hl Hj Hse'; simpl in Hj.
          + injection Hj as <-. congruence.
          + apply (Hfirst j); [lia|done|done]. }
      destruct (Qgtb (combined x) acc.2) eqn:E; rewrite Hstep in Hcase |- *;
        simpl in Hcase.
      * apply Qgtb_true in E. right.
        destruct Hcase as [[Heq Hall]|(i & e & Hi & Hse & Hres & Hlt & Hfirst)].
        -- exists 0, x. simpl. repeat split; [done|done|done|].
           intros j e' Hj. lia.
        -- exists (S i), e. simpl. repeat split; [done|done|done| |].
           ++ by eapply Qlt_trans.
           ++ intros [|j] e' Hl Hj Hse'; simpl in Hj.
              ** injection Hj as <-. done.
              ** apply (Hfirst j); [lia|done|done].
      * apply Qgtb_false in E.
        destruct Hcase as [[Heq Hall]|(i & e & Hi & Hse & Hres & Hlt & Hfirst)].
        -- left. split; [done|]. intros [|j] e Hj Hse; simpl in Hj.
           ++ by injection Hj as <-.
           ++ by eapply Hall.
        -- right. exists (S i), e. simpl. repeat split; [done|done|done|done|].
           intros [|j] e' Hl Hj Hse'; simpl in Hj.
           ++ injection Hj as <-. by eapply Qle_lt_trans.
           ++ apply (Hfirst j); [lia|done|done].
Qed.

(** The outcome of the scoring loop of [find_best_engineer]. *)
Lemma score_loop_spec :
  match (score_loop self required_skills skill_weight workload_weight
                    allow_overflow).1 with
  | Some winner =>
      exists i e, engineers self !! i = Some e /\ skip e = false /\
        name e = winner /\ (-1 < combined e)%Q /\
        forall j e', engineers self !! j = Some e' -> skip e' = false ->
          (combined e' <= combined e)%Q /\ (j < i -> (combined e' < combined e)%Q)
  | None =>
      forall j e, engineers self !! j = Some e -> skip e = false ->
        (combined e <= -1)%Q
  end.
Proof.
  unfold score_loop. fold step.
  destruct (score_fold_spec (engineers self) (None, (-1)%Q)) as [Hub Hcase].
  destruct Hcase as [[Heq Hall]|(i & e & Hi & Hse & Hres & Hlt & Hfirst)].
  - rewrite Heq. simpl. done.
  - rewrite Hres in Hub |- *. simpl in *. exists i, e.
    split; [done|]. split; [done|]. split; [done|]. split; [done|].
    intros j e' Hj Hse'. split.
    + by eapply Hub.
    + intros Hl. by eapply Hfirst.
Qed.

Lemma score_loop_all_skipped :
  (forall e, e ∈ engineers self -> skip e = true) ->
  (score_loop self required_skills skill_weight workload_weight
              allow_overflow).1 = None.
Proof.
  intros Hall. pose proof score_loop_spec as H.
  destruct (score_loop _ _ _ _ _).1 as [w|]; [|done].
  destruct H as (i & e & Hi & Hse & _).
  rewrite Hall in Hse; [done|]. by eapply list_elem_of_lookup_2.
Qed.

End ScoreLoop.

(** ** The order of doubles *)

Ltac compare_cases :=
  repeat match goal with
  | |- context [Z.compare ?a ?b] => destruct (Z.compare_spec a b)
  | |- context [Pos.compare_cont Eq ?a ?b] =>
      change (Pos.compare_cont Eq a b) with (Pos.compare a b);
      destruct (Pos.compare_spec a b)
  end.

Lemma ltb_irrefl (x : Float64.float) : Float64.ltb x x = false.
Proof.
  unfold Float64.ltb, SFltb, SFcompare. destruct x as [s|s| |s m e]; try done.
  - by destruct s.
  - destruct s; compare_cases; simpl; try done; lia.
Qed.

Lemma ltb_trans (x y z : Float64.float) :
  Float64.ltb x y = true -> Float64.ltb y z = true -> Float64.ltb x z = true.
Proof.
  unfold Float64.ltb, SFltb, SFcompare.
  destruct x as [sx|sx| |sx mx ex], y as [sy|sy| |sy my ey],
    z as [sz|sz| |sz mz ez];
    try done; try (destruct sx, sy, sz; done); try (destruct sx, sy; done);
    try (destruct sy, sz; done); try (destruct sx, sz; done).
  destruct sx, sy, sz; try done; compare_cases; simpl; try done; try lia.
Qed.

Lemma ltb_eqb_r (x y z : Float64.float) :
  Float64.ltb x z = true -> Float64.eqb y z = true -> Float64.ltb x y = true.
Proof.
  unfold Float64.ltb, Float64.eqb, SFltb, SFeqb, SFcompare.
  destruct x as [sx|sx| |sx mx ex], y as [sy|sy| |sy my ey],
    z as [sz|sz| |sz mz ez];
    try done; try (destruct sx, sy, sz; done); try (destruct sx, sy; done);
    try (destruct sy, sz; done); try (destruct sx, sz; done).
  destruct sx, sy, sz; try done; compare_cases; simpl; try done; try lia.
Qed.

Lemma ltb_not_nan (x y : Float64.float) :
  Float64.ltb x y = true -> Float64.is_nan x = false /\ Float64.is_nan y = false.
Proof. unfold Float64.ltb, SFltb, SFcompare. by destruct x, y. Qed.

(** Two doubles that are numbers are ordered or equal. *)
Lemma ltb_total (x y : Float64.float) :
  Float64.is_nan x = false -> Float64.is_nan y = false ->
  Float64.ltb x y = true \/ Float64.eqb x y = true \/ Float64.ltb y x = true.
Proof.
  unfold Float64.ltb, Float64.eqb, SFltb, SFeqb, SFcompare.
  destruct x as [sx|sx| |sx mx ex], y as [sy|sy| |sy my ey];
    try done; try (destruct sx, sy; simpl; tauto); try (destruct sx; simpl; tauto);
    try (destruct sy; simpl; tauto).
  intros _ _.
  destruct sx, sy; try tauto; compare_cases; simpl; try tauto; try lia.
Qed.

Lemma gtb_false_mono (c b b' : Float64.float) :
  Float64.gtb c b = false -> b' = b \/ Float64.gtb b' b = true ->
  Float64.gtb c b' = false.
Proof.
  intros Hc [->|Hb]; [done|]. unfold Float64.gtb in *.
  destruct (SFltb b' c) eqn:E; [|done].
  change (Float64.ltb b' c = true) in E. change (Float64.ltb b b' = true) in Hb.
  change (Float64.ltb b c = false) in Hc.
  by rewrite (ltb_trans b b' c Hb E) in Hc.
Qed.

(** ** The scoring loop on doubles *)

Section FloatScoreLoop.
Import Float64.
Variable self : EngineerAssignmentEngine.
Variable required_skills : skills_arg.
Variables skill_weight workload_weight : float.
Variable allow_overflow : bool.

Let score := FloatEngine.scored self required_skills skill_weight workload_weight
                                allow_overflow.
Let step := FloatEngine.score_step self required_skills skill_weight
                                   workload_weight allow_overflow.
Let loop := FloatEngine.score_loop_from self required_skills skill_weight
                                        workload_weight allow_overflow.

(** One iteration, read through [scored]. *)
Lemma float_score_step (acc : option string * float) (e : Engineer) :
  step acc e =
    match FloatEngine.calculate_workload_score self e with
    | None => None
    | Some _ =>
        Some match score e with
             | Some c => if gtb c acc.2 then (Some (name e), c) else acc
             | None => acc
             end
    end.
Proof.
  unfold step, score, FloatEngine.score_step, FloatEngine.scored.
  destruct (FloatEngine.calculate_workload_score self e) as [w|]; [|done].
  destruct (FloatEngine.skipped allow_overflow e w); [done|].
  by destruct (gtb _ acc.2).
Qed.

(** The loop raises exactly when the workload score of an engineer does. *)
Lemma float_score_loop_returns (l : list Engineer) (acc : option string * float) :
  is_Some (loop l acc) <->
  Forall (fun e => is_Some (FloatEngine.calculate_workload_score self e)) l.
Proof.
  revert acc. induction l as [|x l IH]; intros acc.
  - split; [by constructor|]. intros _. by eexists.
  - assert (Hl : loop (x :: l) acc =
        match step acc x with None => None | Some acc' => loop l acc' end)
      by reflexivity.
    rewrite Hl, float_score_step, Forall_cons.
    destruct (FloatEngine.calculate_workload_score self x) as [w|].
    + rewrite IH. split; [intros H; split; [by eexists|done]|by intros [_ H]].
    + split; [by intros [? ?]|]. by intros [[? ?] _].
Qed.

Lemma float_score_loop_raises (l : list Engineer) (acc : option string * float) :
  loop l acc = None ->
  exists e, e ∈ l /\ FloatEngine.calculate_workload_score self e = None.
Proof.
  revert acc. induction l as [|x l IH]; intros acc; [done|].
  assert (Hl : loop (x :: l) acc =
      match step acc x with None => None | Some acc' => loop l acc' end)
    by reflexivity.
  rewrite Hl, float_score_step.
  destruct (FloatEngine.calculate_workload_score self x) as [w|] eqn:E.
  - intros H. destruct (IH _ H) as (e & He & Hn). exists e.
    split; [by apply list_elem_of_further|done].
  - intros _. exists x. split; [apply list_elem_of_here|done].
Qed.

(** The state of the scoring loop after a list of engineers, started on
    [acc]: the score kept is the initial one or exceeds it, no engineer that
    was not skipped exceeds it, and the name kept is the initial one or that
    of the first engineer reaching the final score. *)
Lemma float_score_fold_spec (l : list Engineer) (acc res : option string * float) :
  loop l acc = Some res ->
  (res.2 = acc.2 \/ gtb res.2 acc.2 = true) /\
  (forall j e c, l !! j = Some e -> score e = Some c -> gtb c res.2 = false) /\
  (res = acc \/
   exists i e, l !! i = Some e /\ score e = Some res.2 /\
     res.1 = Some (name e) /\ gtb res.2 acc.2 = true /\
     forall j e' c', j < i -> l !! j = Some e' -> score e' = Some c' ->
       eqb c' res.2 = false /\ (is_nan c' = false -> gtb res.2 c' = true)).
Proof.
  revert acc. induction l as [|x l IH]; intros acc Hloop.
  - injection Hloop as <-. split; [by left|]. split; [done|]. by left.
  - assert (Hl : loop (x :: l) acc =
        match step acc x with None => None | Some acc' => loop l acc' end)
      by reflexivity.
    rewrite Hl, float_score_step in Hloop.
    destruct (FloatEngine.calculate_workload_score self x) as [w|]; [|done].
    set (acc1 := match score x with
                 | Some c => if gtb c acc.2 then (Some (name x), c) else acc
                 | None => acc
                 end) in Hloop.
    destruct (IH acc1 Hloop) as (Hmono & Hub & Hcase).
    (* the step itself *)
    assert (Hstep :
      (acc1 = acc /\ forall c, score x = Some c -> gtb c acc.2 = false) \/
      (exists c, score x = Some c /\ gtb c acc.2 = true /\
         acc1 = (Some (name x), c))).
    { subst acc1. destruct (score x) as [c|].
      - destruct (gtb c acc.2) eqn:E.
        + right. by exists c.
        + left. split; [done|]. by intros ? [= <-].
      - left. done. }
    assert (Hmono' : res.2 = acc.2 \/ gtb res.2 acc.2 = true).
    { destruct Hstep as [[-> _]|(c & _ & Hgt & ->)]; [done|]. simpl in Hmono.
      right. destruct Hmono as [->|Hm]; [done|].
      apply (ltb_trans acc.2 c res.2); [exact Hgt|exact Hm]. }
    split; [exact Hmono'|]. split.
    + intros [|j] e c Hj Hs; simpl in Hj; [|by eapply Hub].
      injection Hj as <-.
      destruct Hstep as [[Heq Hle]|(c0 & Hs0 & Hgt & Heq)].
      * apply (gtb_false_mono c acc.2 res.2); [by apply Hle|exact Hmono'].
      * rewrite Hs in Hs0. injection Hs0 as <-. rewrite Heq in Hmono.
        simpl in Hmono. destruct Hmono as [->|Hm]; [apply ltb_irrefl|].
        apply (gtb_false_mono c c res.2); [apply ltb_irrefl|by right].
    + destruct Hstep as [[Heq Hle]|(c0 & Hs0 & Hgt & Heq)].
      * rewrite Heq in Hcase, Hmono.
        destruct Hcase as [->|(i & e & Hi & Hse & Hn & Hlt & Hfirst)]; [by left|].
        right. exists (S i), e. split; [done|]. split; [done|]. split; [done|].
        split; [done|].
        intros [|j] e' c' Hji Hj Hs'; simpl in Hj; [|apply (Hfirst j e' c'); [lia|done|done]].
        injection Hj as <-. pose proof (Hle c' Hs') as Hc'.
        assert (Heqb : eqb c' res.2 = false).
        { destruct (eqb c' res.2) eqn:E; [|done].
          pose proof (ltb_eqb_r acc.2 c' res.2 Hlt E) as H.
          change (gtb c' acc.2 = true) in H. congruence. }
        split; [exact Heqb|]. intros Hnan.
        destruct (ltb_not_nan _ _ Hlt) as [_ Hres].
        destruct (ltb_total c' res.2 Hnan Hres) as [H|[H|H]]; [exact H|congruence|].
        pose proof (ltb_trans acc.2 res.2 c' Hlt H) as H'.
        change (gtb c' acc.2 = true) in H'. congruence.
      * rewrite Heq in Hcase, Hmono. simpl in Hcase, Hmono.
        right.
        destruct Hcase as [->|(i & e & Hi & Hse & Hn & Hlt & Hfirst)].
        -- exists 0, x. simpl. split; [done|]. split; [done|]. split; [done|].
           split; [done|]. intros j e' c' Hj. lia.
        -- exists (S i), e. split; [done|]. split; [done|]. split; [done|].
           split; [by apply (ltb_trans acc.2 c0 res.2)|].
           intros [|j] e' c' Hji Hj Hs'; simpl in Hj;
             [|apply (Hfirst j e' c'); [lia|done|done]].
           injection Hj as <-. rewrite Hs' in Hs0. injection Hs0 as ->.
           split; [|by intros _].
           destruct (eqb c0 res.2) eqn:E; [|done].
           pose proof (ltb_eqb_r c0 c0 res.2 Hlt E) as Hirr.
           by rewrite ltb_irrefl in Hirr.
Qed.

End FloatScoreLoop.

Lemma float_fallback_candidates (engs : list Engineer) :
  FloatEngine.fallback_candidates engs = fallback_candidates engs.
Proof.
  unfold FloatEngine.fallback_candidates, fallback_candidates.
  assert (H : List.filter (fun eng => Float64.eqb
                 (FloatEngine.get_availability_score eng) Float64.one) engs
            = List.filter (fun eng => Qeq_bool (get_availability_score eng) 1) engs).
  { induction engs as [|e l IH]; [done|]. simpl. rewrite IH.
    unfold FloatEngine.get_availability_score, get_availability_score.
    by destruct (String.eqb _ "available"). }
  by rewrite H.
Qed.

(** A failing division: the maximum is zero, or the quotient overflows. *)
Lemma float_workload_score_raises (self : EngineerAssignmentEngine) (e : Engineer) :
  FloatEngine.calculate_workload_score self e = None <->
  (current_load (workload self) (name e) < default 5 (max_workload e))%Z /\
  Float64.truediv (current_load (workload self) (name e))
                  (default 5%Z (max_workload e)) = None.
Proof.
  unfold FloatEngine.calculate_workload_score.
  destruct (Z.leb_spec (default 5%Z (max_workload e))
                       (current_load (workload self) (name e))) as [Hle|Hlt].
  - split; [done|]. intros [? _]. lia.
  - destruct (Float64.truediv _ _); [|done]. split; [done|]. by intros [_ ?].
Qed.

(** C4. On the scoring path of [find_best_engineer], computed on doubles,
    the combined score of an engineer is
    skill * skill_weight + workload * workload_weight, replaced by
    0.1 + workload * workload_weight when the skill score is zero. When the
    loop keeps a name, that name is returned, and it is the name of the first
    engineer, in roster order, among those not skipped whose combined score
    is the largest: the score exceeds -1.0, no engineer not skipped scores
    more, and no earlier one scores the same (an earlier score that is a
    number is strictly smaller). The loop keeps no name when no engineer not
    skipped scores more than -1.0. The loop returns exactly when the
    division of the workload score raises for no engineer of the roster, and
    otherwise an engineer of the roster has a division that raises. *)
Theorem C4_winner_first_strict_maximum (self : EngineerAssignmentEngine)
    (t : ticket) (skill_weight workload_weight : Float64.float)
    (allow_overflow : bool) :
  let required_skills := SkStr (dict_get t "ai_skills" "") in
  let combined :=
    FloatEngine.scored self required_skills skill_weight workload_weight
                       allow_overflow in
  (forall e workload_score,
     FloatEngine.calculate_workload_score self e = Some workload_score ->
     FloatEngine.skipped allow_overflow e workload_score = false ->
     let skill_score := FloatEngine.calculate_skill_match_score e required_skills in
     combined e = Some
       (if Float64.eqb skill_score Float64.zero
        then Float64.add Float64.tenth
               (Float64.mul workload_score workload_weight)
        else Float64.add (Float64.mul skill_score skill_weight)
               (Float64.mul workload_score workload_weight))) /\
  (is_Some (FloatEngine.score_loop self required_skills skill_weight
                                   workload_weight allow_overflow) <->
   Forall (fun e => is_Some (FloatEngine.calculate_workload_score self e))
          (engineers self)) /\
  match FloatEngine.score_loop self required_skills skill_weight workload_weight
                               allow_overflow with
  | Some (Some winner, best_score) =>
      FloatEngine.find_best_engineer self t skill_weight workload_weight
                                     allow_overflow = Some (Some winner, self) /\
      exists i e, engineers self !! i = Some e /\ name e = winner /\
        combined e = Some best_score /\
        Float64.gtb best_score Float64.minus_one = true /\
        forall j e' c', engineers self !! j = Some e' -> combined e' = Some c' ->
          Float64.gtb c' best_score = false /\
          (j < i -> Float64.eqb c' best_score = false /\
                    (Float64.is_nan c' = false ->
                     Float64.gtb best_score c' = true))
  | Some (None, _) =>
      forall j e c, engineers self !! j = Some e -> combined e = Some c ->
        Float64.gtb c Float64.minus_one = false
  | None =>
      exists e, e ∈ engineers self /\
        FloatEngine.calculate_workload_score self e = None
  end.
Proof.
  intros required_skills combined. split.
  { intros e w Hw Hs skill_score. unfold combined, FloatEngine.scored.
    rewrite Hw, Hs. reflexivity. }
  split.
  { apply (float_score_loop_returns self required_skills skill_weight
             workload_weight allow_overflow). }
  pose proof (float_score_loop_raises self required_skills skill_weight
                workload_weight allow_overflow (engineers self)
                (None, Float64.minus_one)) as Hraise.
  pose proof (float_score_fold_spec self required_skills skill_weight
                workload_weight allow_overflow (engineers self)
                (None, Float64.minus_one)) as Hspec.
  unfold FloatEngine.find_best_engineer. fold required_skills.
  unfold FloatEngine.score_loop.
  destruct (FloatEngine.score_loop_from self required_skills skill_weight
              workload_weight allow_overflow (engineers self)
              (None, Float64.minus_one)) as [[[winner|] best]|].
  - destruct (Hspec _ eq_refl) as (_ & Hub & [Heq|Hcase]); [done|].
    destruct Hcase as (i & e & Hi & Hse & Hn & Hlt & Hfirst). simpl in *.
    split; [done|]. exists i, e. split; [done|]. split; [congruence|].
    split; [done|]. split; [done|]. intros j e' c' Hj Hs'. split.
    + by eapply Hub.
    + intros Hji. by eapply Hfirst.
  - destruct (Hspec _ eq_refl) as (_ & Hub & [Heq|Hcase]).
    + injection Heq as ->. intros j e c Hj Hs. by eapply Hub.
    + by destruct Hcase as (i & e & _ & _ & Hn & _).
  - by apply Hraise.
Qed.

(** The literals and one quotient of large integers, as doubles: 0.1 is
    7205759403792794 * 2^-56, the weight 0.6 is 5404319552844595 * 2^-53,
    and (3 * 2^53 + 3) / 3, whose exact value 2^53 + 1 is no double, rounds
    once, to 2^53. *)
Example float_literals :
  Float64.tenth = S754_finite false 7205759403792794 (-56) /\
  Float64.half = S754_finite false 4503599627370496 (-53) /\
  Float64.one = S754_finite false 4503599627370496 (-52) /\
  Float64.minus_one = S754_finite true 4503599627370496 (-52) /\
  Float64.quotient 6 10 = S754_finite false 5404319552844595 (-53) /\
  Float64.quotient (3 * 2 ^ 53 + 3) 3 = Float64.of_int (2 ^ 53) /\
  Float64.truediv 1 0 = None /\
  Float64.truediv (- 10 ^ 400) 1 = None.
Proof. vm_compute. repeat split; reflexivity. Qed.

(** Rounding decides between two engineers whose scores are both 0.46 on
    paper. With the weights 0.6 and 0.4 and two skills required, engineer A
    (one of the two skills, 3 tickets of 5) scores 0.5 * 0.6 + 0.4 * 0.4 and
    engineer B (no skill, 1 ticket of 10) scores 0.1 + 0.9 * 0.4: as doubles
    the second is one unit in the last place above the first, and B is
    returned although A comes first. *)
Example scenario_rounding :
  let A := {| name := "A"; skills := Some ["Network"];
              availability := Some "available"; max_workload := Some 5%Z |} in
  let B := {| name := "B"; skills := Some [];
              availability := Some "available"; max_workload := Some 10%Z |} in
  let self := {| engineers := [A; B]; workload := {[ "A" := 3%Z; "B" := 1%Z ]};
                 storage := []; current_ticket_id := None |} in
  let required_skills := SkStr "Network, Security" in
  let w6 := Float64.quotient 6 10 in
  let w4 := Float64.quotient 4 10 in
  FloatEngine.scored self required_skills w6 w4 false A
    = Some (S754_finite false 8286623314361713 (-54)) /\
  FloatEngine.scored self required_skills w6 w4 false B
    = Some (S754_finite false 8286623314361714 (-54)) /\
  FloatEngine.find_best_engineer self (network_ticket "INC1") w6 w4 false
    = Some (Some "B", self).
Proof. vm_compute. split; [reflexivity|]. split; reflexivity. Qed.

(** S4 on doubles: A matches both skills, B none; A wins with 1.0 against
    0.5, and here no operation rounds. *)
Example scenario_S4_doubles :
  let A := {| name := "A"; skills := Some ["Network"; "Security"];
              availability := Some "available"; max_workload := Some 2%Z |} in
  let B := {| name := "B"; skills := Some ["Database"];
              availability := Some "available"; max_workload := Some 2%Z |} in
  let engine := __init__ [A; B] [] in
  let required := SkStr "Network, Security" in
  let w6 := Float64.quotient 6 10 in
  let w4 := Float64.quotient 4 10 in
  FloatEngine.scored engine required w6 w4 false A = Some Float64.one /\
  FloatEngine.scored engine required w6 w4 false B = Some Float64.half /\
  FloatEngine.find_best_engineer engine (network_ticket "INC1") w6 w4 false
  = Some (Some "A", engine).
Proof. vm_compute. split; [reflexivity|]. split; reflexivity. Qed.

(** Two engineers with the same double as score: the first one is kept. *)
Example scenario_first_seen :
  let self := __init__ [engineer_A; engineer_B] [] in
  FloatEngine.find_best_engineer self (network_ticket "INC1")
    (Float64.quotient 6 10) (Float64.quotient 4 10) false
    = Some (Some "A", self).
Proof. vm_compute. reflexivity. Qed.

(** ** The fallback loop *)

Lemma least_loaded_fold_some (w : gmap string Z) (l : list Engineer)
    (m : Z) (n : string) :
  let res := fold_left (least_loaded_step w) l (Some m, Some n) in
  (res = (Some m, Some n) /\
   forall j e, l !! j = Some e -> (m <= current_load w (name e))%Z) \/
  (exists i e, l !! i = Some e /\
     res = (Some (current_load w (name e)), Some (name e)) /\
     (current_load w (name e) < m)%Z /\
     forall j e', l !! j = Some e' ->
       (current_load w (name e) <= current_load w (name e'))%Z /\
       (j < i -> (current_load w (name e) < current_load w (name e'))%Z)).
Proof.
  revert m n. induction l as [|x l IH]; intros m n; simpl.
  - left. split; [done|]. intros j e Hj. done.
  - assert (Hstep : least_loaded_step w (Some m, Some n) x =
      if (current_load w (name x) <? m)%Z
      then (Some (current_load w (name x)), Some (name x))
      else (Some m, Some n)) by reflexivity.
    rewrite Hstep. clear Hstep.
    destruct (current_load w (name x) <? m)%Z eqn:E.
    + apply Z.ltb_lt in E. right.
      destruct (IH (current_load w (name x)) (name x))
        as [[Heq Hall]|(i & e & Hi & Hres & Hlt & Hmin)].
      * exists 0, x. simpl. split; [done|]. split; [done|]. split; [done|].
        intros [|j] e' Hj; simpl in Hj.
        -- injection Hj as <-. split; [lia|]. intros Hl. lia.
        -- split; [by eapply Hall|]. intros Hl. lia.
      * exists (S i), e. simpl. split; [done|]. split; [done|]. split; [lia|].
        intros [|j] e' Hj; simpl in Hj.
        -- injection Hj as <-. split; [lia|]. intros _. lia.
        -- destruct (Hmin j e' Hj) as [Hle Hfirst]. split; [done|].
           intros Hl. apply Hfirst. lia.
    + apply Z.ltb_ge in E.
      destruct (IH m n) as [[Heq Hall]|(i & e & Hi & Hres & Hlt & Hmin)].
      * left. split; [done|]. intros [|j] e Hj; simpl in Hj.
        -- by injection Hj as <-.
        -- by eapply Hall.
      * right. exists (S i), e. simpl. split; [done|]. split; [done|].
        split; [done|]. intros [|j] e' Hj; simpl in Hj.
        -- injection Hj as <-. split; [lia|]. intros _. lia.
        -- destruct (Hmin j e' Hj) as [Hle Hfirst]. split; [done|].
           intros Hl. apply Hfirst. lia.
Qed.

(** The engineer the fallback loop chooses among its candidates: the first
    one, in list order, with the smallest current workload. *)
Lemma least_loaded_fold_spec (w : gmap string Z) (l : list Engineer) :
  let chosen := (fold_left (least_loaded_step w) l (None, None)).2 in
  match l with
  | [] => chosen = None
  | _ =>
      exists i e, l !! i = Some e /\ chosen = Some (name e) /\
        forall j e', l !! j = Some e' ->
          (current_load w (name e) <= current_load w (name e'))%Z /\
          (j < i -> (current_load w (name e) < current_load w (name e'))%Z)
  end.
Proof.
  destruct l as [|x l]; simpl; [done|].
  change (least_loaded_step w (None, None) x)
    with (Some (current_load w (name x)), Some (name x)).
  destruct (least_loaded_fold_some w l (current_load w (name x)) (name x))
    as [[Heq Hall]|(i & e & Hi & Hres & Hlt & Hmin)].
  - rewrite Heq. exists 0, x. simpl. split; [done|]. split; [done|].
    intros [|j] e' Hj; simpl in Hj.
    + injection Hj as <-. split; [lia|]. intros Hl. lia.
    + split; [by eapply Hall|]. intros Hl. lia.
  - rewrite Hres. exists (S i), e. simpl. split; [done|]. split; [done|].
    intros [|j] e' Hj; simpl in Hj.
    + injection Hj as <-. split; [lia|]. intros _. lia.
    + destruct (Hmin j e' Hj) as [Hle Hfirst]. split; [done|].
      intros Hl. apply Hfirst. lia.
Qed.

Lemma fallback_candidates_spec (engs : list Engineer) :
  let available :=
    List.filter (fun e => Qeq_bool (get_availability_score e) 1) engs in
  (available = [] /\ fallback_candidates engs = engs) \/
  (available ≠ [] /\ fallback_candidates engs = available).
Proof.
  unfold fallback_candidates. simpl.
  destruct (List.filter _ engs); [by left|by right].
Qed.

Lemma fallback_candidates_subset (engs : list Engineer) (e : Engineer) :
  e ∈ fallback_candidates engs -> e ∈ engs.
Proof.
  destruct (fallback_candidates_spec engs) as [[_ ->]|[_ ->]]; [done|].
  intros H%list_elem_of_In. apply filter_In in H as [H _].
  by apply list_elem_of_In.
Qed.

Lemma fallback_candidates_nonempty (engs : list Engineer) :
  engs ≠ [] -> fallback_candidates engs ≠ [].
Proof.
  intros Hne. by destruct (fallback_candidates_spec engs) as [[_ ->]|[? ->]].
Qed.

(** ** find_best_engineer *)

(** C2. When the filter of the scoring loop leaves no engineer,
    [find_best_engineer] returns the first engineer, in roster order, with
    the smallest current workload among the available engineers, or among
    the whole roster when no engineer is available, and appends to the audit
    log one row with [is_fallback] set and a reason. *)
Theorem C2_fallback_least_loaded (self : EngineerAssignmentEngine) (t : ticket)
    (skill_weight workload_weight : Q) (allow_overflow : bool) :
  (forall e, e ∈ engineers self -> skipped self allow_overflow e = true) ->
  let available :=
    List.filter (fun e => Qeq_bool (get_availability_score e) 1) (engineers self) in
  let candidates := match available with [] => engineers self | _ => available end in
  let load := fun e => current_load (workload self) (name e) in
  let result :=
    find_best_engineer self t skill_weight workload_weight allow_overflow in
  storage result.2 = storage self ++
    [{| row_ticket_id := default "Unknown" (current_ticket_id self);
        row_assigned_engineer := result.1;
        row_is_fallback := true; row_reason := fallback_reason |}] /\
  fallback_reason ≠ "" /\
  workload result.2 = workload self /\
  (candidates = [] <-> engineers self = []) /\
  match candidates with
  | [] => result.1 = None
  | _ =>
      exists i e, candidates !! i = Some e /\ result.1 = Some (name e) /\
        forall j e', candidates !! j = Some e' ->
          (load e <= load e')%Z /\ (j < i -> (load e < load e')%Z)
  end.
Proof.
  intros Hall available candidates load result.
  assert (Hres : result =
    (least_loaded self,
     log_assignment self (default "Unknown" (current_ticket_id self))
       (least_loaded self) true fallback_reason)).
  { unfold result, find_best_engineer.
    by rewrite (score_loop_all_skipped self _ skill_weight workload_weight
                  allow_overflow Hall). }
  rewrite Hres. simpl. split; [done|]. split; [done|]. split; [done|].
  split.
  - unfold candidates, available. split.
    + intros E. pose proof (fallback_candidates_nonempty (engineers self)) as Hne.
      unfold fallback_candidates in Hne. simpl in Hne.
      destruct (engineers self) as [|x l] eqn:El; [done|].
      exfalso. apply Hne; [done|]. exact E.
    + intros ->. done.
  - apply (least_loaded_fold_spec (workload self) candidates).
Qed.

(** A witness of C2: the third ticket of the capacity scenario. *)
Lemma C2_witness :
  (find_best_engineer engine_full (network_ticket "INC3") (6 # 10) (4 # 10) false).1
  = Some "A".
Proof.
  assert (Hall : forall e, e ∈ engineers engine_full ->
                   skipped engine_full false e = true).
  { intros e He. apply list_elem_of_In in He. simpl in He.
    destruct He as [<-|[<-|[]]]; reflexivity. }
  destruct (C2_fallback_least_loaded engine_full (network_ticket "INC3")
              (6 # 10)%Q (4 # 10)%Q false Hall) as (_ & _ & _ & _ & H).
  simpl in H. destruct H as (i & e & Hi & Hres & Hmin).
  rewrite Hres. f_equal.
  destruct i as [|[|i]]; simpl in Hi; [by injection Hi as <-| |done].
  injection Hi as <-. destruct (Hmin 0 engineer_A eq_refl) as [_ Hlt].
  specialize (Hlt ltac:(lia)). vm_compute in Hlt. done.
Defined.

Lemma find_best_engineer_state (self : EngineerAssignmentEngine) (t : ticket)
    (sw ww : Q) (ao : bool) :
  let result := find_best_engineer self t sw ww ao in
  engineers result.2 = engineers self /\
  workload result.2 = workload self /\
  current_ticket_id result.2 = current_ticket_id self.
Proof.
  unfold find_best_engineer. by destruct (score_loop _ _ _ _ _).1.
Qed.

(** With a roster that is not empty, [find_best_engineer] returns the name of
    one of its engineers; with an empty roster it returns [None]. *)
Lemma find_best_engineer_name (self : EngineerAssignmentEngine) (t : ticket)
    (sw ww : Q) (ao : bool) :
  match engineers self with
  | [] => (find_best_engineer self t sw ww ao).1 = None
  | _ => exists e, e ∈ engineers self /\
           (find_best_engineer self t sw ww ao).1 = Some (name e)
  end.
Proof.
  unfold find_best_engineer.
  pose proof (score_loop_spec self (SkStr (dict_get t "ai_skills" "")) sw ww ao) as H.
  destruct (score_loop _ _ _ _ _).1 as [winner|] eqn:E.
  - destruct H as (i & e & Hi & _ & Hn & _).
    destruct (engineers self) as [|x l] eqn:El; [done|].
    exists e. split; [by eapply list_elem_of_lookup_2|]. simpl. by rewrite Hn.
  - simpl. unfold least_loaded.
    pose proof (least_loaded_fold_spec (workload self)
                  (fallback_candidates (engineers self))) as Hl.
    destruct (engineers self) as [|x l] eqn:El; [done|].
    pose proof (fallback_candidates_nonempty (x :: l) ltac:(done)) as Hne.
    destruct (fallback_candidates (x :: l)) as [|y c] eqn:Ec; [done|].
    destruct Hl as (i & e & Hi & Hc & _). exists e. split; [|done].
    apply fallback_candidates_subset. rewrite Ec.
    by eapply list_elem_of_lookup_2.
Qed.

(** ** assign_ticket *)

Lemma current_load_bump (w : gmap string Z) (n k : string) (c : Z) :
  w !! n = Some c ->
  current_load (<[n := (c + 1)%Z]> w) k
  = if decide (k = n) then (current_load w k + 1)%Z else current_load w k.
Proof.
  intros Hn. unfold current_load. destruct (decide (k = n)) as [->|Hne].
  - by rewrite lookup_insert_eq, Hn.
  - by rewrite lookup_insert_ne.
Qed.

Lemma counters_ok_insert (self : EngineerAssignmentEngine) (n : string) (c : Z) :
  counters_ok self -> counters_ok (set_workload self (<[n := c]> (workload self))).
Proof.
  unfold counters_ok. simpl. intros H. eapply Forall_impl; [exact H|].
  intros e He. simpl in He |- *.
  apply lookup_insert_is_Some. destruct (decide (n = name e)); [by left|by right].
Qed.

(** What [assign_ticket] does on an engine whose engineers all have a
    counter: it returns, writes [assigned_engineer] on the ticket, counts the
    ticket for the engineer found when that name is a true value, and keeps
    the roster. *)
Lemma assign_ticket_spec (self : EngineerAssignmentEngine) (h : store) (t : ref)
    (sw ww : Q) (ao : bool) :
  counters_ok self ->
  let d := deref h t in
  let tid := get_or (d !! "number") (get_or (d !! "key") "Unknown") in
  let found := find_best_engineer (set_current_ticket_id self tid) d sw ww ao in
  exists self' v,
    assign_ticket self h t sw ww ao
      = Some (self', setitem h t "assigned_engineer" v, t) /\
    engineers self' = engineers self /\ counters_ok self' /\
    storage self' = storage found.2 /\
    match found.1 with
    | Some n =>
        if truthy n
        then v = n /\ exists c, workload self !! n = Some c /\
               workload self' = <[n := (c + 1)%Z]> (workload self)
        else v = "Unassigned" /\ workload self' = workload self
    | None => v = "Unassigned" /\ workload self' = workload self
    end.
Proof.
  intros Hok d tid found.
  destruct (find_best_engineer_state (set_current_ticket_id self tid) d sw ww ao)
    as (Heng & Hw & _). fold found in Heng, Hw. simpl in Heng, Hw.
  assert (Hok2 : counters_ok found.2).
  { unfold counters_ok. by rewrite Heng, Hw. }
  pose proof (find_best_engineer_name (set_current_ticket_id self tid) d sw ww ao)
    as Hname. fold found in Hname. simpl in Hname.
  unfold assign_ticket. fold d tid found.
  destruct found.1 as [n|] eqn:E.
  - destruct (truthy n) eqn:Htr.
    + assert (Hn : is_Some (workload self !! n)).
      { destruct (engineers self) as [|x l] eqn:El; [done|].
        destruct Hname as (e & He & [= ->]).
        unfold counters_ok in Hok. rewrite El in Hok.
        by apply (proj1 (Forall_forall _ _) Hok e). }
      destruct Hn as [c Hc]. unfold bump. rewrite Hw, Hc.
      exists (set_workload found.2 (<[n := (c + 1)%Z]> (workload self))), n.
      split; [done|]. split; [done|]. split.
      * rewrite <- Hw. by apply counters_ok_insert.
      * split; [done|]. split; [done|]. by exists c.
    + exists found.2, "Unassigned". done.
  - exists found.2, "Unassigned". done.
Qed.

Lemma skipped_not_full (self : EngineerAssignmentEngine) (e : Engineer) :
  skipped self false e = false ->
  (current_load (workload self) (name e) < default 5 (max_workload e))%Z.
Proof.
  unfold skipped. rewrite orb_false_iff, andb_true_r. intros [_ Hw].
  unfold calculate_workload_score in Hw.
  destruct (default 5 (max_workload e) <=? current_load (workload self) (name e))%Z
    eqn:E; [done|].
  apply Z.leb_gt in E. done.
Qed.

Lemma NoDup_name_inj (l : list Engineer) (e e' : Engineer) :
  NoDup (map name l) -> e ∈ l -> e' ∈ l -> name e = name e' -> e = e'.
Proof.
  induction l as [|x l IH]; simpl; intros Hnd He He'; [by apply elem_of_nil in He|].
  apply NoDup_cons in Hnd as [Hx Hnd]. intros Hn.
  apply elem_of_cons in He as [->|He]; apply elem_of_cons in He' as [->|He'].
  - done.
  - exfalso. apply Hx. rewrite Hn. apply list_elem_of_fmap. by exists e'.
  - exfalso. apply Hx. rewrite <- Hn. apply list_elem_of_fmap. by exists e.
  - by apply IH.
Qed.

(** C1 (as the code runs). A roster of one engineer whose name is the empty
    string: the scoring loop selects that engineer, and [assign_ticket]
    takes the empty name for no engineer and writes "Unassigned". *)
Theorem C1_unassigned_despite_roster :
  engineers (__init__ [engineer_unnamed] []) ≠ [] /\
  (find_best_engineer (__init__ [engineer_unnamed] []) (network_ticket "INC1")
     (6 # 10) (4 # 10) false).1 = Some "" /\
  exists self',
    assign_ticket (__init__ [engineer_unnamed] []) {[ 0 := network_ticket "INC1" ]}
      0 (6 # 10) (4 # 10) false
    = Some (self', setitem {[ 0 := network_ticket "INC1" ]} 0
                     "assigned_engineer" "Unassigned", 0) /\
    workload self' = {[ "" := 0%Z ]}.
Proof.
  split; [done|]. split; [reflexivity|].
  eexists. split; reflexivity.
Qed.

(** With a roster that is not empty and whose names are true values,
    [assign_ticket] writes the name of an engineer of the roster. *)
Lemma assign_ticket_roster_name (self : EngineerAssignmentEngine) (h : store)
    (t : ref) (sw ww : Q) (ao : bool) :
  counters_ok self -> engineers self ≠ [] ->
  Forall (fun e => truthy (name e) = true) (engineers self) ->
  exists self' h' e,
    assign_ticket self h t sw ww ao = Some (self', h', t) /\
    engineers self' = engineers self /\ counters_ok self' /\
    e ∈ engineers self /\
    deref h' t !! "assigned_engineer" = Some (name e) /\
    exists c, workload self !! name e = Some c /\
      workload self' = <[name e := (c + 1)%Z]> (workload self).
Proof.
  intros Hok Hne Hnames.
  destruct (assign_ticket_spec self h t sw ww ao Hok)
    as (self' & v & Hrun & Heng & Hok' & _ & Hcase).
  pose proof (find_best_engineer_name
    (set_current_ticket_id self
       (get_or (deref h t !! "number") (get_or (deref h t !! "key") "Unknown")))
    (deref h t) sw ww ao) as Hname. simpl in Hname.
  destruct (engineers self) as [|x l] eqn:El; [done|].
  destruct Hname as (e & He & Hfound). rewrite Hfound in Hcase.
  rewrite (proj1 (Forall_forall _ _) Hnames e He) in Hcase.
  destruct Hcase as (-> & c & Hc & Hw).
  exists self', (setitem h t "assigned_engineer" (name e)), e.
  split; [done|]. split; [done|]. split; [done|].
  split; [done|]. split.
  - by rewrite deref_setitem_eq, lookup_insert_eq.
  - by exists c.
Qed.

Lemma score_loop_ticket_id (self : EngineerAssignmentEngine) (tid : string)
    (r : skills_arg) (sw ww : Q) (ao : bool) :
  score_loop (set_current_ticket_id self tid) r sw ww ao = score_loop self r sw ww ao.
Proof. reflexivity. Qed.

(** C5. With [allow_overflow] off, an assignment made by the scoring loop
    leaves the counter of the engineer selected at most at that engineer's
    [max_workload], and (engineer names being distinct) takes no counter of
    the roster from within its maximum to beyond it; an assignment that is
    not made by the scoring loop is a fallback, and appends a row with
    [is_fallback] set to the audit log. *)
Theorem C5_capacity_respected (self : EngineerAssignmentEngine) (h : store)
    (t : ref) (skill_weight workload_weight : Q) :
  counters_ok self ->
  exists self' h',
    assign_ticket self h t skill_weight workload_weight false = Some (self', h', t) /\
    match (score_loop self (SkStr (dict_get (deref h t) "ai_skills" ""))
                      skill_weight workload_weight false).1 with
    | Some winner =>
        storage self' = storage self /\
        (exists e, e ∈ engineers self /\ name e = winner /\
           skipped self false e = false /\
           (current_load (workload self') winner <= default 5 (max_workload e))%Z) /\
        (NoDup (map name (engineers self)) ->
         forall e, e ∈ engineers self ->
           (current_load (workload self) (name e) <= default 5 (max_workload e))%Z ->
           (current_load (workload self') (name e) <= default 5 (max_workload e))%Z)
    | None =>
        exists row, storage self' = storage self ++ [row] /\
          row_is_fallback row = true /\ row_reason row = fallback_reason /\
          row_assigned_engineer row = least_loaded self
    end.
Proof.
  intros Hok.
  destruct (assign_ticket_spec self h t skill_weight workload_weight false Hok)
    as (self' & v & Hrun & Heng & Hok' & Hst & Hcase).
  exists self', (setitem h t "assigned_engineer" v). split; [done|].
  unfold find_best_engineer in Hst, Hcase.
  rewrite score_loop_ticket_id in Hst, Hcase.
  pose proof (score_loop_spec self (SkStr (dict_get (deref h t) "ai_skills" ""))
                skill_weight workload_weight false) as Hloop.
  destruct (score_loop self _ skill_weight workload_weight false).1
    as [winner|] eqn:E; simpl in Hst, Hcase.
  - destruct Hloop as (i & e & Hi & Hskip & Hn & _).
    pose proof (skipped_not_full self e Hskip) as Hroom. rewrite Hn in Hroom.
    assert (He : e ∈ engineers self) by (by eapply list_elem_of_lookup_2).
    assert (Hafter : forall k,
      current_load (workload self') k
      = if decide (k = winner)
        then if truthy winner then (current_load (workload self) k + 1)%Z
             else current_load (workload self) k
        else current_load (workload self) k).
    { intros k. destruct (truthy winner).
      - destruct Hcase as (_ & c & Hc & ->). by apply current_load_bump.
      - destruct Hcase as [_ ->]. by destruct (decide (k = winner)). }
    split; [done|]. split.
    + exists e. split; [done|]. split; [done|]. split; [done|].
      rewrite Hafter. rewrite decide_True by done. destruct (truthy winner); lia.
    + intros Hnd e' He' Hle. rewrite Hafter.
      destruct (decide (name e' = winner)) as [Hw|Hw]; [|done].
      assert (e' = e) as -> by (apply (NoDup_name_inj (engineers self)); congruence).
      rewrite Hn. destruct (truthy winner); lia.
  - eexists. split; [exact Hst|]. done.
Qed.

(** A witness of C5: the first ticket of the capacity scenario. *)
Lemma C5_witness :
  exists self' h',
    assign_ticket (__init__ [engineer_A; engineer_B] [])
      {[ 0 := network_ticket "INC1" ]} 0 (6 # 10) (4 # 10) false
    = Some (self', h', 0).
Proof.
  assert (Hok : counters_ok (__init__ [engineer_A; engineer_B] [])).
  { repeat constructor; vm_compute; eauto. }
  destruct (C5_capacity_respected (__init__ [engineer_A; engineer_B] [])
              {[ 0 := network_ticket "INC1" ]} 0 (6 # 10)%Q (4 # 10)%Q Hok)
    as (self' & h' & Hrun & _).
  by exists self', h'.
Defined.

(** ** The stable sort *)

Section Sorting.
Context {A : Type} (key : A -> Z).

Lemma insert_by_perm (x : A) (l : list A) : insert_by key x l ≡ₚ x :: l.
Proof.
  induction l as [|y l IH]; simpl; [done|].
  destruct (key x <=? key y)%Z; [done|].
  rewrite IH. apply Permutation_swap.
Qed.

Lemma sorted_perm (l : list A) : sorted key l ≡ₚ l.
Proof.
  induction l as [|x l IH]; simpl; [done|].
  by rewrite insert_by_perm, IH.
Qed.

Lemma insert_by_sorted (x : A) (l : list A) :
  StronglySorted (fun a b => (key a <= key b)%Z) l ->
  StronglySorted (fun a b => (key a <= key b)%Z) (insert_by key x l).
Proof.
  induction 1 as [|y l Hl IH Hy]; simpl.
  - repeat constructor.
  - destruct (key x <=? key y)%Z eqn:E.
    + apply Z.leb_le in E. constructor; [by constructor|].
      constructor; [done|]. eapply Forall_impl; [exact Hy|].
      intros z Hz. simpl in Hz. lia.
    + apply Z.leb_gt in E. constructor; [done|].
      rewrite insert_by_perm. constructor; [lia|done].
Qed.

Lemma sorted_sorted (l : list A) :
  StronglySorted (fun a b => (key a <= key b)%Z) (sorted key l).
Proof.
  induction l as [|x l IH]; simpl; [constructor|]. by apply insert_by_sorted.
Qed.

Lemma insert_by_stable (k : Z) (x : A) (l : list A) :
  List.filter (fun a => (key a =? k)%Z) (insert_by key x l)
  = List.filter (fun a => (key a =? k)%Z) (x :: l).
Proof.
  induction l as [|y l IH]; simpl; [done|].
  destruct (key x <=? key y)%Z eqn:E; [done|].
  apply Z.leb_gt in E. simpl in IH |- *. rewrite IH.
  destruct (key y =? k)%Z eqn:Ey, (key x =? k)%Z eqn:Ex; try done.
  apply Z.eqb_eq in Ey, Ex. lia.
Qed.

(** The sort is stable: the elements of one key keep their order. *)
Lemma sorted_stable (k : Z) (l : list A) :
  List.filter (fun a => (key a =? k)%Z) (sorted key l)
  = List.filter (fun a => (key a =? k)%Z) l.
Proof.
  induction l as [|x l IH]; simpl; [done|].
  rewrite insert_by_stable. simpl. by rewrite IH.
Qed.

Lemma sorted_length (l : list A) : length (sorted key l) = length l.
Proof. by rewrite sorted_perm. Qed.

End Sorting.

(** ** Workload counters *)

Lemma zero_workload_fold (engs : list Engineer) (w0 : gmap string Z) (n : string) :
  fold_left (fun w e => <[name e := 0%Z]> w) engs w0 !! n
  = if decide (n ∈ map name engs) then Some 0%Z else w0 !! n.
Proof.
  revert w0. induction engs as [|x engs IH]; intros w0; simpl.
  - done.
  - rewrite IH.
    destruct (decide (n ∈ map name engs)) as [Hin|Hnin];
      destruct (decide (n ∈ name x :: map name engs)) as [Hc|Hc].
    + done.
    + exfalso. apply Hc. by right.
    + apply elem_of_cons in Hc as [->|?]; [by rewrite lookup_insert_eq|done].
    + rewrite lookup_insert_ne; [done|]. intros <-. apply Hc. by left.
Qed.

Lemma zero_workload_lookup (engs : list Engineer) (n : string) :
  zero_workload engs !! n = if decide (n ∈ map name engs) then Some 0%Z else None.
Proof. unfold zero_workload. by rewrite zero_workload_fold, lookup_empty. Qed.

Lemma counters_ok_reset (self : EngineerAssignmentEngine) :
  counters_ok (reset_workload self).
Proof.
  unfold counters_ok. simpl. apply Forall_forall. intros e He.
  rewrite zero_workload_lookup, decide_True; [done|].
  apply list_elem_of_fmap. by exists e.
Qed.

Lemma counters_ok_init (engs : list Engineer) (log : list assignment_row) :
  counters_ok (__init__ engs log).
Proof.
  unfold counters_ok. simpl. apply Forall_forall. intros e He.
  rewrite zero_workload_lookup, decide_True; [done|].
  apply list_elem_of_fmap. by exists e.
Qed.

Lemma workload_sum_insert_new (w : gmap string Z) (n : string) (v : Z) :
  w !! n = None -> workload_sum (<[n := v]> w) = (v + workload_sum w)%Z.
Proof.
  intros Hn. unfold workload_sum. rewrite map_fold_insert_L; [done| |done].
  intros. lia.
Qed.

Lemma workload_sum_bump (w : gmap string Z) (n : string) (c : Z) :
  w !! n = Some c ->
  workload_sum (<[n := (c + 1)%Z]> w) = (workload_sum w + 1)%Z.
Proof.
  intros Hn. rewrite <- (insert_delete_id w n c Hn) at 2.
  rewrite <- (insert_delete_eq w n (c + 1)%Z).
  rewrite !workload_sum_insert_new by apply lookup_delete_eq. lia.
Qed.

Lemma workload_sum_zero (w : gmap string Z) :
  (forall k v, w !! k = Some v -> v = 0%Z) -> workload_sum w = 0%Z.
Proof.
  induction w as [|n v w Hn IH] using map_ind; intros Hall.
  - done.
  - rewrite workload_sum_insert_new by done.
    rewrite (Hall n v) by apply lookup_insert_eq. rewrite IH; [done|].
    intros k u Hk. apply (Hall k). rewrite lookup_insert_ne; [done|].
    intros ->. congruence.
Qed.

Lemma workload_sum_reset (self : EngineerAssignmentEngine) :
  workload_sum (workload (reset_workload self)) = 0%Z.
Proof.
  apply workload_sum_zero. intros k v. simpl. rewrite zero_workload_lookup.
  destruct (decide _); congruence.
Qed.

(** ** assign_tickets *)

Lemma setitem_frame (h : store) (t r : ref) (k k' v : string) :
  k' ≠ k -> deref (setitem h t k v) r !! k' = deref h r !! k'.
Proof.
  intros Hk. destruct (decide (t = r)) as [->|Hne].
  - by rewrite deref_setitem_eq, lookup_insert_ne.
  - by rewrite deref_setitem_ne.
Qed.

Lemma setitem_keeps (h : store) (t r : ref) (k v : string) :
  is_Some (deref h r !! k) -> is_Some (deref (setitem h t k v) r !! k).
Proof.
  intros Hs. destruct (decide (t = r)) as [->|Hne].
  - rewrite deref_setitem_eq, lookup_insert_eq. eauto.
  - by rewrite deref_setitem_ne.
Qed.

(** The assignment loop returns the references it was given, in their
    order; every ticket of the list then has [assigned_engineer], and no
    other key of any record has changed. *)
Lemma assign_each_spec (l : list ref) (self : EngineerAssignmentEngine)
    (h : store) (sw ww : Q) (ao : bool) :
  counters_ok self ->
  exists self' h',
    assign_each self h l sw ww ao = Some (self', h', l) /\
    engineers self' = engineers self /\ counters_ok self' /\
    (forall r, r ∈ l -> is_Some (deref h' r !! "assigned_engineer")) /\
    (forall r, is_Some (deref h r !! "assigned_engineer") ->
               is_Some (deref h' r !! "assigned_engineer")) /\
    (forall r k, k ≠ "assigned_engineer" -> deref h' r !! k = deref h r !! k).
Proof.
  revert self h. induction l as [|t l IH]; intros self h Hok; simpl.
  - exists self, h. split; [done|]. split; [done|]. split; [done|].
    split; [|done]. intros r Hr. by apply elem_of_nil in Hr.
  - destruct (assign_ticket_spec self h t sw ww ao Hok)
      as (self1 & v & Hrun & Heng1 & Hok1 & _ & _).
    rewrite Hrun.
    destruct (IH self1 (setitem h t "assigned_engineer" v) Hok1)
      as (self2 & h2 & Hrun2 & Heng2 & Hok2 & Hset & Hkeep & Hframe).
    rewrite Hrun2. exists self2, h2.
    split; [done|]. split; [congruence|]. split; [done|]. split; [|split].
    + intros r [->|Hr]%elem_of_cons; [|by apply Hset].
      apply Hkeep. rewrite deref_setitem_eq, lookup_insert_eq. eauto.
    + intros r Hr. apply Hkeep. by apply setitem_keeps.
    + intros r k Hk. rewrite Hframe by done. by apply setitem_frame.
Qed.

Lemma priority_key_spec (h : store) (r : ref) :
  priority_key h r =
  match deref h r !! "ai_priority" with
  | Some p => if String.eqb p "High" then 0%Z
              else if String.eqb p "Low" then 2%Z else 1%Z
  | None => 1%Z
  end.
Proof.
  unfold priority_key, priority_order, dict_get.
  destruct (deref h r !! "ai_priority") as [p|]; simpl; [|done].
  destruct (String.eqb p "High"); [done|].
  destruct (String.eqb p "Medium") eqn:E.
  - apply String.eqb_eq in E as ->. done.
  - by destruct (String.eqb p "Low").
Qed.

(** C7. [assign_tickets] returns the tickets in the order of a stable sort on
    the rank of [ai_priority] (High 0, Medium 1, Low 2, anything else 1): a
    rearrangement of the input, ranks never decreasing, tickets of one rank
    in their input order; it assigns them in that order, and every ticket
    returned has [assigned_engineer]. *)
Theorem C7_batch_stable_priority_order (self : EngineerAssignmentEngine)
    (h : store) (tickets : list ref) (skill_weight workload_weight : Q)
    (reset allow_overflow : bool) :
  (reset = false -> counters_ok self) ->
  let key := priority_key h in
  let out := sorted key tickets in
  (forall r, key r =
     match deref h r !! "ai_priority" with
     | Some p => if String.eqb p "High" then 0%Z
                 else if String.eqb p "Low" then 2%Z else 1%Z
     | None => 1%Z
     end) /\
  out ≡ₚ tickets /\
  StronglySorted (fun a b => (key a <= key b)%Z) out /\
  (forall k, List.filter (fun a => (key a =? k)%Z) out
             = List.filter (fun a => (key a =? k)%Z) tickets) /\
  exists self' h',
    assign_tickets self h tickets skill_weight workload_weight reset allow_overflow
      = Some (self', h', out) /\
    assign_each (if reset then reset_workload self else self) h out
                skill_weight workload_weight allow_overflow
      = Some (self', h', out) /\
    (forall r, r ∈ out -> is_Some (deref h' r !! "assigned_engineer")) /\
    (forall r, priority_key h' r = key r).
Proof.
  intros Hok key out.
  split; [intros r; apply priority_key_spec|].
  split; [apply sorted_perm|]. split; [apply sorted_sorted|].
  split; [intros k; apply sorted_stable|].
  assert (Hok1 : counters_ok (if reset then reset_workload self else self)).
  { destruct reset; [apply counters_ok_reset|by apply Hok]. }
  destruct (assign_each_spec out _ h skill_weight workload_weight allow_overflow Hok1)
    as (self' & h' & Hrun & _ & _ & Hset & _ & Hframe).
  exists self', h'. split; [exact Hrun|]. split; [exact Hrun|]. split; [done|].
  intros r. unfold key, priority_key, dict_get. by rewrite Hframe.
Qed.

(** A witness of C7: a batch of four tickets, without reset. *)
Lemma C7_witness :
  exists self' h',
    assign_tickets (__init__ [engineer_A; engineer_B] []) mixed_batch [0; 1; 2; 3]
      (6 # 10) (4 # 10) false false
    = Some (self', h', [1; 3; 2; 0]).
Proof.
  assert (Hok : false = false -> counters_ok (__init__ [engineer_A; engineer_B] [])).
  { intros _. repeat constructor; vm_compute; eauto. }
  destruct (C7_batch_stable_priority_order (__init__ [engineer_A; engineer_B] [])
              mixed_batch [0; 1; 2; 3] (6 # 10)%Q (4 # 10)%Q false false Hok)
    as (_ & _ & _ & _ & self' & h' & Hrun & _).
  exists self', h'. exact Hrun.
Defined.

(** ** Workload conservation *)

Lemma assign_each_sum (l : list ref) (self : EngineerAssignmentEngine)
    (h : store) (sw ww : Q) (ao : bool) :
  counters_ok self -> engineers self ≠ [] ->
  Forall (fun e => truthy (name e) = true) (engineers self) ->
  exists self' h',
    assign_each self h l sw ww ao = Some (self', h', l) /\
    workload_sum (workload self')
    = (workload_sum (workload self) + Z.of_nat (length l))%Z.
Proof.
  revert self h. induction l as [|t l IH]; intros self h Hok Hne Hnames.
  - exists self, h. split; [done|]. simpl. lia.
  - destruct (assign_ticket_roster_name self h t sw ww ao Hok Hne Hnames)
      as (self1 & h1 & e & Hrun & Heng & Hok1 & _ & _ & c & Hc & Hw).
    assert (Hne1 : engineers self1 ≠ []) by (by rewrite Heng).
    assert (Hnames1 : Forall (fun e => truthy (name e) = true) (engineers self1))
      by (by rewrite Heng).
    destruct (IH self1 h1 Hok1 Hne1 Hnames1) as (self2 & h2 & Hrun2 & Hsum).
    exists self2, h2. simpl. rewrite Hrun, Hrun2. split; [done|].
    rewrite Hsum, Hw, (workload_sum_bump _ _ _ Hc). lia.
Qed.

Lemma assign_ticket_store (self self' : EngineerAssignmentEngine)
    (h h' : store) (t t' : ref) (sw ww : Q) (ao : bool) :
  assign_ticket self h t sw ww ao = Some (self', h', t') ->
  t' = t /\ exists v, h' = setitem h t "assigned_engineer" v.
Proof.
  unfold assign_ticket. destruct (find_best_engineer _ _ _ _ _).1 as [n|].
  - destruct (truthy n).
    + destruct (bump _ n); [|done]. intros [= _ <- <-]. eauto.
    + intros [= _ <- <-]. eauto.
  - intros [= _ <- <-]. eauto.
Qed.

(** A record that is not in the batch is not touched. *)
Lemma assign_each_other (l : list ref) (r : ref)
    (self self' : EngineerAssignmentEngine) (h h' : store) (out : list ref)
    (sw ww : Q) (ao : bool) :
  r ∉ l -> assign_each self h l sw ww ao = Some (self', h', out) ->
  deref h' r = deref h r.
Proof.
  revert self self' h h' out.
  induction l as [|x l IH]; intros self self' h h' out Hr Hrun; simpl in Hrun.
  - by injection Hrun as _ <- _.
  - apply not_elem_of_cons in Hr as [Hx Hr].
    destruct (assign_ticket self h x sw ww ao) as [[[s1 h1] t1]|] eqn:E1; [|done].
    destruct (assign_each s1 h1 l sw ww ao) as [[[s2 h2] o2]|] eqn:E2; [|done].
    injection Hrun as _ <- _.
    apply assign_ticket_store in E1 as (_ & v & ->).
    rewrite (IH _ _ _ _ _ Hr E2). by rewrite deref_setitem_ne.
Qed.

(** With an empty roster the loop marks every ticket "Unassigned" and
    counts nothing. *)
Lemma assign_each_empty_roster (l : list ref) (self : EngineerAssignmentEngine)
    (h : store) (sw ww : Q) (ao : bool) :
  engineers self = [] ->
  exists self' h',
    assign_each self h l sw ww ao = Some (self', h', l) /\
    workload self' = workload self /\
    forall r, r ∈ l -> deref h' r !! "assigned_engineer" = Some "Unassigned".
Proof.
  revert self h. induction l as [|t l IH]; intros self h Hnil.
  - exists self, h. split; [done|]. split; [done|].
    intros r Hr. by apply elem_of_nil in Hr.
  - assert (Hok : counters_ok self) by (unfold counters_ok; rewrite Hnil; constructor).
    destruct (assign_ticket_spec self h t sw ww ao Hok)
      as (self1 & v & Hrun & Heng1 & _ & _ & Hcase).
    pose proof (find_best_engineer_name
      (set_current_ticket_id self
         (get_or (deref h t !! "number") (get_or (deref h t !! "key") "Unknown")))
      (deref h t) sw ww ao) as Hname. simpl in Hname. rewrite Hnil in Hname.
    rewrite Hname in Hcase. destruct Hcase as [-> Hw].
    assert (Hnil1 : engineers self1 = []) by congruence.
    destruct (IH self1 (setitem h t "assigned_engineer" "Unassigned") Hnil1)
      as (self2 & h2 & Hrun2 & Hw2 & Hun).
    exists self2, h2. simpl. rewrite Hrun, Hrun2. split; [done|].
    split; [congruence|]. intros r [->|Hr]%elem_of_cons; [|by apply Hun].
    destruct (decide (t ∈ l)) as [Hin|Hnin]; [by apply Hun|].
    rewrite (assign_each_other l t _ _ _ _ _ sw ww ao Hnin Hrun2).
    by rewrite deref_setitem_eq, lookup_insert_eq.
Qed.

(** C8 as stated fails: with an empty roster a batch of one ticket leaves the
    sum of the counters at 0. *)
Lemma C8_counterexample :
  ~ (forall (self : EngineerAssignmentEngine) (h : store) (tickets : list ref)
            (sw ww : Q) (ao : bool) self' h' out,
       assign_tickets self h tickets sw ww true ao = Some (self', h', out) ->
       workload_sum (workload self') = Z.of_nat (length tickets)).
Proof.
  intros H.
  specialize (H (__init__ [] []) {[ 0 := network_ticket "INC1" ]} [0]
                (6 # 10)%Q (4 # 10)%Q false _ _ _ eq_refl).
  vm_compute in H. discriminate H.
Qed.

(** C8, amended. With a roster that is not empty and whose engineers have
    non-empty names, a batch run with [reset_workload] on leaves the sum of
    the workload counters equal to the number of tickets of the batch. *)
Theorem C8_workload_conservation (self : EngineerAssignmentEngine) (h : store)
    (tickets : list ref) (skill_weight workload_weight : Q)
    (allow_overflow : bool) :
  engineers self ≠ [] ->
  Forall (fun e => name e ≠ "") (engineers self) ->
  exists self' h' out,
    assign_tickets self h tickets skill_weight workload_weight true allow_overflow
      = Some (self', h', out) /\
    length out = length tickets /\
    workload_sum (workload self') = Z.of_nat (length tickets).
Proof.
  intros Hne Hnames. unfold assign_tickets.
  assert (Htruthy : Forall (fun e => truthy (name e) = true)
                      (engineers (reset_workload self))).
  { simpl. eapply Forall_impl; [exact Hnames|]. intros e He. simpl in He.
    by destruct (name e). }
  destruct (assign_each_sum (sorted (priority_key h) tickets) (reset_workload self)
              h skill_weight workload_weight allow_overflow
              (counters_ok_reset self) Hne Htruthy)
    as (self' & h' & Hrun & Hsum).
  exists self', h', (sorted (priority_key h) tickets).
  split; [exact Hrun|]. split; [apply sorted_length|].
  by rewrite Hsum, workload_sum_reset, sorted_length.
Qed.

(** A witness of the amended C8: four tickets, two engineers. *)
Lemma C8_witness :
  exists self' h' out,
    assign_tickets (__init__ [engineer_A; engineer_B] []) mixed_batch [0; 1; 2; 3]
      (6 # 10) (4 # 10) true false = Some (self', h', out) /\
    length out = 4 /\ workload_sum (workload self') = 4%Z.
Proof.
  apply (C8_workload_conservation (__init__ [engineer_A; engineer_B] [])
           mixed_batch [0; 1; 2; 3] (6 # 10)%Q (4 # 10)%Q false).
  - simpl. done.
  - simpl. repeat constructor; done.
Defined.

(** ** The scenarios of the specification *)

Example scenario_S1 :
  mock_category "VPN connection failing intermittently" "" = "Network" /\
  mock_priority "VPN connection failing intermittently" "" = "Medium" /\
  mock_skills "VPN connection failing intermittently" "" = "Network, Security" /\
  mock_summary "VPN connection failing intermittently" ""
  = "Network issue: VPN connection failing intermittently...".
Proof. repeat split; reflexivity. Qed.

Example scenario_S2 :
  mock_category "Production database down, urgent" "" = "Database" /\
  mock_priority "Production database down, urgent" "" = "High" /\
  mock_skills "Production database down, urgent" "" = "Database, Backend".
Proof. repeat split; reflexivity. Qed.

Example scenario_S3 :
  mock_category "Hello world" "" = "Other" /\
  mock_priority "Hello world" "" = "Medium" /\
  mock_skills "Hello world" "" = "DevOps, Backend".
Proof. repeat split; reflexivity. Qed.

(** S5: three tickets, two engineers with room for one each; the third
    ticket goes to A through the fallback, with one audit row. *)
Example scenario_S5 :
  match assign_tickets (__init__ [engineer_A; engineer_B] [])
          {[ 0 := network_ticket "INC1"; 1 := network_ticket "INC2";
             2 := network_ticket "INC3" ]} [0; 1; 2] (6 # 10) (4 # 10) true false
  with
  | Some (self', h', out) =>
      out = [0; 1; 2] /\
      map (fun r => deref h' r !! "assigned_engineer") out
      = [Some "A"; Some "B"; Some "A"] /\
      storage self' =
        [{| row_ticket_id := "INC3"; row_assigned_engineer := Some "A";
            row_is_fallback := true; row_reason := fallback_reason |}]
  | None => False
  end.
Proof. vm_compute. repeat split; reflexivity. Qed.

(** S6: the same batch with [allow_overflow]; no audit row. *)
Example scenario_S6 :
  match assign_tickets (__init__ [engineer_A; engineer_B] [])
          {[ 0 := network_ticket "INC1"; 1 := network_ticket "INC2";
             2 := network_ticket "INC3" ]} [0; 1; 2] (6 # 10) (4 # 10) true true
  with
  | Some (self', h', out) =>
      out = [0; 1; 2] /\
      map (fun r => deref h' r !! "assigned_engineer") out
      = [Some "A"; Some "B"; Some "A"] /\
      storage self' = []
  | None => False
  end.
Proof. vm_compute. repeat split; reflexivity. Qed.

(** S4: A matches both skills, B none; A wins with 1.0 against 0.5. *)
Example scenario_S4 :
  let A := {| name := "A"; skills := Some ["Network"; "Security"];
              availability := Some "available"; max_workload := Some 2%Z |} in
  let B := {| name := "B"; skills := Some ["Database"];
              availability := Some "available"; max_workload := Some 2%Z |} in
  let engine := __init__ [A; B] [] in
  let required := SkStr "Network, Security" in
  (combined_score engine required (6 # 10) (4 # 10) A == 1)%Q /\
  (combined_score engine required (6 # 10) (4 # 10) B == 1 # 2)%Q /\
  (find_best_engineer engine (network_ticket "INC1") (6 # 10) (4 # 10) false).1
  = Some "A".
Proof. repeat split; reflexivity. Qed.

(** * Further properties of the classifier *)

Lemma mock_category_taxonomy (summary description : string) :
  mock_category summary description ∈ CATEGORIES.
Proof.
  unfold mock_category.
  destruct (category_loop_spec (combined_text summary description) CATEGORY_KEYWORDS)
    as [[-> _]|(i & kws & Hi & _)].
  - unfold CATEGORIES. repeat (first [by left|right]).
  - rewrite <- category_table_order. apply list_elem_of_fmap.
    exists ((category_loop CATEGORY_KEYWORDS (combined_text summary description)).1, kws).
    split; [done|]. by eapply list_elem_of_lookup_2.
Qed.

Lemma category_skills_total (c : string) :
  c ∈ CATEGORIES ->
  exists skills, (c, skills) ∈ CATEGORY_SKILLS /\ skills ≠ [] /\
    table_get CATEGORY_SKILLS c ["Other"] = skills.
Proof.
  unfold CATEGORIES. intros Hin.
  repeat (apply elem_of_cons in Hin as [->|Hin]);
    [eexists; split; [|split; [|reflexivity]];
       [apply list_elem_of_In; simpl; tauto|done]..|].
  by apply elem_of_nil in Hin.
Qed.

(** The category the rule-based classifier computes is always one of the
    eight of the taxonomy, so the skills it writes are the ones the table
    lists for that category: the default of the table lookup is never used. *)
Theorem mock_skills_from_table (summary description : string) :
  mock_category summary description ∈ CATEGORIES /\
  exists skills,
    (mock_category summary description, skills) ∈ CATEGORY_SKILLS /\
    skills ≠ [] /\
    mock_skills summary description = join ", " skills.
Proof.
  split; [apply mock_category_taxonomy|].
  destruct (category_skills_total _ (mock_category_taxonomy summary description))
    as (skills & Hin & Hne & Hget).
  exists skills. split; [done|]. split; [done|].
  unfold mock_skills. by rewrite Hget.
Qed.

Lemma mock_priority_tier (summary description : string) :
  mock_priority summary description ∈ ["High"; "Medium"; "Low"].
Proof.
  unfold mock_priority.
  destruct (priority_loop_spec (combined_text summary description) PRIORITY_KEYWORDS)
    as [[-> _]|(i & kws & Hi & _)].
  - right. by left.
  - rewrite <- priority_table_order. apply list_elem_of_fmap.
    exists (priority_loop PRIORITY_KEYWORDS (combined_text summary description), kws).
    split; [done|]. by eapply list_elem_of_lookup_2.
Qed.

Lemma category_skills_tokens (c : string) :
  table_get CATEGORY_SKILLS c ["Other"] ≠ [] /\
  Forall (fun x => skill_token x = true) (table_get CATEGORY_SKILLS c ["Other"]).
Proof.
  unfold CATEGORY_SKILLS. cbn [table_get].
  repeat (destruct (String.eqb _ c); [split; [done|repeat constructor]|]).
  split; [done|repeat constructor].
Qed.

Lemma append_nonempty_r (a b : string) : b ≠ "" -> a +:+ b ≠ "".
Proof.
  intros Hb. destruct a as [|c a]; [by rewrite append_nil_l|].
  by rewrite append_cons.
Qed.

Lemma join_nonempty (sep : string) (l : list string) :
  l ≠ [] -> Forall (fun x => x ≠ "") l -> join sep l ≠ "".
Proof.
  destruct l as [|x [|y l]]; [done| |].
  - intros _ [Hx _]%Forall_cons. done.
  - intros _ [Hx _]%Forall_cons.
    change (join sep (x :: y :: l)) with (x +:+ sep +:+ join sep (y :: l)).
    destruct x as [|c x]; [done|]. by rewrite append_cons.
Qed.

(** Classifier totality: whatever the title and the description, the
    rule-based classifier leaves on the record a category of the taxonomy, a
    priority among High, Medium and Low, and non-empty skills, summary and
    method. *)
Theorem mock_triage_total (h : store) (t : ref) (summary description : string) :
  let d := deref (_triage_with_mock h t summary description).1 t in
  exists c p sk sm,
    d !! "ai_category" = Some c /\ c ∈ CATEGORIES /\
    d !! "ai_priority" = Some p /\ p ∈ ["High"; "Medium"; "Low"] /\
    d !! "ai_skills" = Some sk /\ sk ≠ "" /\
    d !! "ai_summary" = Some sm /\ sm ≠ "" /\
    d !! "triage_method" = Some "Mock Rule-Based".
Proof.
  intros d. unfold d. rewrite triage_with_mock_record.
  exists (mock_category summary description), (mock_priority summary description),
    (mock_skills summary description), (mock_summary summary description).
  split; [by rewrite !lookup_insert_ne, lookup_insert_eq by done|].
  split; [apply mock_category_taxonomy|].
  split; [by rewrite !lookup_insert_ne, lookup_insert_eq by done|].
  split; [apply mock_priority_tier|].
  split; [by rewrite !lookup_insert_ne, lookup_insert_eq by done|].
  split.
  { destruct (category_skills_tokens (mock_category summary description))
      as [Hne Htok].
    unfold mock_skills. apply join_nonempty; [done|].
    eapply Forall_impl; [exact Htok|]. intros x Hx ->. done. }
  split; [by rewrite !lookup_insert_ne, lookup_insert_eq by done|].
  split.
  { unfold mock_summary. apply append_nonempty_r. done. }
  by rewrite lookup_insert_eq.
Qed.

Lemma lower_app (a b : string) : lower (a +:+ b) = lower a +:+ lower b.
Proof.
  induction a as [|c a IH]; [done|]. rewrite !append_cons. simpl.
  by rewrite IH, append_cons.
Qed.

Lemma combined_text_lower (summary description : string) :
  combined_text summary description = lower summary +:+ " " +:+ lower description.
Proof. unfold combined_text. by rewrite !lower_app. Qed.

(** The classification is case-insensitive: two tickets whose titles and
    descriptions differ only in the case of their letters get the same
    category, priority and skills. *)
Theorem mock_triage_case_insensitive (summary summary' description description' : string) :
  lower summary = lower summary' ->
  lower description = lower description' ->
  mock_category summary description = mock_category summary' description' /\
  mock_priority summary description = mock_priority summary' description' /\
  mock_skills summary description = mock_skills summary' description'.
Proof.
  intros Hs Hd.
  assert (Ht : combined_text summary description
               = combined_text summary' description')
    by (by rewrite !combined_text_lower, Hs, Hd).
  unfold mock_skills, mock_category, mock_priority. by rewrite Ht.
Qed.

Lemma mock_triage_case_insensitive_witness :
  mock_category "VPN Down" "URGENT" = mock_category "vpn down" "urgent" /\
  mock_priority "VPN Down" "URGENT" = mock_priority "vpn down" "urgent" /\
  mock_skills "VPN Down" "URGENT" = mock_skills "vpn down" "urgent".
Proof.
  apply (mock_triage_case_insensitive "VPN Down" "vpn down" "URGENT" "urgent");
    reflexivity.
Defined.

(** The skills the classifier writes are read back by the assignment engine
    as the set of the category's skills in lower case, which is not empty: on
    a ticket classified by rule the skill score is the share of these skills
    the engineer has, never the neutral 0.5. *)
Theorem mock_skills_read_back (engineer : Engineer) (summary description : string) :
  let skills := table_get CATEGORY_SKILLS (mock_category summary description) ["Other"] in
  let required : gset string := list_to_set (map lower skills) in
  required_skills_set (SkStr (mock_skills summary description)) = required /\
  required ≠ ∅ /\
  calculate_skill_match_score engineer (SkStr (mock_skills summary description))
  = (inject_Z (Z.of_nat (size (engineer_skills engineer ∩ required))) /
     inject_Z (Z.of_nat (size required)))%Q.
Proof.
  intros skills required.
  destruct (category_skills_tokens (mock_category summary description))
    as [Hne Htok]. fold skills in Hne, Htok.
  assert (Hset : required_skills_set (SkStr (mock_skills summary description))
                 = required).
  { unfold mock_skills. fold skills. destruct skills as [|t r] eqn:E; [done|].
    apply (required_of_comma_string t r Htok). }
  assert (Hreq : required ≠ ∅).
  { unfold required. destruct skills as [|t r]; [done|]. simpl.
    intros Hemp.
    assert (lower t ∈ (∅ : gset string)) as Hin; [|by apply elem_of_empty in Hin].
    rewrite <- Hemp. apply elem_of_union_l. by apply elem_of_singleton. }
  split; [done|]. split; [done|].
  unfold calculate_skill_match_score.
  assert (Htr : arg_truthy (SkStr (mock_skills summary description)) = true).
  { unfold arg_truthy, mock_skills. fold skills.
    assert (join ", " skills ≠ "") as Hj.
    { apply join_nonempty; [done|]. eapply Forall_impl; [exact Htok|].
      intros x Hx ->. done. }
    by destruct (join ", " skills). }
  rewrite Htr, Hset. simpl negb. cbv iota.
  destruct (decide (size required = 0)) as [Hz|_]; [|done].
  apply size_empty_iff in Hz. apply leibniz_equiv in Hz. done.
Qed.

Lemma length_append (a b : string) :
  String.length (a +:+ b) = String.length a + String.length b.
Proof.
  induction a as [|c a IH]; [done|]. rewrite append_cons. simpl. by rewrite IH.
Qed.

Lemma take_length (n : nat) (s : string) :
  String.length (take n s) = Nat.min n (String.length s).
Proof.
  revert s. induction n as [|n IH]; intros [|c s]; simpl; [done..|].
  by rewrite IH.
Qed.

Lemma take_all (n : nat) (s : string) : String.length s <= n -> take n s = s.
Proof.
  revert s. induction n as [|n IH]; intros [|c s]; simpl; [done|lia|done|].
  intros Hl. rewrite IH; [done|lia].
Qed.

(** The summary the classifier writes has at most 99 characters, keeps a
    title of at most 80 characters whole, and always ends with the dots,
    whether the title was cut or not. *)
Theorem mock_summary_bounded (summary description : string) :
  String.length (mock_summary summary description) <= 99 /\
  mock_summary summary description
  = (mock_category summary description +:+ " issue: " +:+ take 80 summary) +:+ "..." /\
  (String.length summary <= 80 -> take 80 summary = summary) /\
  (80 < String.length summary -> String.length (take 80 summary) = 80).
Proof.
  split; [|split; [|split]].
  - unfold mock_summary. rewrite !length_append, take_length.
    assert (String.length (mock_category summary description) <= 8).
    { pose proof (mock_category_taxonomy summary description) as Hin.
      revert Hin. generalize (mock_category summary description). intros c.
      unfold CATEGORIES. intros Hin.
      repeat (apply elem_of_cons in Hin as [->|Hin]); [simpl; lia..|].
      by apply elem_of_nil in Hin. }
    change (String.length " issue: ") with 8.
    change (String.length "...") with 3. lia.
  - unfold mock_summary. by rewrite !append_assoc.
  - apply take_all.
  - intros Hl. rewrite take_length. lia.
Qed.

(** ** triage_ticket and batch_triage, whichever backend answers *)

(** The five item assignments both classifiers end with. *)
Lemma enrich_record (h : store) (t : ref) (v1 v2 v3 v4 v5 : string) :
  let h' := setitem (setitem (setitem (setitem (setitem h
              t "ai_category" v1) t "ai_priority" v2) t "ai_skills" v3)
              t "ai_summary" v4) t "triage_method" v5 in
  enriched (deref h' t) /\
  deref h' t !! "triage_method" = Some v5 /\
  (forall r k, k ∉ enrichment_keys -> deref h' r !! k = deref h r !! k) /\
  (forall r, r ≠ t -> deref h' r = deref h r).
Proof.
  intros h'. unfold h'. rewrite !deref_setitem_eq. split; [|split; [|split]].
  - unfold enriched, enrichment_keys.
    repeat constructor;
      by rewrite ?lookup_insert_ne, lookup_insert_eq by done.
  - by rewrite lookup_insert_eq.
  - intros r k Hk. unfold enrichment_keys in Hk.
    rewrite !not_elem_of_cons in Hk. destruct Hk as (? & ? & ? & ? & ? & _).
    rewrite !setitem_frame by done. done.
  - intros r Hne. by rewrite !deref_setitem_ne.
Qed.

Lemma triage_ticket_spec (backend : string -> string -> option llm_reply)
    (agent : AITriageAgent) (h : store) (t : ref) :
  let res := triage_ticket backend agent h t in
  res.2 = t /\ enriched (deref res.1 t) /\
  (deref res.1 t !! "triage_method" = Some "OpenAI GPT-5" \/
   deref res.1 t !! "triage_method" = Some "Mock Rule-Based") /\
  (openai_available agent = false ->
   deref res.1 t !! "triage_method" = Some "Mock Rule-Based") /\
  (forall r k, k ∉ enrichment_keys -> deref res.1 r !! k = deref h r !! k) /\
  (forall r, r ≠ t -> deref res.1 r = deref h r).
Proof.
  unfold triage_ticket, _triage_with_openai, _triage_with_mock.
  set (title := if decide (deref h t !! "source" = Some "ServiceNow")
                then dict_get (deref h t) "short_description" ""
                else dict_get (deref h t) "summary" "").
  set (desc := dict_get (deref h t) "description" title).
  destruct (openai_available agent).
  - destruct (backend title desc) as [reply|]; simpl.
    + destruct (enrich_record h t (default "Other" (category reply))
                  (default "Medium" (priority reply))
                  (join ", " (default ["Other"] (required_skills reply)))
                  (default title (summary reply)) "OpenAI GPT-5")
        as (He & Hm & Hf & Ho).
      split; [done|]. split; [done|]. split; [by left|]. done.
    + destruct (enrich_record h t (mock_category title desc)
                  (mock_priority title desc) (mock_skills title desc)
                  (mock_summary title desc) "Mock Rule-Based")
        as (He & Hm & Hf & Ho).
      split; [done|]. split; [done|]. split; [by right|]. done.
  - simpl.
    destruct (enrich_record h t (mock_category title desc)
                (mock_priority title desc) (mock_skills title desc)
                (mock_summary title desc) "Mock Rule-Based")
      as (He & Hm & Hf & Ho).
    split; [done|]. split; [done|]. split; [by right|]. done.
Qed.

(** The facts about [batch_triage] the statements below share. *)
Lemma batch_triage_spec (backend : string -> string -> option llm_reply)
    (agent : AITriageAgent) (h : store) (tickets : list ref) :
  let res := batch_triage backend agent h tickets in
  res.2 = tickets /\
  (forall r, r ∈ tickets ->
     enriched (deref res.1 r) /\
     (deref res.1 r !! "triage_method" = Some "OpenAI GPT-5" \/
      deref res.1 r !! "triage_method" = Some "Mock Rule-Based") /\
     (openai_available agent = false ->
      deref res.1 r !! "triage_method" = Some "Mock Rule-Based")) /\
  (forall r k, k ∉ enrichment_keys -> deref res.1 r !! k = deref h r !! k) /\
  (forall r, r ∉ tickets -> deref res.1 r = deref h r).
Proof.
  revert h. induction tickets as [|t l IH]; intros h; simpl.
  - split; [done|]. split; [|done]. intros r Hr. by apply elem_of_nil in Hr.
  - pose proof (triage_ticket_spec backend agent h t) as Ht.
    destruct (triage_ticket backend agent h t) as [h1 t1] eqn:E1.
    simpl in Ht. destruct Ht as (-> & He & Hm & Hmock & Hf & Ho).
    specialize (IH h1).
    destruct (batch_triage backend agent h1 l) as [h2 out] eqn:E2.
    simpl in IH |- *. destruct IH as (-> & Hall & Hf2 & Ho2).
    split; [done|]. split; [|split].
    + intros r [->|Hr]%elem_of_cons; [|by apply Hall].
      destruct (decide (t ∈ l)) as [Hin|Hnin]; [by apply Hall|].
      rewrite (Ho2 t Hnin). done.
    + intros r k Hk. by rewrite Hf2, Hf.
    + intros r [Hne Hr]%not_elem_of_cons. rewrite (Ho2 r Hr). by apply Ho.
Qed.

(** [batch_triage] returns the references it was given, in their order. After
    it every ticket of the list carries the five enrichment fields, with the
    tag of one of the two backends (the rule-based one when the remote
    backend is not available); no other field of any record has changed, and
    records outside the list are untouched. This holds whatever the remote
    backend answers, and when it fails. *)
Theorem batch_triage_enriches (backend : string -> string -> option llm_reply)
    (agent : AITriageAgent) (h : store) (tickets : list ref) :
  let res := batch_triage backend agent h tickets in
  res.2 = tickets /\
  (forall r, r ∈ tickets ->
     enriched (deref res.1 r) /\
     (deref res.1 r !! "triage_method" = Some "OpenAI GPT-5" \/
      deref res.1 r !! "triage_method" = Some "Mock Rule-Based")) /\
  (openai_available agent = false ->
   forall r, r ∈ tickets ->
     deref res.1 r !! "triage_method" = Some "Mock Rule-Based") /\
  (forall r k, k ∉ enrichment_keys -> deref res.1 r !! k = deref h r !! k) /\
  (forall r, r ∉ tickets -> deref res.1 r = deref h r).
Proof.
  intros res.
  destruct (batch_triage_spec backend agent h tickets) as (Hout & Hall & Hf & Ho).
  fold res in Hout, Hall, Hf, Ho.
  split; [done|]. split; [|split; [|split; [done|done]]].
  - intros r Hr. destruct (Hall r Hr) as (He & Hm & _). done.
  - intros Hoff r Hr. destruct (Hall r Hr) as (_ & _ & Hmock). by apply Hmock.
Qed.

(** * Further properties of the assignment engine *)

(** ** The ranges of the scores *)

Lemma inject_nat_pos (b : nat) : b ≠ 0 -> (0 < inject_Z (Z.of_nat b))%Q.
Proof. intros Hb. change 0%Q with (inject_Z 0). rewrite <- Zlt_Qlt. lia. Qed.

Lemma ratio_bounds (a b : nat) :
  a <= b -> b ≠ 0 ->
  (0 <= inject_Z (Z.of_nat a) / inject_Z (Z.of_nat b))%Q /\
  (inject_Z (Z.of_nat a) / inject_Z (Z.of_nat b) <= 1)%Q /\
  ((inject_Z (Z.of_nat a) / inject_Z (Z.of_nat b) == 0)%Q <-> a = 0) /\
  ((inject_Z (Z.of_nat a) / inject_Z (Z.of_nat b) == 1)%Q <-> a = b).
Proof.
  intros Hab Hb. pose proof (inject_nat_pos b Hb) as Hpos.
  assert (Hnn : (0 <= inject_Z (Z.of_nat a) / inject_Z (Z.of_nat b))%Q).
  { apply Qle_shift_div_l; [done|]. rewrite Qmult_0_l.
    change 0%Q with (inject_Z 0). rewrite <- Zle_Qle. lia. }
  assert (Hle : (inject_Z (Z.of_nat a) / inject_Z (Z.of_nat b) <= 1)%Q).
  { apply Qle_shift_div_r; [done|]. rewrite Qmult_1_l. rewrite <- Zle_Qle. lia. }
  split; [done|]. split; [done|]. split.
  - split.
    + intros Hz. destruct a as [|a]; [done|]. exfalso.
      assert (0 < inject_Z (Z.of_nat (S a)) / inject_Z (Z.of_nat b))%Q as Hlt.
      { apply Qlt_shift_div_l; [done|]. rewrite Qmult_0_l.
        change 0%Q with (inject_Z 0). rewrite <- Zlt_Qlt. lia. }
      rewrite Hz in Hlt. by apply Qlt_irrefl in Hlt.
    + intros ->. unfold Qdiv. simpl. apply Qmult_0_l.
  - split.
    + intros H1. destruct (decide (a = b)) as [|Hne]; [done|]. exfalso.
      assert (inject_Z (Z.of_nat a) / inject_Z (Z.of_nat b) < 1)%Q as Hlt.
      { apply Qlt_shift_div_r; [done|]. rewrite Qmult_1_l. rewrite <- Zlt_Qlt. lia. }
      rewrite H1 in Hlt. by apply Qlt_irrefl in Hlt.
    + intros ->. unfold Qdiv. apply Qmult_inv_r.
      intros Hz. rewrite Hz in Hpos. by apply Qlt_irrefl in Hpos.
Qed.

Lemma skill_score_cases (engineer : Engineer) (required_skills : skills_arg) :
  let required := required_skills_set required_skills in
  (arg_truthy required_skills = true /\ required ≠ ∅ /\
   calculate_skill_match_score engineer required_skills
   = (inject_Z (Z.of_nat (size (engineer_skills engineer ∩ required))) /
      inject_Z (Z.of_nat (size required)))%Q) \/
  ((arg_truthy required_skills = false \/ required = ∅) /\
   calculate_skill_match_score engineer required_skills = (1 # 2)%Q).
Proof.
  intros required. unfold calculate_skill_match_score. fold required.
  destruct (arg_truthy required_skills); simpl; [|right; split; [by left|done]].
  destruct (decide (size required = 0)) as [Hz|Hnz].
  - right. split; [|done]. right.
    apply size_empty_iff in Hz. by apply leibniz_equiv in Hz.
  - left. split; [done|]. split; [|done]. intros He. apply Hnz.
    by rewrite He, size_empty.
Qed.

(** The skill score lies between 0 and 1. It is 0 exactly when some skill is
    required and the engineer has none of the required skills, and 1 exactly
    when some skill is required and the engineer has them all. *)
Theorem skill_score_range (engineer : Engineer) (required_skills : skills_arg) :
  let score := calculate_skill_match_score engineer required_skills in
  let required := required_skills_set required_skills in
  (0 <= score)%Q /\ (score <= 1)%Q /\
  (Qeq_bool score 0 = true <->
     arg_truthy required_skills = true /\ required ≠ ∅ /\
     engineer_skills engineer ∩ required = ∅) /\
  ((score == 1)%Q <->
     arg_truthy required_skills = true /\ required ≠ ∅ /\
     required ⊆ engineer_skills engineer).
Proof.
  intros score required.
  destruct (skill_score_cases engineer required_skills)
    as [(Htr & Hne & Hs)|(Hno & Hs)]; fold score required in Hs |- *.
  - fold required in Hne. assert (Hsz : size required ≠ 0).
    { intros Hz. apply size_empty_iff in Hz. by apply leibniz_equiv in Hz. }
    assert (Hsub : size (engineer_skills engineer ∩ required) <= size required).
    { apply subseteq_size, intersection_subseteq_r. }
    destruct (ratio_bounds _ _ Hsub Hsz) as (H0 & H1 & Hz & Ho).
    rewrite Hs. split; [done|]. split; [done|]. split.
    + rewrite Qeq_bool_iff, Hz. split.
      * intros Hsize. split; [done|]. split; [done|].
        apply size_empty_iff in Hsize. by apply leibniz_equiv in Hsize.
      * intros (_ & _ & ->). apply size_empty.
    + rewrite Ho. split.
      * intros Hsize. split; [done|]. split; [done|].
        assert (engineer_skills engineer ∩ required ≡ required) as Heq.
        { apply set_subseteq_size_equiv; [apply intersection_subseteq_r|lia]. }
        intros x Hx. rewrite <- Heq in Hx.
        by apply elem_of_intersection in Hx as [? _].
      * intros (_ & _ & Hall). f_equal. apply leibniz_equiv. intros x.
        rewrite elem_of_intersection. split; [by intros [_ ?]|].
        intros Hx. split; [by apply Hall|done].
  - fold required in Hno. rewrite Hs. split; [done|]. split; [done|]. split.
    + split; [done|]. intros (Htr & Hne & _). destruct Hno; congruence.
    + split; [done|]. intros (Htr & Hne & _). destruct Hno; congruence.
Qed.

(** With a counter that is not negative the workload score lies between 0
    and 1, and it is 0 exactly when the engineer holds [max_workload] tickets
    or more. *)
Theorem workload_score_range (self : EngineerAssignmentEngine) (engineer : Engineer) :
  (0 <= current_load (workload self) (name engineer))%Z ->
  let score := calculate_workload_score self engineer in
  (0 <= score)%Q /\ (score <= 1)%Q /\
  (Qeq_bool score 0 = true <->
     (default 5 (max_workload engineer)
      <= current_load (workload self) (name engineer))%Z).
Proof.
  intros Hload score. unfold score, calculate_workload_score.
  set (c := current_load (workload self) (name engineer)) in *.
  set (m := default 5%Z (max_workload engineer)).
  destruct (m <=? c)%Z eqn:E.
  - apply Z.leb_le in E. split; [done|]. split; [done|]. done.
  - apply Z.leb_gt in E.
    assert (Hm : (0 < inject_Z m)%Q).
    { change 0%Q with (inject_Z 0). rewrite <- Zlt_Qlt. lia. }
    assert (H0 : (0 <= inject_Z c / inject_Z m)%Q).
    { apply Qle_shift_div_l; [done|]. rewrite Qmult_0_l.
      change 0%Q with (inject_Z 0). by rewrite <- Zle_Qle. }
    assert (H1 : (inject_Z c / inject_Z m < 1)%Q).
    { apply Qlt_shift_div_r; [done|]. rewrite Qmult_1_l. by rewrite <- Zlt_Qlt. }
    split; [lra|]. split; [lra|]. split.
    + intros Hz. apply Qeq_bool_iff in Hz. lra.
    + lia.
Qed.

Lemma workload_score_range_witness :
  (0 <= calculate_workload_score engine_full engineer_A)%Q /\
  (calculate_workload_score engine_full engineer_A <= 1)%Q.
Proof.
  assert (H : (0 <= current_load (workload engine_full) (name engineer_A))%Z)
    by (vm_compute; discriminate).
  destruct (workload_score_range engine_full engineer_A H) as (H0 & H1 & _).
  by split.
Defined.

(** ** When the fallback runs *)

Lemma current_load_nonneg (w : gmap string Z) (n : string) :
  counters_nonneg w -> (0 <= current_load w n)%Z.
Proof.
  intros Hw. unfold current_load. destruct (w !! n) as [c|] eqn:E; simpl; [|done].
  by apply (Hw n).
Qed.

Lemma skill_score_nonneg (engineer : Engineer) (required_skills : skills_arg) :
  (0 <= calculate_skill_match_score engineer required_skills)%Q.
Proof.
  destruct (skill_score_cases engineer required_skills)
    as [(_ & Hne & ->)|(_ & ->)]; [|done].
  apply ratio_bounds.
  - apply subseteq_size, intersection_subseteq_r.
  - intros Hz. apply size_empty_iff in Hz. by apply leibniz_equiv in Hz.
Qed.

Lemma workload_score_nonneg (self : EngineerAssignmentEngine) (engineer : Engineer) :
  counters_nonneg (workload self) ->
  (0 <= calculate_workload_score self engineer)%Q.
Proof.
  intros Hw. pose proof (current_load_nonneg _ (name engineer) Hw) as Hc.
  unfold calculate_workload_score.
  destruct (_ <=? _)%Z eqn:E; [done|]. apply Z.leb_gt in E.
  assert (Hm : (0 < inject_Z (default 5%Z (max_workload engineer)))%Q).
  { change 0%Q with (inject_Z 0). rewrite <- Zlt_Qlt. lia. }
  assert (H1 : (inject_Z (current_load (workload self) (name engineer)) /
                inject_Z (default 5%Z (max_workload engineer)) < 1)%Q).
  { apply Qlt_shift_div_r; [done|]. rewrite Qmult_1_l. by rewrite <- Zlt_Qlt. }
  lra.
Qed.

Lemma combined_score_nonneg (self : EngineerAssignmentEngine)
    (required_skills : skills_arg) (sw ww : Q) (engineer : Engineer) :
  (0 <= sw)%Q -> (0 <= ww)%Q -> counters_nonneg (workload self) ->
  (0 <= combined_score self required_skills sw ww engineer)%Q.
Proof.
  intros Hsw Hww Hw. unfold combined_score.
  pose proof (skill_score_nonneg engineer required_skills) as Hs.
  pose proof (workload_score_nonneg self engineer Hw) as Hl.
  pose proof (Qmult_le_0_compat _ _ Hs Hsw) as H1.
  pose proof (Qmult_le_0_compat _ _ Hl Hww) as H2.
  destruct (Qeq_bool _ 0); lra.
Qed.

(** With weights and counters that are not negative, the fallback runs only
    when the filter leaves no engineer: as soon as one engineer is not
    skipped (available, and with room or with overflow allowed),
    [find_best_engineer] returns a name and writes no audit row. *)
Theorem no_fallback_with_candidate (self : EngineerAssignmentEngine) (t : ticket)
    (skill_weight workload_weight : Q) (allow_overflow : bool) (e : Engineer) :
  (0 <= skill_weight)%Q -> (0 <= workload_weight)%Q ->
  counters_nonneg (workload self) ->
  e ∈ engineers self -> skipped self allow_overflow e = false ->
  exists winner,
    find_best_engineer self t skill_weight workload_weight allow_overflow
    = (Some winner, self).
Proof.
  intros Hsw Hww Hw He Hskip. unfold find_best_engineer.
  pose proof (score_loop_spec self (SkStr (dict_get t "ai_skills" ""))
                skill_weight workload_weight allow_overflow) as Hloop.
  destruct (score_loop _ _ _ _ _).1 as [winner|]; [by exists winner|].
  exfalso. apply list_elem_of_lookup in He as [j Hj].
  specialize (Hloop j e Hj Hskip).
  pose proof (combined_score_nonneg self (SkStr (dict_get t "ai_skills" ""))
                skill_weight workload_weight e Hsw Hww Hw) as Hnn.
  lra.
Qed.

Lemma no_fallback_with_candidate_witness :
  exists winner,
    find_best_engineer (__init__ [engineer_A; engineer_B] [])
      (network_ticket "INC1") (6 # 10) (4 # 10) false
    = (Some winner, __init__ [engineer_A; engineer_B] []).
Proof.
  apply (no_fallback_with_candidate (__init__ [engineer_A; engineer_B] [])
           (network_ticket "INC1") (6 # 10)%Q (4 # 10)%Q false engineer_A).
  - vm_compute. discriminate.
  - vm_compute. discriminate.
  - intros n c Hn. unfold __init__ in Hn. simpl in Hn.
    rewrite zero_workload_lookup in Hn. destruct (decide _); [|done].
    injection Hn as <-. done.
  - by left.
  - reflexivity.
Defined.

Lemma availability_score_cases (e : Engineer) :
  (get_availability_score e = 1%Q /\ Qeq_bool (get_availability_score e) 1 = true /\
   Qeq_bool (get_availability_score e) 0 = false) \/
  (get_availability_score e = 0%Q /\ Qeq_bool (get_availability_score e) 1 = false /\
   Qeq_bool (get_availability_score e) 0 = true).
Proof.
  unfold get_availability_score. destruct (String.eqb _ _); [by left|by right].
Qed.

(** As long as one engineer of the roster is available,
    [find_best_engineer] returns the name of an available engineer, on the
    scoring path and on the fallback alike. *)
Theorem assigned_engineer_available (self : EngineerAssignmentEngine) (t : ticket)
    (skill_weight workload_weight : Q) (allow_overflow : bool) (e : Engineer) :
  e ∈ engineers self -> Qeq_bool (get_availability_score e) 1 = true ->
  exists e', e' ∈ engineers self /\
    Qeq_bool (get_availability_score e') 1 = true /\
    (find_best_engineer self t skill_weight workload_weight allow_overflow).1
    = Some (name e').
Proof.
  intros He Hav. unfold find_best_engineer.
  pose proof (score_loop_spec self (SkStr (dict_get t "ai_skills" ""))
                skill_weight workload_weight allow_overflow) as Hloop.
  destruct (score_loop _ _ _ _ _).1 as [winner|].
  - destruct Hloop as (i & e' & Hi & Hskip & Hn & _). exists e'.
    split; [by eapply list_elem_of_lookup_2|]. split; [|by rewrite Hn].
    unfold skipped in Hskip. apply orb_false_iff in Hskip as [H0 _].
    destruct (availability_score_cases e') as [(_ & H1 & _)|(_ & _ & H0')];
      [done|congruence].
  - simpl. unfold least_loaded, fallback_candidates.
    set (available := List.filter
           (fun eng => Qeq_bool (get_availability_score eng) 1) (engineers self)).
    assert (Hin : e ∈ available).
    { apply list_elem_of_In, filter_In. split; [by apply list_elem_of_In|done]. }
    destruct available as [|x l] eqn:E; [by apply elem_of_nil in Hin|].
    pose proof (least_loaded_fold_spec (workload self) (x :: l)) as Hl.
    destruct Hl as (i & e' & Hi & Hc & _).
    assert (He' : e' ∈ available).
    { rewrite E. by eapply list_elem_of_lookup_2. }
    apply list_elem_of_In, filter_In in He' as [He1 He2].
    exists e'. split; [by apply list_elem_of_In|]. split; [done|]. exact Hc.
Qed.

Lemma assigned_engineer_available_witness :
  exists e', e' ∈ engineers engine_full /\
    Qeq_bool (get_availability_score e') 1 = true /\
    (find_best_engineer engine_full (network_ticket "INC3") (6 # 10) (4 # 10) false).1
    = Some (name e').
Proof.
  apply (assigned_engineer_available engine_full (network_ticket "INC3")
           (6 # 10)%Q (4 # 10)%Q false engineer_A).
  - by left.
  - reflexivity.
Defined.

(** ** One assignment, and a batch of them, step by step *)

Lemma assign_ticket_step (self : EngineerAssignmentEngine) (h : store) (t : ref)
    (sw ww : Q) (ao : bool) :
  counters_ok self ->
  exists self' v rows,
    assign_ticket self h t sw ww ao
      = Some (self', setitem h t "assigned_engineer" v, t) /\
    engineers self' = engineers self /\ counters_ok self' /\
    storage self' = storage self ++ rows /\
    (workload self' = workload self \/
     exists n c, workload self !! n = Some c /\
       workload self' = <[n := (c + 1)%Z]> (workload self)) /\
    ((rows = [] /\
      exists e, e ∈ engineers self /\ skipped self ao e = false /\
        (workload self' = workload self \/
         exists c, workload self !! name e = Some c /\
           workload self' = <[name e := (c + 1)%Z]> (workload self))) \/
     (exists chosen,
        rows = [{| row_ticket_id := ticket_id_of (deref h t);
                   row_assigned_engineer := chosen;
                   row_is_fallback := true; row_reason := fallback_reason |}])).
Proof.
  intros Hok.
  destruct (assign_ticket_spec self h t sw ww ao Hok)
    as (self' & v & Hrun & Heng & Hok' & Hst & Hcase).
  unfold find_best_engineer in Hst, Hcase.
  rewrite score_loop_ticket_id in Hst, Hcase.
  pose proof (score_loop_spec self (SkStr (dict_get (deref h t) "ai_skills" ""))
                sw ww ao) as Hloop.
  destruct (score_loop self _ sw ww ao).1 as [winner|]; simpl in Hst, Hcase.
  - destruct Hloop as (i & e & Hi & Hskip & <- & _).
    assert (He : e ∈ engineers self) by (by eapply list_elem_of_lookup_2).
    exists self', v, []. rewrite app_nil_r.
    split; [done|]. split; [done|]. split; [done|]. split; [done|].
    destruct (truthy (name e)).
    + destruct Hcase as (_ & c & Hc & Hw). split; [right; eauto|].
      left. split; [done|]. exists e. split; [done|]. split; [done|].
      right. eauto.
    + destruct Hcase as (_ & Hw). split; [by left|].
      left. split; [done|]. exists e. split; [done|]. split; [done|]. by left.
  - exists self', v, [{| row_ticket_id := ticket_id_of (deref h t);
                        row_assigned_engineer :=
                          least_loaded (set_current_ticket_id self
                                          (ticket_id_of (deref h t)));
                        row_is_fallback := true; row_reason := fallback_reason |}].
    split; [done|]. split; [done|]. split; [done|]. split; [exact Hst|].
    split; [|right; eauto].
    destruct (least_loaded _) as [n|]; [|destruct Hcase as [_ ->]; by left].
    destruct (truthy n); [|destruct Hcase as [_ ->]; by left].
    destruct Hcase as (_ & c & Hc & Hw). right. eauto.
Qed.

Lemma ticket_id_frame (h : store) (t r : ref) (v : string) :
  ticket_id_of (deref (setitem h t "assigned_engineer" v) r)
  = ticket_id_of (deref h r).
Proof. unfold ticket_id_of. by rewrite !setitem_frame by done. Qed.

Lemma within_capacity_step (self self' : EngineerAssignmentEngine) (e : Engineer) :
  engineers self' = engineers self ->
  NoDup (map name (engineers self)) ->
  e ∈ engineers self -> skipped self false e = false ->
  (workload self' = workload self \/
   exists c, workload self !! name e = Some c /\
     workload self' = <[name e := (c + 1)%Z]> (workload self)) ->
  within_capacity self -> within_capacity self'.
Proof.
  intros Heng Hnd He Hskip Hw Hcap. unfold within_capacity in *.
  rewrite Heng. destruct Hw as [->|(c & Hc & ->)]; [done|].
  apply Forall_forall. intros e' He'.
  pose proof (proj1 (Forall_forall _ _) Hcap e' He') as Hle. simpl in Hle.
  rewrite (current_load_bump _ _ _ _ Hc).
  destruct (decide (name e' = name e)) as [Hn|Hn]; [|done].
  assert (e' = e) as -> by (by apply (NoDup_name_inj (engineers self))).
  pose proof (skipped_not_full self e Hskip). lia.
Qed.

Lemma assign_each_trace (l : list ref) (self : EngineerAssignmentEngine)
    (h : store) (sw ww : Q) (ao : bool) :
  counters_ok self ->
  exists self' h' rows,
    assign_each self h l sw ww ao = Some (self', h', l) /\
    engineers self' = engineers self /\
    storage self' = storage self ++ rows /\
    length rows <= length l /\
    Forall (fun row => row_is_fallback row = true /\
                       row_reason row = fallback_reason /\
                       exists r, r ∈ l /\ row_ticket_id row = ticket_id_of (deref h r))
           rows /\
    (forall n, (current_load (workload self) n <= current_load (workload self') n)%Z) /\
    dom (workload self') = dom (workload self) /\
    (counters_nonneg (workload self) -> counters_nonneg (workload self')) /\
    (ao = false -> rows = [] -> NoDup (map name (engineers self)) ->
     within_capacity self -> within_capacity self').
Proof.
  revert self h. induction l as [|t l IH]; intros self h Hok.
  - exists self, h, []. rewrite app_nil_r. simpl.
    split; [done|]. split; [done|]. split; [done|]. split; [done|].
    split; [constructor|]. split; [intros n; lia|]. done.
  - destruct (assign_ticket_step self h t sw ww ao Hok)
      as (self1 & v & rows1 & Hrun & Heng1 & Hok1 & Hst1 & Hw1 & Hpath).
    destruct (IH self1 (setitem h t "assigned_engineer" v) Hok1)
      as (self2 & h2 & rows2 & Hrun2 & Heng2 & Hst2 & Hlen2 & Hrows2 & Hmono2
          & Hdom2 & Hnn2 & Hcap2).
    exists self2, h2, (rows1 ++ rows2). simpl. rewrite Hrun, Hrun2.
    split; [done|]. split; [congruence|].
    split; [by rewrite Hst2, Hst1, app_assoc|].
    assert (Hlen1 : length rows1 <= 1).
    { destruct Hpath as [[-> _]|[chosen ->]]; simpl; lia. }
    split; [rewrite length_app; lia|]. split; [|split; [|split; [|split]]].
    + apply Forall_app. split.
      * destruct Hpath as [[-> _]|[chosen ->]]; [constructor|].
        constructor; [|constructor]. simpl. split; [done|]. split; [done|].
        exists t. split; [by left|done].
      * eapply Forall_impl; [exact Hrows2|]. intros row (Hf & Hr & r & Hin & Hid).
        split; [done|]. split; [done|]. exists r. split; [by right|].
        by rewrite Hid, ticket_id_frame.
    + intros n. etrans; [|apply Hmono2].
      destruct Hw1 as [->|(k & c & Hc & ->)]; [done|].
      rewrite (current_load_bump _ _ _ _ Hc). destruct (decide (n = k)); lia.
    + rewrite Hdom2. destruct Hw1 as [->|(k & c & Hc & ->)]; [done|].
      apply dom_insert_lookup_L. eauto.
    + intros Hnn. apply Hnn2.
      destruct Hw1 as [->|(k & c & Hc & ->)]; [done|].
      intros n x Hn. destruct (decide (n = k)) as [->|Hne].
      * rewrite lookup_insert_eq in Hn. injection Hn as <-.
        specialize (Hnn k c Hc). lia.
      * rewrite lookup_insert_ne in Hn by done. by apply (Hnn n).
    + intros Hao Hnil Hnd Hcap. apply app_eq_nil in Hnil as [Hn1 Hn2].
      apply Hcap2; [done|done|by rewrite Heng1|].
      destruct Hpath as [(_ & e & He & Hskip & Hw)|[chosen Hrow]];
        [|by rewrite Hrow in Hn1].
      subst ao. by apply (within_capacity_step self self1 e).
Qed.

Lemma counters_ok_start (self : EngineerAssignmentEngine) (reset : bool) :
  (reset = false -> counters_ok self) ->
  counters_ok (if reset then reset_workload self else self).
Proof. intros H. destruct reset; [apply counters_ok_reset|by apply H]. Qed.

Lemma counters_ok_scenario : counters_ok (__init__ [engineer_A; engineer_B] []).
Proof. apply counters_ok_init. Qed.

(** The audit log is only appended to, and only by the fallback: a batch
    leaves the earlier rows in place and adds at most one row per ticket,
    each with [is_fallback] set, the fixed reason, and the identifier (number,
    else key, else "Unknown") of a ticket of the batch. *)
Theorem audit_log_append_only (self : EngineerAssignmentEngine) (h : store)
    (tickets : list ref) (skill_weight workload_weight : Q)
    (reset allow_overflow : bool) :
  (reset = false -> counters_ok self) ->
  exists self' h' out rows,
    assign_tickets self h tickets skill_weight workload_weight reset allow_overflow
      = Some (self', h', out) /\
    storage self' = storage self ++ rows /\
    length rows <= length tickets /\
    Forall (fun row => row_is_fallback row = true /\
                       row_reason row = fallback_reason /\
                       exists r, r ∈ tickets /\
                         row_ticket_id row = ticket_id_of (deref h r)) rows.
Proof.
  intros Hok. unfold assign_tickets.
  destruct (assign_each_trace (sorted (priority_key h) tickets) _ h
              skill_weight workload_weight allow_overflow
              (counters_ok_start self reset Hok))
    as (self' & h' & rows & Hrun & _ & Hst & Hlen & Hrows & _).
  exists self', h', (sorted (priority_key h) tickets), rows.
  split; [done|]. split; [by destruct reset|].
  split; [by rewrite sorted_length in Hlen|].
  eapply Forall_impl; [exact Hrows|]. intros row (Hf & Hr & r & Hin & Hid).
  split; [done|]. split; [done|]. exists r. split; [|done].
  by rewrite sorted_perm in Hin.
Qed.

Lemma audit_log_append_only_witness :
  exists self' h' out rows,
    assign_tickets (__init__ [engineer_A; engineer_B] []) mixed_batch [0; 1; 2; 3]
      (6 # 10) (4 # 10) false false = Some (self', h', out) /\
    storage self' = [] ++ rows /\ length rows <= 4.
Proof.
  destruct (audit_log_append_only (__init__ [engineer_A; engineer_B] [])
              mixed_batch [0; 1; 2; 3] (6 # 10)%Q (4 # 10)%Q false false
              (fun _ => counters_ok_scenario))
    as (self' & h' & out & rows & Hrun & Hst & Hlen & _).
  exists self', h', out, rows.
  split; [exact Hrun|]. split; [exact Hst|exact Hlen].
Defined.

(** Without reset a batch only increments: no workload counter decreases,
    no counter becomes negative, the set of names that have a counter does
    not change, and the roster is the same. *)
Theorem counters_only_grow (self : EngineerAssignmentEngine) (h : store)
    (tickets : list ref) (skill_weight workload_weight : Q)
    (allow_overflow : bool) :
  counters_ok self ->
  exists self' h' out,
    assign_tickets self h tickets skill_weight workload_weight false allow_overflow
      = Some (self', h', out) /\
    engineers self' = engineers self /\
    dom (get_workload_summary self') = dom (get_workload_summary self) /\
    (forall n, (current_load (workload self) n <= current_load (workload self') n)%Z) /\
    (counters_nonneg (workload self) -> counters_nonneg (workload self')).
Proof.
  intros Hok. unfold assign_tickets.
  destruct (assign_each_trace (sorted (priority_key h) tickets) self h
              skill_weight workload_weight allow_overflow Hok)
    as (self' & h' & rows & Hrun & Heng & _ & _ & _ & Hmono & Hdom & Hnn & _).
  exists self', h', (sorted (priority_key h) tickets). done.
Qed.

Lemma counters_only_grow_witness :
  exists self' h' out,
    assign_tickets (__init__ [engineer_A; engineer_B] []) mixed_batch [0; 1; 2; 3]
      (6 # 10) (4 # 10) false false = Some (self', h', out) /\
    engineers self' = [engineer_A; engineer_B].
Proof.
  destruct (counters_only_grow (__init__ [engineer_A; engineer_B] [])
              mixed_batch [0; 1; 2; 3] (6 # 10)%Q (4 # 10)%Q false
              counters_ok_scenario)
    as (self' & h' & out & Hrun & Heng & _).
  exists self', h', out. split; [exact Hrun|exact Heng].
Defined.

(** Without reset the counters accumulate from batch to batch: with a roster
    that is not empty and whose names are non-empty, a batch adds its number
    of tickets to the sum of the counters. *)
Theorem batch_adds_its_size (self : EngineerAssignmentEngine) (h : store)
    (tickets : list ref) (skill_weight workload_weight : Q)
    (allow_overflow : bool) :
  counters_ok self -> engineers self ≠ [] ->
  Forall (fun e => name e ≠ "") (engineers self) ->
  exists self' h' out,
    assign_tickets self h tickets skill_weight workload_weight false allow_overflow
      = Some (self', h', out) /\
    workload_sum (workload self')
    = (workload_sum (workload self) + Z.of_nat (length tickets))%Z.
Proof.
  intros Hok Hne Hnames. unfold assign_tickets.
  assert (Htruthy : Forall (fun e => truthy (name e) = true) (engineers self)).
  { eapply Forall_impl; [exact Hnames|]. intros e He. simpl in He.
    by destruct (name e). }
  destruct (assign_each_sum (sorted (priority_key h) tickets) self h
              skill_weight workload_weight allow_overflow Hok Hne Htruthy)
    as (self' & h' & Hrun & Hsum).
  exists self', h', (sorted (priority_key h) tickets).
  split; [done|]. by rewrite Hsum, sorted_length.
Qed.

Lemma batch_adds_its_size_witness :
  exists self' h' out,
    assign_tickets engine_full mixed_batch [0; 1; 2; 3]
      (6 # 10) (4 # 10) false false = Some (self', h', out) /\
    workload_sum (workload self')
    = (workload_sum (workload engine_full) + 4)%Z.
Proof.
  apply (batch_adds_its_size engine_full mixed_batch [0; 1; 2; 3]
           (6 # 10)%Q (4 # 10)%Q false).
  - repeat constructor; vm_compute; eauto.
  - done.
  - repeat constructor; done.
Defined.

(** [__init__] and [reset_workload] give every name of the roster a counter
    at zero and nothing else a counter (a counter left under a name that is
    not in the roster is dropped, engineers of one name share one counter);
    the roster and the audit log are kept, and resetting twice is resetting
    once. *)
Theorem reset_workload_state (self : EngineerAssignmentEngine)
    (engs : list Engineer) (log : list assignment_row) :
  (forall n, get_workload_summary (reset_workload self) !! n
             = if decide (n ∈ map name (engineers self)) then Some 0%Z else None) /\
  (forall n, get_workload_summary (__init__ engs log) !! n
             = if decide (n ∈ map name engs) then Some 0%Z else None) /\
  dom (get_workload_summary (reset_workload self))
    = list_to_set (map name (engineers self)) /\
  workload_sum (workload (reset_workload self)) = 0%Z /\
  engineers (reset_workload self) = engineers self /\
  storage (reset_workload self) = storage self /\
  reset_workload (reset_workload self) = reset_workload self.
Proof.
  split; [intros n; apply zero_workload_lookup|].
  split; [intros n; apply zero_workload_lookup|].
  split.
  { apply set_eq. intros n. rewrite elem_of_dom, elem_of_list_to_set.
    unfold get_workload_summary. simpl. rewrite zero_workload_lookup.
    destruct (decide _) as [Hin|Hnin]; split; eauto; try done. }
  split; [apply workload_sum_reset|]. done.
Qed.

(** With [allow_overflow] off and distinct engineer names, a batch that
    starts with every engineer within [max_workload] and adds no row to the
    audit log ends with every engineer within [max_workload]: capacity is
    never exceeded without a fallback row. *)
Theorem capacity_kept_without_fallback (self : EngineerAssignmentEngine)
    (h : store) (tickets : list ref) (skill_weight workload_weight : Q) :
  counters_ok self -> NoDup (map name (engineers self)) ->
  within_capacity self ->
  exists self' h' out rows,
    assign_tickets self h tickets skill_weight workload_weight false false
      = Some (self', h', out) /\
    storage self' = storage self ++ rows /\
    (rows = [] -> within_capacity self').
Proof.
  intros Hok Hnd Hcap. unfold assign_tickets.
  destruct (assign_each_trace (sorted (priority_key h) tickets) self h
              skill_weight workload_weight false Hok)
    as (self' & h' & rows & Hrun & _ & Hst & _ & _ & _ & _ & _ & Hkeep).
  exists self', h', (sorted (priority_key h) tickets), rows.
  split; [done|]. split; [done|]. intros Hnil. by apply Hkeep.
Qed.

Lemma capacity_kept_without_fallback_witness :
  exists self' h' out rows,
    assign_tickets (__init__ [engineer_A; engineer_B] []) mixed_batch [0; 1]
      (6 # 10) (4 # 10) false false = Some (self', h', out) /\
    storage self' = [] ++ rows /\
    (rows = [] -> within_capacity self').
Proof.
  apply (capacity_kept_without_fallback (__init__ [engineer_A; engineer_B] [])
           mixed_batch [0; 1] (6 # 10)%Q (4 # 10)%Q).
  - apply counters_ok_scenario.
  - simpl. repeat constructor; [|by apply not_elem_of_nil].
    intros [H|H]%elem_of_cons; [done|by apply elem_of_nil in H].
  - repeat constructor; vm_compute; discriminate.
Defined.

(** ** The empty roster *)

Lemma find_best_engineer_empty (self : EngineerAssignmentEngine) (t : ticket)
    (sw ww : Q) (ao : bool) :
  engineers self = [] ->
  find_best_engineer self t sw ww ao
  = (None, log_assignment self (default "Unknown" (current_ticket_id self))
             None true fallback_reason).
Proof.
  intros Hnil.
  unfold find_best_engineer, score_loop, least_loaded, fallback_candidates.
  by rewrite Hnil.
Qed.

Lemma assign_each_empty_rows (l : list ref) (self : EngineerAssignmentEngine)
    (h : store) (sw ww : Q) (ao : bool) :
  engineers self = [] ->
  exists self' h',
    assign_each self h l sw ww ao = Some (self', h', l) /\
    storage self' = storage self ++
      map (fun r => {| row_ticket_id := ticket_id_of (deref h r);
                       row_assigned_engineer := None;
                       row_is_fallback := true;
                       row_reason := fallback_reason |}) l.
Proof.
  revert self h. induction l as [|t l IH]; intros self h Hnil.
  - exists self, h. simpl. by rewrite app_nil_r.
  - simpl. unfold assign_ticket.
    rewrite find_best_engineer_empty by exact Hnil. cbn [fst snd].
    set (self1 := log_assignment _ _ None true fallback_reason).
    destruct (IH self1 (setitem h t "assigned_engineer" "Unassigned") Hnil)
      as (self2 & h2 & Hrun2 & Hst2).
    rewrite Hrun2. exists self2, h2. split; [done|].
    rewrite Hst2. unfold self1. simpl. rewrite <- app_assoc. simpl.
    f_equal. f_equal. apply map_ext. intros r. by rewrite ticket_id_frame.
Qed.

(** With an empty roster a batch raises nothing: every ticket is marked
    "Unassigned", no counter is created or changed (a reset leaves no counter
    at all), and the fallback still writes one audit row per ticket, in the
    order of assignment, with no engineer in it. *)
Theorem empty_roster_batch (self : EngineerAssignmentEngine) (h : store)
    (tickets : list ref) (skill_weight workload_weight : Q)
    (reset allow_overflow : bool) :
  engineers self = [] ->
  exists self' h',
    assign_tickets self h tickets skill_weight workload_weight reset allow_overflow
      = Some (self', h', sorted (priority_key h) tickets) /\
    (forall r, r ∈ tickets ->
       deref h' r !! "assigned_engineer" = Some "Unassigned") /\
    workload self' = (if reset then ∅ else workload self) /\
    storage self' = storage self ++
      map (fun r => {| row_ticket_id := ticket_id_of (deref h r);
                       row_assigned_engineer := None;
                       row_is_fallback := true;
                       row_reason := fallback_reason |})
          (sorted (priority_key h) tickets).
Proof.
  intros Hnil. unfold assign_tickets.
  set (start := if reset then reset_workload self else self).
  assert (Hnil' : engineers start = []) by (unfold start; by destruct reset).
  assert (Hw0 : workload start = if reset then ∅ else workload self).
  { unfold start. destruct reset; [|done]. simpl. by rewrite Hnil. }
  assert (Hs0 : storage start = storage self) by (unfold start; by destruct reset).
  destruct (assign_each_empty_roster (sorted (priority_key h) tickets) start h
              skill_weight workload_weight allow_overflow Hnil')
    as (self' & h' & Hrun & Hw & Hun).
  destruct (assign_each_empty_rows (sorted (priority_key h) tickets) start h
              skill_weight workload_weight allow_overflow Hnil')
    as (self2 & h2 & Hrun2 & Hst).
  rewrite Hrun in Hrun2. injection Hrun2 as <- <-.
  exists self', h'. split; [done|]. split; [|split].
  - intros r Hr. apply Hun. by rewrite sorted_perm.
  - by rewrite Hw, Hw0.
  - by rewrite Hst, Hs0.
Qed.

Lemma empty_roster_batch_witness :
  exists self' h',
    assign_tickets (__init__ [] []) mixed_batch [0; 1] (6 # 10) (4 # 10) false false
      = Some (self', h', sorted (priority_key mixed_batch) [0; 1]) /\
    length (storage self') = 2.
Proof.
  destruct (empty_roster_batch (__init__ [] []) mixed_batch [0; 1]
              (6 # 10)%Q (4 # 10)%Q false false eq_refl)
    as (self' & h' & Hrun & _ & _ & Hst).
  exists self', h'. split; [exact Hrun|]. rewrite Hst. reflexivity.
Defined.

(** * The storage, the adapters and the dashboard *)

Import Storage Adapters Dashboard.

(** [get_latest_tickets] returns the last [limit] tickets when [limit] is
    positive (all of them when there are no more than [limit]). With [limit]
    zero it returns the whole list, not the empty one, and with a negative
    [limit] it drops that many tickets from the front. *)
Theorem get_latest_tickets_spec {A} (tickets : list A) (limit : Z) :
  get_latest_tickets tickets limit
  = (if (0 <? limit)%Z
     then drop (length tickets - Z.to_nat limit) tickets
     else drop (Z.to_nat (- limit)) tickets) /\
  ((0 < limit)%Z ->
   length (get_latest_tickets tickets limit)
   = Nat.min (length tickets) (Z.to_nat limit)) /\
  get_latest_tickets tickets 0 = tickets.
Proof.
  assert (Heq : forall lim, get_latest_tickets tickets lim
    = (if (0 <? lim)%Z
       then drop (length tickets - Z.to_nat lim) tickets
       else drop (Z.to_nat (- lim)) tickets)).
  { intros lim. unfold get_latest_tickets, slice_from.
    destruct (lim <? Z.of_nat (length tickets))%Z eqn:E1.
    - apply Z.ltb_lt in E1. destruct (0 <? lim)%Z eqn:E2.
      + apply Z.ltb_lt in E2.
        assert ((- lim <? 0)%Z = true) as -> by (apply Z.ltb_lt; lia).
        f_equal. lia.
      + apply Z.ltb_ge in E2.
        assert ((- lim <? 0)%Z = false) as -> by (apply Z.ltb_ge; lia).
        destruct (decide (- lim <= Z.of_nat (length tickets))%Z) as [Hle|Hgt].
        * f_equal. lia.
        * rewrite !drop_ge; [done|lia|lia].
    - apply Z.ltb_ge in E1. destruct (0 <? lim)%Z eqn:E2.
      + apply Z.ltb_lt in E2.
        replace (length tickets - Z.to_nat lim) with 0 by lia. done.
      + apply Z.ltb_ge in E2. destruct tickets; [by rewrite drop_nil|].
        simpl in E1. lia. }
  split; [apply Heq|]. split.
  - intros Hpos. rewrite Heq.
    assert ((0 <? limit)%Z = true) as -> by (apply Z.ltb_lt; lia).
    rewrite length_drop. lia.
  - rewrite Heq. done.
Qed.

(** Mock tickets are used exactly when no enabled adapter succeeded.
    Otherwise the result is the tickets of the adapters that succeeded,
    ServiceNow first, even when they returned none; a failed or disabled
    adapter contributes nothing, and mock tickets are never mixed in. *)
Theorem fetch_tickets_sources {A} (sn_enabled jira_enabled : bool)
    (sn_fetch jira_fetch : option (list A)) (mock_tickets : list A) :
  let sn := if sn_enabled then sn_fetch else None in
  let jira := if jira_enabled then jira_fetch else None in
  fetch_tickets_from_apis sn_enabled jira_enabled sn_fetch jira_fetch mock_tickets
  = match sn, jira with
    | None, None => mock_tickets
    | _, _ => default [] sn ++ default [] jira
    end.
Proof.
  unfold fetch_tickets_from_apis.
  destruct sn_enabled, jira_enabled, sn_fetch as [s|], jira_fetch as [j|];
    simpl; rewrite ?app_nil_r; done.
Qed.

(** ** The base address of the adapters *)

Lemma rstrip_snoc (p : ascii -> bool) (s : string) (a : ascii) :
  p a = true -> rstrip p (s +:+ String a "") = rstrip p s.
Proof.
  intros Ha. induction s as [|c s IH].
  - rewrite append_nil_l. simpl. by rewrite Ha.
  - rewrite append_cons. simpl. by rewrite IH.
Qed.

Lemma rstrip_last (p : ascii -> bool) (s : string) (c : ascii) :
  last_char (rstrip p s) = Some c -> p c = false.
Proof.
  revert c. induction s as [|d s IH]; intros c; simpl; [done|].
  destruct (rstrip p s) as [|e r] eqn:E; simpl.
  - destruct (p d) eqn:Hd; simpl; [done|]. by intros [= <-].
  - intros Hl. by apply IH.
Qed.

Lemma rstrip_split (p : ascii -> bool) (s : string) :
  exists rest, s = rstrip p s +:+ rest /\ rstrip p rest = "".
Proof.
  induction s as [|d s (rest & Hs & Hrest)]; [by exists ""|]. simpl.
  destruct (rstrip p s) as [|e r] eqn:E; simpl.
  - destruct (p d) eqn:Hd; simpl.
    + exists (String d s). split; [done|]. simpl. by rewrite E, Hd.
    + exists rest. rewrite append_cons. split; [by rewrite <- Hs|done].
  - exists rest. rewrite append_cons. split; [by rewrite <- Hs|done].
Qed.

(** Both adapters drop the slashes that end the base address: what they keep
    never ends with a slash, the address given is what they keep followed by
    slashes only, and the endpoint they call is the same with and without a
    closing slash. *)
Theorem adapter_base_address (url table : string) :
  last_char (servicenow_instance_url url) ≠ Some "/"%char /\
  (exists slashes, url = servicenow_instance_url url +:+ slashes /\
     rstrip is_slash slashes = "") /\
  servicenow_endpoint (url +:+ "/") table = servicenow_endpoint url table /\
  jira_server_url url = servicenow_instance_url url /\
  jira_endpoint (url +:+ "/") = jira_endpoint url.
Proof.
  unfold servicenow_endpoint, jira_endpoint, jira_server_url,
    servicenow_instance_url.
  split; [|split; [|split; [|split]]].
  - intros Hl. by apply rstrip_last in Hl.
  - apply rstrip_split.
  - by rewrite rstrip_snoc.
  - done.
  - by rewrite rstrip_snoc.
Qed.

(** ** process_tickets *)

Lemma StronglySorted_ext {A} (R R' : A -> A -> Prop) (l : list A) :
  (forall a b, R a b -> R' a b) -> StronglySorted R l -> StronglySorted R' l.
Proof.
  intros HR. induction 1 as [|x l Hl IH Hx]; constructor; [done|].
  eapply Forall_impl; [exact Hx|]. intros y. apply HR.
Qed.

Lemma actions_save_tickets (st : DataStorage) (rows : list ticket) :
  actions (save_tickets st rows) = actions st.
Proof. by destruct rows. Qed.

Lemma saved_save_tickets (st : DataStorage) (rows : list ticket) :
  saved (save_tickets st rows)
  = match rows with [] => saved st | _ => saved st ++ [rows] end.
Proof. by destruct rows. Qed.

(** [process_tickets] on an engine whose engineers all have a counter: it
    returns the tickets it was given, rearranged so that the priority just
    written by the classifier never decreases in rank; every ticket returned
    carries the five enrichment fields and [assigned_engineer]; no other
    field of any record has changed; the batch is saved unless it is empty,
    and one line is added to the action log with the number of tickets and
    the method of the first ticket returned ("None" for an empty batch). *)
Theorem process_tickets_pipeline
    (backend : string -> string -> option llm_reply) (agent : AITriageAgent)
    (engine : EngineerAssignmentEngine) (storage : DataStorage)
    (h : store) (tickets : list ref) :
  counters_ok engine ->
  exists engine' storage' h' out,
    process_tickets backend agent engine storage h tickets
      = Some (engine', storage', h', out) /\
    out ≡ₚ tickets /\
    (forall r, r ∈ out ->
       enriched (deref h' r) /\ is_Some (deref h' r !! "assigned_engineer")) /\
    StronglySorted (fun a b => (priority_key h' a <= priority_key h' b)%Z) out /\
    (forall r k, k ∉ enrichment_keys -> k ≠ "assigned_engineer" ->
       deref h' r !! k = deref h r !! k) /\
    saved storage'
      = match tickets with
        | [] => saved storage
        | _ => saved storage ++ [map (deref h') out]
        end /\
    actions storage'
      = actions storage ++
        [{| action := "triage_and_assign";
            tickets_processed := length tickets;
            method := match out with
                      | t :: _ => dict_get (deref h' t) "triage_method" "Unknown"
                      | [] => "None"
                      end |}].
Proof.
  intros Hok. unfold process_tickets, assign_tickets.
  destruct (batch_triage_spec backend agent h tickets) as (Hout & Hall & Hf & _).
  set (res := batch_triage backend agent h tickets) in *.
  set (out := sorted (priority_key res.1) res.2).
  destruct (assign_each_spec out engine res.1 (6 # 10)%Q (4 # 10)%Q false Hok)
    as (engine' & h2 & Hrun & _ & _ & Hset & _ & Hframe).
  rewrite Hrun.
  assert (Hperm : out ≡ₚ tickets) by (unfold out; by rewrite sorted_perm, Hout).
  exists engine',
    (append_log (save_tickets storage (map (deref h2) out))
       {| action := "triage_and_assign"; tickets_processed := length out;
          method := match out with
                    | t :: _ => dict_get (deref h2 t) "triage_method" "Unknown"
                    | [] => "None"
                    end |}), h2, out.
  split; [reflexivity|]. split; [done|].
  split; [|split; [|split; [|split]]].
  - intros r Hr. split; [|by apply Hset].
    assert (Hin : r ∈ tickets) by (by rewrite <- Hperm).
    destruct (Hall r Hin) as (He & _). unfold enriched in *.
    apply Forall_forall. intros k Hk.
    rewrite Hframe.
    + by apply (proj1 (Forall_forall _ _) He k).
    + intros ->. unfold enrichment_keys in Hk.
      repeat (apply elem_of_cons in Hk as [Hk|Hk]; [done|]).
      by apply elem_of_nil in Hk.
  - apply (StronglySorted_ext
             (fun a b => (priority_key res.1 a <= priority_key res.1 b)%Z)).
    + intros a b. unfold priority_key, dict_get. by rewrite !Hframe.
    + apply sorted_sorted.
  - intros r k Hk Hk'. by rewrite Hframe, Hf.
  - simpl. rewrite saved_save_tickets.
    destruct tickets as [|t0 l0].
    + apply Permutation_nil_r in Hperm. by rewrite Hperm.
    + destruct out as [|o1 o]; [|done].
      apply Permutation_nil_l in Hperm. done.
  - simpl. rewrite actions_save_tickets.
    by rewrite (Permutation_length Hperm).
Qed.

Lemma process_tickets_pipeline_witness :
  exists engine' storage' h' out,
    process_tickets (fun _ _ => None)
      {| use_openai := false; openai_available := false |}
      (__init__ [engineer_A; engineer_B] []) {| saved := []; actions := [] |}
      mixed_batch [0; 1] = Some (engine', storage', h', out) /\
    out ≡ₚ [0; 1].
Proof.
  destruct (process_tickets_pipeline (fun _ _ => None)
              {| use_openai := false; openai_available := false |}
              (__init__ [engineer_A; engineer_B] []) {| saved := []; actions := [] |}
              mixed_batch [0; 1] counters_ok_scenario)
    as (engine' & storage' & h' & out & Hrun & Hperm & _).
  exists engine', storage', h', out. split; [exact Hrun|exact Hperm].
Defined.
